(** * Fortune Summoners un/packer: the bitmap resource codec of [unpacker.py]

    A shallow embedding of [unpack] (obfuscated resource -> BMP file) and
    [pack] (decoded image -> canonical resource), with the pieces of Python
    the two functions rely on: unbounded integers, byte strings with Python
    slicing, and the [struct] module's [unpack_from] and [pack].

    Modelling conventions.
    - Python [int] is [Z]; nothing wraps unless the source masks it.
    - [bytes] is [list byte]; [len] is the length as a [Z].
    - Exceptions are the [Err] side of [result]; [struct.error] and
      [IndexError], which the source never catches, are kinds of their own.
    - The format codes ['I'], ['i'], ['H'] without a prefix use the host's
      byte order and sizes; the host is taken to be little-endian with
      4-byte ints and 2-byte shorts (x86 Windows, the program's platform). *)

From Stdlib Require Import ZArith List ListSet Sorted Lia Bool.
From Stdlib Require Import Strings.Byte.
Import ListNotations.
Open Scope Z_scope.

(** ** Errors *)

Inductive error : Type :=
| IncompleteSotESResourceError
| SotESResourceValidationError
| InvalidBitmapError
| UnsupportedBitmapError
| UnsupportedFunctionError
| StructError      (* struct.error, raised by the struct module *)
| IndexError.      (* list index out of range *)

Inductive result (A : Type) : Type :=
| Ok (a : A)
| Err (e : error).
Arguments Ok {A} a.
Arguments Err {A} e.

Definition bind {A B : Type} (c : result A) (k : A -> result B) : result B :=
  match c with
  | Ok a => k a
  | Err e => Err e
  end.

Definition raise {A : Type} (e : error) : result A := Err e.

Declare Scope result_scope.
Delimit Scope result_scope with result.
Notation "x <- c ;; k" := (bind c (fun x => k))
  (at level 61, c at next level, right associativity) : result_scope.
Notation "' p <- c ;; k" := (bind c (fun x => match x with p => k end))
  (at level 61, p pattern, c at next level, right associativity) : result_scope.
Open Scope result_scope.

Fixpoint mapM {A B : Type} (f : A -> result B) (l : list A) : result (list B) :=
  match l with
  | [] => Ok []
  | a :: r => b <- f a ;; bs <- mapM f r ;; Ok (b :: bs)
  end.

(** ** Byte strings *)

Definition bytes : Type := list byte.

Definition len {A : Type} (l : list A) : Z := Z.of_nat (length l).

Definition byte_val (x : byte) : Z := Z.of_N (Byte.to_N x).

Definition byte_of (z : Z) : byte :=
  match Byte.of_N (Z.to_N (z mod 256)) with
  | Some x => x
  | None => x00
  end.

(** [bytes(n)]: [n] zero bytes. *)
Definition zeros (n : Z) : bytes := repeat x00 (Z.to_nat n).

(** Python's index normalisation for slices: a negative index counts from
    the end, and the result is clamped to [0 .. len]. *)
Definition clamp_index (n i : Z) : Z :=
  if i <? 0 then Z.max (i + n) 0 else Z.min i n.

(** [l[i:j]] *)
Definition slice {A : Type} (l : list A) (i j : Z) : list A :=
  let lo := clamp_index (len l) i in
  let hi := clamp_index (len l) j in
  firstn (Z.to_nat (hi - lo)) (skipn (Z.to_nat lo) l).

(** [l[3::4]]: the elements at indices 3, 7, 11, ... *)
Fixpoint every_fourth {A : Type} (l : list A) : list A :=
  match l with
  | _ :: _ :: _ :: d :: r => d :: every_fourth r
  | _ => []
  end.

(** [range(n)] *)
Definition range (n : Z) : list Z := map Z.of_nat (seq 0 (Z.to_nat n)).

(** [s.ljust(width)] on bytes: pads on the right with the default fill
    byte, the ASCII space. *)
Definition ljust (s : bytes) (width : Z) : bytes :=
  s ++ repeat x20 (Z.to_nat (width - len s)).

(** ** The struct module *)

(** Little-endian value of a byte string. *)
Fixpoint le_decode (s : bytes) : Z :=
  match s with
  | [] => 0
  | x :: r => byte_val x + 256 * le_decode r
  end.

(** The [n] low bytes of [z], least significant first. *)
Fixpoint le_encode (n : nat) (z : Z) : bytes :=
  match n with
  | O => []
  | S k => byte_of z :: le_encode k (z / 256)
  end.

Definition to_signed (bits z : Z) : Z :=
  if z <? 2 ^ (bits - 1) then z else z - 2 ^ bits.

(** [struct.unpack_from] for a format of [size] bytes: the bytes it decodes.
    A negative offset is taken from the end of the buffer. *)
Definition unpack_from_raw (size : Z) (buffer : bytes) (offset : Z) : result bytes :=
  let n := len buffer in
  let fetch (off : Z) : result bytes :=
    if n - off <? size then raise StructError
    else Ok (firstn (Z.to_nat size) (skipn (Z.to_nat off) buffer)) in
  if offset <? 0 then
    if 0 <? offset + size then raise StructError
    else if offset + n <? 0 then raise StructError
    else fetch (offset + n)
  else fetch offset.

(** [st.unpack_from('I', buffer, offset)[0]] *)
Definition unpack_from_I (buffer : bytes) (offset : Z) : result Z :=
  s <- unpack_from_raw 4 buffer offset ;; Ok (le_decode s).

(** [st.unpack_from('i', buffer, offset)[0]] *)
Definition unpack_from_i (buffer : bytes) (offset : Z) : result Z :=
  s <- unpack_from_raw 4 buffer offset ;; Ok (to_signed 32 (le_decode s)).

(** [st.unpack_from('H', buffer, offset)[0]] *)
Definition unpack_from_H (buffer : bytes) (offset : Z) : result Z :=
  s <- unpack_from_raw 2 buffer offset ;; Ok (le_decode s).

(** [st.pack] of one unsigned field of [n] bytes: out-of-range values raise
    [struct.error]. *)
Definition pack_unsigned (n : nat) (z : Z) : result bytes :=
  if (0 <=? z) && (z <? 2 ^ (8 * Z.of_nat n)) then Ok (le_encode n z)
  else raise StructError.

(** [st.pack] of one signed field of [n] bytes. *)
Definition pack_signed (n : nat) (z : Z) : result bytes :=
  if (- 2 ^ (8 * Z.of_nat n - 1) <=? z) && (z <? 2 ^ (8 * Z.of_nat n - 1))
  then Ok (le_encode n z)
  else raise StructError.

Definition pack_I : Z -> result bytes := pack_unsigned 4.   (* 'I', 'L' *)
Definition pack_i : Z -> result bytes := pack_signed 4.     (* 'i', 'l' *)
Definition pack_H : Z -> result bytes := pack_unsigned 2.   (* 'H' *)

(** [st.pack(f"{count}B", *values)]: the number of values must match. *)
Definition pack_nB (count : Z) (values : list byte) : result bytes :=
  if len values =? count then Ok values else raise StructError.

(** ** unpack *)

(** The source's [stored - obf_key]: Python integer subtraction. *)
Definition deobfuscate (stored key : Z) : Z := stored - key.

(** The locals set by the header part of [unpack] (lines 121-162). *)
Record header : Type := mk_header {
  obf_key : Z;
  val_key : Z;
  pix_off_key : Z;
  width_key : Z;
  height_key : Z;
  width_off : Z;
  height_off : Z;
  img_width : Z;
  img_height : Z;
  img_color_depth : Z
}.

(** Lines 121-162: resource identification, bitmap dimensions, colour
    depth, with the additional validation of each. *)
Definition unpack_header (resource_data : bytes) (additional_checks : bool)
  : result header :=
  if len resource_data <? 0x458 then raise IncompleteSotESResourceError else
  obf_key <- unpack_from_I resource_data 0x448 ;;
  val_stored <- unpack_from_I resource_data 0x438 ;;
  let val_key := deobfuscate val_stored obf_key in
  pix_off_stored <- unpack_from_I resource_data 0x450 ;;
  let pix_off_key := deobfuscate pix_off_stored obf_key in
  if negb (val_key =? 10001) || (pix_off_key >? 128)
  then raise SotESResourceValidationError else
  width_stored <- unpack_from_I resource_data 0x440 ;;
  let width_key := deobfuscate width_stored obf_key in
  height_stored <- unpack_from_I resource_data 0x018 ;;
  let height_key := deobfuscate height_stored obf_key in
  let width_off := 4 * width_key + 0x004 in
  let height_off := 4 * height_key + 0x420 in
  if len resource_data <=? Z.max width_off height_off + 4
  then raise IncompleteSotESResourceError else
  w <- unpack_from_i resource_data width_off ;;
  let img_width := deobfuscate w obf_key in
  h <- unpack_from_i resource_data height_off ;;
  let img_height := deobfuscate h obf_key in
  if additional_checks && (img_width <=? 0) then raise InvalidBitmapError else
  if additional_checks && (img_height =? 0) then raise InvalidBitmapError else
  d <- unpack_from_H resource_data 0x430 ;;
  let img_color_depth := deobfuscate d (Z.land obf_key 0xFFFF) in
  if additional_checks
     && negb (existsb (Z.eqb img_color_depth) [1; 4; 8; 16; 24; 32])
  then raise InvalidBitmapError else
  Ok (mk_header obf_key val_key pix_off_key width_key height_key
        width_off height_off img_width img_height img_color_depth).

(** Lines 166-184: the colour table and the palette-colour count, with the
    strict check of the reserved bytes. *)
Definition unpack_color_table (resource_data : bytes) (img_color_depth : Z)
    (additional_checks always_include_palette : bool) : result (bytes * Z) :=
  ' (img_color_table, img_num_colors) <-
    (if img_color_depth =? 8 then Ok (slice resource_data 0x20 0x420, 0)
     else if img_color_depth =? 24 then
       if negb always_include_palette then Ok ([], 0)
       else Ok (slice resource_data 0x20 0x420, 256)
     else raise UnsupportedBitmapError) ;;
  if additional_checks
     && existsb (fun alpha_byte => negb (byte_val alpha_byte =? 0))
          (every_fourth img_color_table)
  then raise InvalidBitmapError
  else Ok (img_color_table, img_num_colors).

(** Lines 188-211: the pixel array. *)
Definition unpack_pixel_array (resource_data : bytes) (h : header) : result bytes :=
  let img_pix_off := 0x458 + pix_off_key h in
  let img_pix_size :=
    img_color_depth h / 8 * Z.abs (img_width h) * Z.abs (img_height h) in
  if len resource_data <? img_pix_off + img_pix_size
  then raise IncompleteSotESResourceError else
  let pix_row_raw_size := img_color_depth h / 8 * Z.abs (img_width h) in
  let pix_row_padding := zeros ((- pix_row_raw_size) mod 4) in
  let pix_rows :=
    map (fun pix_row_i =>
           let pix_row_off := img_pix_off + pix_row_i * pix_row_raw_size in
           slice resource_data pix_row_off (pix_row_off + pix_row_raw_size)
             ++ pix_row_padding)
        (range (Z.abs (img_height h))) in
  let pix_rows := if Z.abs (img_height h) <? 0 then rev pix_rows else pix_rows in
  Ok (concat pix_rows).

(** Lines 216-239: the two BMP headers ([<2sL2HL] and [<L2l2H2L2l2L]) and the
    final concatenation. *)
Definition unpack_build (h : header) (img_color_table : bytes)
    (img_num_colors : Z) (img_pix_array : bytes) : result bytes :=
  f_size <- pack_I (0x0E + 0x28 + len img_color_table + len img_pix_array) ;;
  f_res1 <- pack_H 0x00 ;;
  f_res2 <- pack_H 0x00 ;;
  f_off <- pack_I (0x0E + 0x28 + len img_color_table) ;;
  let bmp_header := [x42; x4d] ++ f_size ++ f_res1 ++ f_res2 ++ f_off in
  d_size <- pack_I 0x28 ;;
  d_width <- pack_i (Z.abs (img_width h)) ;;
  d_height <- pack_i (Z.abs (img_height h)) ;;
  d_planes <- pack_H 0x01 ;;
  d_depth <- pack_H (img_color_depth h) ;;
  d_compr <- pack_I 0x00 ;;
  d_pix_size <- pack_I (len img_pix_array) ;;
  d_hres <- pack_i 0x00 ;;
  d_vres <- pack_i 0x00 ;;
  d_colors <- pack_I img_num_colors ;;
  d_important <- pack_I 0x00 ;;
  let dib_header :=
    d_size ++ d_width ++ d_height ++ d_planes ++ d_depth ++ d_compr
      ++ d_pix_size ++ d_hres ++ d_vres ++ d_colors ++ d_important in
  Ok (bmp_header ++ dib_header ++ img_color_table ++ img_pix_array).

Definition unpack (resource_data : bytes)
    (additional_checks always_include_palette : bool) : result bytes :=
  h <- unpack_header resource_data additional_checks ;;
  ' (img_color_table, img_num_colors) <-
    unpack_color_table resource_data (img_color_depth h)
      additional_checks always_include_palette ;;
  img_pix_array <- unpack_pixel_array resource_data h ;;
  unpack_build h img_color_table img_num_colors img_pix_array.

(** ** pack *)

(** What [pack] observes of the image Pillow decoded: [size], [mode], and
    for mode ['P'] whether [palette.mode] is ['RGB'], [getpalette()] (the flat
    list R, G, B, R, G, B, ...) and [getdata()]; for mode ['RGB'] the pixel
    triples of [getdata()]. *)
Inductive pil_image : Type :=
| ImageP (size : Z * Z) (palette_mode_RGB : bool)
         (getpalette : list byte) (getdata : list byte)
| ImageRGB (size : Z * Z) (getdata : list (byte * byte * byte))
| ImageOther (size : Z * Z).

(** [l[i]] on a list *)
Definition index {A : Type} (l : list A) (i : Z) : result A :=
  let j := if i <? 0 then i + len l else i in
  if (j <? 0) || (len l <=? j) then raise IndexError
  else match nth_error l (Z.to_nat j) with
       | Some a => Ok a
       | None => raise IndexError
       end.

(** [range(0, n, 3)] *)
Definition range3 (n : Z) : list Z :=
  map (fun k => 3 * Z.of_nat k) (seq 0 (Z.to_nat ((n + 2) / 3))).

(** Lines 255-343 of [pack], from the decoded image on. *)
Definition pack_image (pil_img : pil_image) : result bytes :=
  ' (img_width, img_height, img_color_depth, img_palette, img_pixels) <-
    match pil_img with
    | ImageP (img_width, img_height) palette_mode_RGB pil_palette pil_pixels =>
        if negb palette_mode_RGB then raise UnsupportedBitmapError else
        if len pil_palette >? 3 * 256 then raise UnsupportedBitmapError else
        colors <-
          mapM (fun color_offset =>
                  b <- index pil_palette (color_offset + 2) ;;
                  g <- index pil_palette (color_offset + 1) ;;
                  r <- index pil_palette color_offset ;;
                  pack_nB 4 [b; g; r; x00])
               (range3 (len pil_palette)) ;;
        let img_palette := ljust (concat colors) 0x400 in
        let pil_row_size := img_width in
        img_pixel_rows <-
          mapM (fun row_index =>
                  let pil_row_offset := row_index * pil_row_size in
                  pack_nB img_width
                    (slice pil_pixels pil_row_offset (pil_row_offset + pil_row_size)))
               (range img_height) ;;
        Ok (img_width, img_height, 8, img_palette, concat (rev img_pixel_rows))
    | ImageRGB (img_width, img_height) pil_pixels =>
        let img_palette := zeros 0x400 in
        let pil_row_size := img_width in
        img_pixel_rows <-
          mapM (fun row_index =>
                  let pil_row_offset := row_index * pil_row_size in
                  img_pixel_row <-
                    mapM (fun pixel_index =>
                            ' (r, g, b) <- index pil_pixels (pil_row_offset + pixel_index) ;;
                            Ok [b; g; r])
                         (range img_width) ;;
                  pack_nB (3 * img_width) (concat img_pixel_row))
               (range img_height) ;;
        Ok (img_width, img_height, 24, img_palette, concat (rev img_pixel_rows))
    | ImageOther _ => raise UnsupportedBitmapError
    end ;;
  f_width <- pack_i img_width ;;
  f_height <- pack_i img_height ;;
  f_depth <- pack_H img_color_depth ;;
  f_val <- pack_I 10001 ;;
  Ok (zeros 0x04 ++ f_width ++ zeros 0x18 ++ img_palette ++ f_height
        ++ zeros 0x0C ++ f_depth ++ zeros 0x06 ++ f_val ++ zeros 0x1C
        ++ img_pixels).

(** [pack]: Pillow's availability and its BMP decoder are the caller's. *)
Definition pack (PIL_AVAILABLE : bool) (image_open : bytes -> option pil_image)
    (bitmap_data : bytes) : result bytes :=
  if negb PIL_AVAILABLE then raise UnsupportedFunctionError else
  match image_open bitmap_data with
  | None => raise InvalidBitmapError
  | Some pil_img => pack_image pil_img
  end.

(** ** Fixed-offset fields, as the resource layout names them *)

Definition field (size : nat) (b : bytes) (off : Z) : bytes :=
  firstn size (skipn (Z.to_nat off) b).

Definition u32le (b : bytes) (off : Z) : Z := le_decode (field 4 b off).
Definition i32le (b : bytes) (off : Z) : Z := to_signed 32 (u32le b off).
Definition u16le (b : bytes) (off : Z) : Z := le_decode (field 2 b off).

(** What a successful run of the header part establishes. *)
Record header_facts (b : bytes) (additional_checks : bool) (h : header) : Prop := {
  hf_len : 0x458 <= len b;
  hf_obf_key : obf_key h = u32le b 0x448;
  hf_val_key : val_key h = deobfuscate (u32le b 0x438) (obf_key h);
  hf_val_ok : val_key h = 10001;
  hf_pix_off_key : pix_off_key h = deobfuscate (u32le b 0x450) (obf_key h);
  hf_pix_ok : pix_off_key h <= 128;
  hf_width_key : width_key h = deobfuscate (u32le b 0x440) (obf_key h);
  hf_height_key : height_key h = deobfuscate (u32le b 0x018) (obf_key h);
  hf_width_off : width_off h = 4 * width_key h + 0x004;
  hf_height_off : height_off h = 4 * height_key h + 0x420;
  hf_dims_inside : Z.max (width_off h) (height_off h) + 4 < len b;
  hf_width : exists w, unpack_from_i b (width_off h) = Ok w
                       /\ img_width h = deobfuscate w (obf_key h);
  hf_height : exists v, unpack_from_i b (height_off h) = Ok v
                        /\ img_height h = deobfuscate v (obf_key h);
  hf_depth : img_color_depth h
             = deobfuscate (u16le b 0x430) (Z.land (obf_key h) 0xFFFF);
  hf_strict : additional_checks = true ->
              0 < img_width h /\ img_height h <> 0
              /\ In (img_color_depth h) [1; 4; 8; 16; 24; 32]
}.

(** Fixed-width wrapping, the arithmetic of the game's own 32-bit code. *)
Definition wrap (bits z : Z) : Z := z mod 2 ^ bits.

(** ** Sample resources *)

(** A resource in the canonical layout whose obfuscated fields are stored as
    the game stores them: value plus key, truncated to the field's width.
    Both index fields and the pixel-offset field hold index 0. *)
Definition keyed_resource (key width height depth : Z) (table pixels : bytes)
  : bytes :=
  zeros 0x04 ++ le_encode 4 (width + key) ++ zeros 0x10
    ++ le_encode 4 key ++ zeros 0x04
    ++ table
    ++ le_encode 4 (height + key) ++ zeros 0x0C
    ++ le_encode 2 (depth + key) ++ zeros 0x06
    ++ le_encode 4 (10001 + key) ++ zeros 0x04
    ++ le_encode 4 key ++ zeros 0x04
    ++ le_encode 4 key ++ zeros 0x04
    ++ le_encode 4 key ++ zeros 0x04
    ++ pixels.

(** [b] with the bytes [v] written over it at offset [off]. *)
Definition poke (b : bytes) (off : Z) (v : bytes) : bytes :=
  firstn (Z.to_nat off) b ++ v ++ skipn (Z.to_nat (off + len v)) b.

Definition sample_pixels : bytes := map byte_of (range 16).

(** 4x4, 8 bits per pixel, key 0x1000. *)
Definition sample_keyed : bytes :=
  keyed_resource 0x1000 4 4 8 (zeros 0x400) sample_pixels.

(** The same image under a key whose addition wraps every 32-bit field. *)
Definition sample_wrapped_key : bytes :=
  keyed_resource 0xFFFFFFFC 4 4 8 (zeros 0x400) sample_pixels.

(** [sample_keyed] with the width-index field set to 0, below the key. *)
Definition sample_low_width_index : bytes :=
  poke sample_keyed 0x440 (le_encode 4 0).

(** [sample_keyed] with the pixel-offset field set to 0, below the key. *)
Definition sample_low_pixel_offset : bytes :=
  poke sample_keyed 0x450 (le_encode 4 0).

(** Key 0, depth 16. *)
Definition sample_depth16 : bytes :=
  keyed_resource 0 4 4 16 (zeros 0x400) (zeros 32).

(** Key 0, 8 bits per pixel, the reserved byte of palette entry 0 set. *)
Definition sample_reserved : bytes :=
  poke (keyed_resource 0 4 4 8 (zeros 0x400) sample_pixels) 0x23 [x01].

(** Key 0, width -2^31, height 0, and a reserved byte set. *)
Definition sample_wide : bytes :=
  poke (keyed_resource 0 (- 2 ^ 31) 0 8 (zeros 0x400) []) 0x23 [x01].

(** Negative height: 4 wide, -2 high, 8 bits per pixel. *)
Definition sample_negative_height : bytes :=
  keyed_resource 0 4 (-2) 8 (zeros 0x400) (map byte_of (range 8)).

(** Images for [pack]. *)
Definition sample_short_palette_image : pil_image :=
  ImageP (4, 4) true [x01; x02; x03] (repeat x00 16).

Definition full_palette : list byte :=
  concat (map (fun k => [byte_of k; byte_of (k + 1); byte_of (k + 2)]) (range 256)).

Definition sample_full_palette_image : pil_image :=
  ImageP (4, 4) true full_palette sample_pixels.

Definition sample_rgb_image : pil_image :=
  ImageRGB (4, 4)
    (map (fun k => (byte_of k, byte_of (k + 100), byte_of (k + 200))) (range 16)).

(** The bitmap file laid out field by field, little-endian throughout. *)
Definition bmp_file (width height depth num_colors : Z) (table pixels : bytes)
  : bytes :=
  ([x42; x4d] ++ le_encode 4 (14 + 40 + len table + len pixels)
     ++ le_encode 2 0 ++ le_encode 2 0
     ++ le_encode 4 (14 + 40 + len table))
  ++ (le_encode 4 40 ++ le_encode 4 width ++ le_encode 4 height
        ++ le_encode 2 1 ++ le_encode 2 depth ++ le_encode 4 0
        ++ le_encode 4 (len pixels) ++ le_encode 4 0 ++ le_encode 4 0
        ++ le_encode 4 num_colors ++ le_encode 4 0)
  ++ table ++ pixels.

(** The reserved positions of a colour table: the last byte of each 4-byte
    entry. *)
Definition reserved_nonzero (table : bytes) : Prop :=
  exists (k : nat) (x : byte), nth_error table (4 * k + 3) = Some x /\ x <> x00.

(** Every check of a lenient run passes: the three stages before the
    assembly of the bitmap succeed. *)
Definition structural_checks_pass (b : bytes) (aip : bool) : Prop :=
  exists (h : header) (T : bytes) (n : Z) (P : bytes),
    unpack_header b false = Ok h
    /\ unpack_color_table b (img_color_depth h) false aip = Ok (T, n)
    /\ unpack_pixel_array b h = Ok P.

(** The canonical container of [pack], field by field. *)
Definition canonical_layout (width height depth : Z) (table pixels : bytes)
  : bytes :=
  zeros 0x04 ++ le_encode 4 width ++ zeros 0x18 ++ table
    ++ le_encode 4 height ++ zeros 0x0C ++ le_encode 2 depth ++ zeros 0x06
    ++ le_encode 4 10001 ++ zeros 0x1C ++ pixels.

Definition image_size (img : pil_image) : Z * Z :=
  match img with
  | ImageP size _ _ _ => size
  | ImageRGB size _ => size
  | ImageOther size => size
  end.

Definition image_depth (img : pil_image) : Z :=
  match img with
  | ImageP _ _ _ _ => 8
  | ImageRGB _ _ => 24
  | ImageOther _ => 0
  end.

(** A buffer [pack] returned, for the samples. *)
Definition packed (img : pil_image) : bytes :=
  match pack_image img with
  | Ok b => b
  | Err _ => []
  end.

(** The image as a bitmap stores it: palette entries as blue, green, red,
    0; rows of one byte per pixel, or of blue, green, red per pixel; bottom
    row first. *)
Definition palette_table (pil_palette : list byte) : bytes :=
  concat (map (fun o => [nth (Z.to_nat (o + 2)) pil_palette x00;
                         nth (Z.to_nat (o + 1)) pil_palette x00;
                         nth (Z.to_nat o) pil_palette x00;
                         x00])
              (range3 (len pil_palette))).

Definition index_rows (w h : Z) (pix : list byte) : list bytes :=
  map (fun i => field (Z.to_nat w) pix (i * w)) (range h).

Definition rgb_rows (w h : Z) (pix : list (byte * byte * byte)) : list bytes :=
  map (fun i =>
         concat (map (fun j =>
                        let '(r, g, b) :=
                          nth (Z.to_nat (i * w + j)) pix (x00, x00, x00) in
                        [b; g; r])
                     (range w)))
      (range h).

Definition bottom_up (rows : list bytes) : bytes := concat (rev rows).

(** The colour table and the pixel array [pack] stores for an image. *)
Definition image_table (img : pil_image) : bytes :=
  match img with
  | ImageP _ _ pil_palette _ => ljust (palette_table pil_palette) 0x400
  | ImageRGB _ _ => zeros 0x400
  | ImageOther _ => []
  end.

Definition image_pixels (img : pil_image) : bytes :=
  match img with
  | ImageP (w, h) _ _ pix => bottom_up (index_rows w h pix)
  | ImageRGB (w, h) pix => bottom_up (rgb_rows w h pix)
  | ImageOther _ => []
  end.

(** The rows of a pixel array: [rows] chunks of [raw] bytes from offset
    [off] on, each followed by the zero bytes that pad it to a multiple of
    four. *)
Definition padded_rows (b : bytes) (off raw rows : Z) : list bytes :=
  map (fun i => field (Z.to_nat raw) b (off + i * raw) ++ zeros ((- raw) mod 4))
      (range rows).

(** The exception classes of lines 30-63: the five kinds [unpack] and
    [pack] raise derive from [UnpackerError], which is what the command-line
    driver catches (cli.py, line 732); [struct.error] and [IndexError] do
    not. *)
Definition is_UnpackerError (e : error) : bool :=
  match e with
  | IncompleteSotESResourceError
  | SotESResourceValidationError
  | InvalidBitmapError
  | UnsupportedBitmapError
  | UnsupportedFunctionError => true
  | StructError | IndexError => false
  end.

(** Key 0, 24 bits per pixel, 4x4, junk in the palette area with zero
    reserved bytes. *)
Definition sample_depth24 : bytes :=
  keyed_resource 0 4 4 24
    (concat (repeat [x07; x08; x09; x00] 256)) (map byte_of (range 48)).

(** The images Pillow hands to [pack] that [pack] is written for: mode P
    with an RGB palette of at most 256 colours, or mode RGB, with
    [getdata()] holding one entry per pixel and sizes that fit 31 bits. *)
Definition well_formed_image (img : pil_image) : Prop :=
  match img with
  | ImageP (w, h) palette_mode_RGB pal pix =>
      palette_mode_RGB = true
      /\ len pal mod 3 = 0 /\ len pal <= 3 * 256
      /\ 0 <= w < 2 ^ 31 /\ 0 <= h < 2 ^ 31 /\ len pix = w * h
  | ImageRGB (w, h) pix =>
      0 <= w < 2 ^ 31 /\ 0 <= h < 2 ^ 31 /\ len pix = w * h
  | ImageOther _ => False
  end.

(** The images [pack] refuses as unsupported. *)
Definition unsupported_image (img : pil_image) : Prop :=
  match img with
  | ImageP _ palette_mode_RGB pal _ =>
      palette_mode_RGB = false \/ 3 * 256 < len pal
  | ImageRGB _ _ => False
  | ImageOther _ => True
  end.

(** The images whose colour table [pack] fills without padding: mode RGB,
    and mode P with all 256 colours. *)
Definition full_table (img : pil_image) : Prop :=
  match img with
  | ImageP _ _ pal _ => len pal = 3 * 256
  | ImageRGB _ _ => True
  | ImageOther _ => False
  end.

(** ** cli.py: planning and running the batch *)

(** [class Action(enum.IntEnum)]: [UNPACK = 1, ".bmp"], [PACK = 2, ".bin"]. *)
Inductive Action : Type := UNPACK | PACK.

(** What the driver asks of the operating system. A [host] fixes the types
    of paths, of file-system states and of [OSError]s, and the outcome of
    [exists()], [read_bytes()] and [write_bytes()] in a state; nothing is
    assumed about them. [output_file_of] is the path the driver derives
    from an input file, the output directory and the action's extension
    with [with_suffix]. *)
Record host : Type := mk_host {
  path : Type;
  path_eq_dec : forall p q : path, {p = q} + {p <> q};
  fs : Type;
  os_error : Type;
  os_error_eq_dec : forall e f : os_error, {e = f} + {e <> f};
  path_exists : fs -> path -> os_error + bool;
  read_bytes : fs -> path -> os_error + bytes;
  write_bytes : fs -> path -> bytes -> os_error + fs;
  output_file_of : path -> path
}.

(** A [dict] whose values are [set]s, as [d.setdefault(k, set()).add(v)]
    and [sum(len(_) for _ in d.values())] use it. *)
Fixpoint dict_add {K V : Type} (K_dec : forall a b : K, {a = b} + {a <> b})
    (V_dec : forall a b : V, {a = b} + {a <> b})
    (k : K) (v : V) (d : list (K * list V)) : list (K * list V) :=
  match d with
  | [] => [(k, [v])]
  | (k', vs) :: r =>
      if K_dec k k' then (k', set_add V_dec v vs) :: r
      else (k', vs) :: dict_add K_dec V_dec k v r
  end.

Definition dict_count {K V : Type} (d : list (K * list V)) : nat :=
  fold_right (fun kv acc => (length (snd kv) + acc)%nat) 0%nat d.

(** Every member of every set of the dictionary. *)
Definition dict_values {K V : Type} (d : list (K * list V)) : list V :=
  concat (map snd d).

(** What the validation of the input paths asks of the operating system,
    beside the [host]: [resolve()], [is_file()], [is_dir()], and [iterdir()]
    as the paths it yields and the [OSError] that ends it, if any. *)
Record walker (H : host) : Type := mk_walker {
  resolve : fs H -> path H -> os_error H + path H;
  is_file : fs H -> path H -> os_error H + bool;
  is_dir : fs H -> path H -> os_error H + bool;
  iterdir : fs H -> path H -> list (path H) * option (os_error H)
}.
Arguments resolve {H} _ _ _.
Arguments is_file {H} _ _ _.
Arguments is_dir {H} _ _ _.
Arguments iterdir {H} _ _ _.

(** The keys of [input_errors] (lines 446-463). *)
Inductive input_message (H : host) : Type :=
| InputOSMessage (e : os_error H)
| NotFileOrDirectory   (* Input path is not a file or directory: *)
| InvalidInputPath.    (* Input path is invalid or does not exist: *)
Arguments InputOSMessage {H} e.
Arguments NotFileOrDirectory {H}.
Arguments InvalidInputPath {H}.

Definition input_message_eq_dec (H : host) (a b : input_message H)
  : {a = b} + {a <> b}.
Proof. decide equality. apply (os_error_eq_dec H). Defined.

Record input_state (H : host) : Type := mk_input_state {
  input_files : list (path H);
  seen_files : list (path H);
  input_errors : list (input_message H * list (path H))
}.
Arguments mk_input_state {H} _ _ _.
Arguments input_files {H} _.
Arguments seen_files {H} _.
Arguments input_errors {H} _.

(** Lines 431-433 and 442-444: a file is appended unless it was seen. *)
Definition add_input_file (H : host) (st : input_state H) (file : path H)
  : input_state H :=
  if in_dec (path_eq_dec H) file (seen_files st) then st
  else mk_input_state (input_files st ++ [file])
         (set_add (path_eq_dec H) file (seen_files st)) (input_errors st).

Definition add_input_error (H : host) (st : input_state H)
    (m : input_message H) (p : path H) : input_state H :=
  mk_input_state (input_files st) (seen_files st)
    (dict_add (input_message_eq_dec H) (path_eq_dec H) m p (input_errors st)).

(** Lines 437-451: one entry of a directory. *)
Definition validate_sub_path (H : host) (W : walker H) (s : fs H)
    (st : input_state H) (sub_path : path H) : input_state H :=
  match is_file W s sub_path with
  | inl e => add_input_error H st (InputOSMessage e) sub_path
  | inr false => st
  | inr true =>
      match resolve W s sub_path with
      | inl e => add_input_error H st (InputOSMessage e) sub_path
      | inr sub_path' => add_input_file H st sub_path'
      end
  end.

(** Lines 426-465: one input path. *)
Definition validate_path (H : host) (W : walker H) (s : fs H)
    (st : input_state H) (input_path : path H) : input_state H :=
  match resolve W s input_path with
  | inl e => add_input_error H st (InputOSMessage e) input_path
  | inr input_path' =>
      match is_file W s input_path' with
      | inl e => add_input_error H st (InputOSMessage e) input_path'
      | inr true => add_input_file H st input_path'
      | inr false =>
          match is_dir W s input_path' with
          | inl e => add_input_error H st (InputOSMessage e) input_path'
          | inr true =>
              let (sub_paths, failure) := iterdir W s input_path' in
              let st' := fold_left (validate_sub_path H W s) sub_paths st in
              match failure with
              | Some e => add_input_error H st' (InputOSMessage e) input_path'
              | None => st'
              end
          | inr false =>
              match path_exists H s input_path' with
              | inl e => add_input_error H st (InputOSMessage e) input_path'
              | inr true => add_input_error H st NotFileOrDirectory input_path'
              | inr false => add_input_error H st InvalidInputPath input_path'
              end
          end
      end
  end.

(** Lines 421-465: the input files, from the paths received. *)
Definition validate_paths (H : host) (W : walker H) (s : fs H)
    (input_paths : list (path H)) : input_state H :=
  fold_left (validate_path H W s) input_paths (mk_input_state [] [] []).

(** What one received path contributes to the input files: its resolved
    form when that is a file; otherwise, when that is a directory, the
    resolved form of every entry [iterdir()] yields that is a file. *)
Definition listed_by {H : host} (W : walker H) (s : fs H)
    (input_path f : path H) : Prop :=
  exists d,
    resolve W s input_path = inr d
    /\ ((is_file W s d = inr true /\ f = d)
        \/ (is_file W s d = inr false /\ is_dir W s d = inr true
            /\ exists sub_path,
                 In sub_path (fst (iterdir W s d))
                 /\ is_file W s sub_path = inr true
                 /\ resolve W s sub_path = inr f)).

(** What holds of the input files throughout the validation: none is
    listed twice, [seen_files] holds exactly them, and they are exactly the
    files [contributed] so far. *)
Definition validated {H : host} (contributed : path H -> Prop)
    (st : input_state H) : Prop :=
  NoDup (input_files st)
  /\ (forall f, In f (seen_files st) <-> In f (input_files st))
  /\ (forall f, In f (input_files st) <-> contributed f).

(** The three messages of the queueing step (lines 637, 644, 648). *)
Inductive queue_message : Type :=
| SameDestination     (* A file with the same destination is already queued. *)
| AlreadyExists       (* A file already exists at this file's destination. *)
| CannotValidate.     (* Could not validate this file's destination. *)

Definition queue_message_eq_dec (a b : queue_message) : {a = b} + {a <> b}.
Proof. decide equality. Defined.

Record plan_state (H : host) : Type := mk_plan_state {
  file_queue : list (path H * path H);
  seen_output_files : list (path H);
  queue_errors : list (queue_message * list (path H))
}.
Arguments mk_plan_state {H} _ _ _.
Arguments file_queue {H} _.
Arguments seen_output_files {H} _.
Arguments queue_errors {H} _.

(** One turn of the loop of lines 628-653. *)
Definition plan_step (H : host) (opt_overwrite : bool) (s : fs H)
    (st : plan_state H) (input_file : path H) : plan_state H :=
  let output_file := output_file_of H input_file in
  let refuse (m : queue_message) :=
    mk_plan_state (file_queue st) (seen_output_files st)
      (dict_add queue_message_eq_dec (path_eq_dec H) m input_file
         (queue_errors st)) in
  let enqueue :=
    mk_plan_state (file_queue st ++ [(input_file, output_file)])
      (set_add (path_eq_dec H) output_file (seen_output_files st))
      (queue_errors st) in
  if in_dec (path_eq_dec H) output_file (seen_output_files st)
  then refuse SameDestination
  else if negb opt_overwrite then
    match path_exists H s output_file with
    | inr true => refuse AlreadyExists
    | inr false => enqueue
    | inl _ => refuse CannotValidate
    end
  else enqueue.

(** Lines 624-653: the queue, from the validated input files. *)
Definition plan_queue (H : host) (opt_overwrite : bool) (s : fs H)
    (input_files : list (path H)) : plan_state H :=
  fold_left (plan_step H opt_overwrite s) input_files
    (mk_plan_state [] [] []).

(** The keys of [parse_errors] (lines 733, 738, 741-744): the message of an
    Un/Packer error, of an existing target, of an [OSError]. *)
Inductive parse_message (H : host) : Type :=
| UnpackerMessage (e : error)
| TargetExists
| OSMessage (e : os_error H).
Arguments UnpackerMessage {H} e.
Arguments TargetExists {H}.
Arguments OSMessage {H} e.

Definition error_eq_dec (a b : error) : {a = b} + {a <> b}.
Proof. decide equality. Defined.

Definition parse_message_eq_dec (H : host) (a b : parse_message H)
  : {a = b} + {a <> b}.
Proof.
  decide equality; [apply error_eq_dec | apply (os_error_eq_dec H)].
Defined.

Definition pair_eq_dec (H : host) (a b : path H * path H) : {a = b} + {a <> b}.
Proof. decide equality; apply (path_eq_dec H). Defined.

(** The exceptions that leave the main loop: nothing there catches the
    [ZeroDivisionError] of the progress computation, nor an exception of the
    codec that is not an [UnpackerError]. *)
Inductive loop_exit : Type :=
| ZeroDivisionError
| Uncaught (e : error).

(** Line 749: [30 * input_index // (len(file_queue) - 1)]. *)
Definition progress (input_index queue_len : Z) : option Z :=
  if queue_len - 1 =? 0 then None
  else Some (30 * input_index / (queue_len - 1)).

(** Line 752: [("#" * progress).ljust(30, " ")], one byte per character. *)
Definition progress_bar (progress : Z) : bytes :=
  ljust (repeat x23 (Z.to_nat progress)) 30.

(** Lines 727-731: the conversion the action selects, with the codec's
    default flags. *)
Definition convert (action : Action) (PIL_AVAILABLE : bool)
    (image_open : bytes -> option pil_image) (data : bytes) : result bytes :=
  match action with
  | UNPACK => unpack data true false
  | PACK => pack PIL_AVAILABLE image_open data
  end.

Record run_state (H : host) : Type := mk_run_state {
  run_fs : fs H;
  parsed_files : list (path H * path H);
  parse_errors : list (parse_message H * list (path H * path H));
  last_update : Z;
  printed : list Z
}.
Arguments mk_run_state {H} _ _ _ _ _.
Arguments run_fs {H} _.
Arguments parsed_files {H} _.
Arguments parse_errors {H} _.
Arguments last_update {H} _.
Arguments printed {H} _.

(** Lines 724-746: the [try] statement of one turn of the main loop. *)
Definition process_file (H : host) (action : Action) (PIL_AVAILABLE : bool)
    (image_open : bytes -> option pil_image) (opt_overwrite : bool)
    (st : run_state H) (input_file output_file : path H)
  : loop_exit + run_state H :=
  let failed (m : parse_message H) :=
    inr (mk_run_state (run_fs st) (parsed_files st)
           (dict_add (parse_message_eq_dec H) (pair_eq_dec H) m
              (input_file, output_file) (parse_errors st))
           (last_update st) (printed st)) in
  let go : os_error H + bool :=
    if opt_overwrite then inr true
    else match path_exists H (run_fs st) output_file with
         | inl e => inl e
         | inr b => inr (negb b)
         end in
  match go with
  | inl e => failed (OSMessage e)
  | inr false => failed TargetExists
  | inr true =>
      match read_bytes H (run_fs st) input_file with
      | inl e => failed (OSMessage e)
      | inr data =>
          match convert action PIL_AVAILABLE image_open data with
          | Err e =>
              if is_UnpackerError e then failed (UnpackerMessage e)
              else inl (Uncaught e)
          | Ok out =>
              match write_bytes H (run_fs st) output_file out with
              | inl e => failed (OSMessage e)
              | inr s' =>
                  inr (mk_run_state s'
                         (set_add (pair_eq_dec H) (input_file, output_file)
                            (parsed_files st))
                         (parse_errors st) (last_update st) (printed st))
              end
          end
      end
  end.

(** Lines 748-752: the progress line of one turn. *)
Definition print_status (H : host) (input_index queue_len : Z) (st : run_state H)
  : loop_exit + run_state H :=
  match progress input_index queue_len with
  | None => inl ZeroDivisionError
  | Some p =>
      if p >? last_update st
      then inr (mk_run_state (run_fs st) (parsed_files st) (parse_errors st)
                  p (printed st ++ [p]))
      else inr st
  end.

(** Lines 723-752: the main loop over [enumerate(file_queue)], from turn
    [input_index] on. *)
Fixpoint run_from (H : host) (action : Action) (PIL_AVAILABLE : bool)
    (image_open : bytes -> option pil_image) (opt_overwrite : bool)
    (queue_len : Z) (rest : list (path H * path H)) (input_index : Z)
    (st : run_state H) : loop_exit + run_state H :=
  match rest with
  | [] => inr st
  | (input_file, output_file) :: rest' =>
      match process_file H action PIL_AVAILABLE image_open opt_overwrite st
              input_file output_file with
      | inl x => inl x
      | inr st1 =>
          match print_status H input_index queue_len st1 with
          | inl x => inl x
          | inr st2 =>
              run_from H action PIL_AVAILABLE image_open opt_overwrite
                queue_len rest' (input_index + 1) st2
          end
      end
  end.

Definition run_queue (H : host) (action : Action) (PIL_AVAILABLE : bool)
    (image_open : bytes -> option pil_image) (opt_overwrite : bool)
    (s : fs H) (file_queue : list (path H * path H))
  : loop_exit + run_state H :=
  run_from H action PIL_AVAILABLE image_open opt_overwrite
    (len file_queue) file_queue 0 (mk_run_state s [] [] (-1) []).

(** The main loop together with what it leaves behind: the exception that
    leaves it, if any, and the state at that moment. An exception of the
    conversion is raised before anything is written or recorded for the
    file; the division of line 749 is evaluated after the [try] statement of
    the turn, before [last_update] changes and before the line is printed. *)
Fixpoint run_from_state (H : host) (action : Action) (PIL_AVAILABLE : bool)
    (image_open : bytes -> option pil_image) (opt_overwrite : bool)
    (queue_len : Z) (rest : list (path H * path H)) (input_index : Z)
    (st : run_state H) : option loop_exit * run_state H :=
  match rest with
  | [] => (None, st)
  | (input_file, output_file) :: rest' =>
      match process_file H action PIL_AVAILABLE image_open opt_overwrite st
              input_file output_file with
      | inl x => (Some x, st)
      | inr st1 =>
          match print_status H input_index queue_len st1 with
          | inl x => (Some x, st1)
          | inr st2 =>
              run_from_state H action PIL_AVAILABLE image_open opt_overwrite
                queue_len rest' (input_index + 1) st2
          end
      end
  end.

Definition run_queue_state (H : host) (action : Action) (PIL_AVAILABLE : bool)
    (image_open : bytes -> option pil_image) (opt_overwrite : bool)
    (s : fs H) (file_queue : list (path H * path H))
  : option loop_exit * run_state H :=
  run_from_state H action PIL_AVAILABLE image_open opt_overwrite
    (len file_queue) file_queue 0 (mk_run_state s [] [] (-1) []).

(** The bookkeeping of the main loop after the files [done]: each of them
    is in [parsed_files] or under a message of [parse_errors], not both. *)
Definition accounted {H : host} (done : list (path H * path H))
    (st : run_state H) : Prop :=
  (length (parsed_files st) + dict_count (parse_errors st) = length done)%nat
  /\ (forall p, In p (parsed_files st) -> In p done)
  /\ (forall p, In p (dict_values (parse_errors st)) -> In p done)
  /\ (forall p, In p (parsed_files st) ->
                ~ In p (dict_values (parse_errors st))).

(** The progress line when turn [input_index] starts: [last_update] is the
    progress value of the turn before, and the values printed so far rise
    from 0 to it. *)
Definition drawn {H : host} (queue_len input_index : Z) (st : run_state H)
  : Prop :=
  last_update st
  = (if input_index =? 0 then -1
     else 30 * (input_index - 1) / (queue_len - 1))
  /\ StronglySorted Z.lt (printed st)
  /\ Forall (fun p => 0 <= p <= last_update st) (printed st)
  /\ (input_index = 0 -> printed st = [])
  /\ (0 < input_index ->
      hd_error (printed st) = Some 0
      /\ last (printed st) 0 = last_update st).

Definition unit_eq_dec (a b : unit) : {a = b} + {a <> b}.
Proof. decide equality. Defined.

(** A host for the examples: paths are numbers, a state lists the files
    with their contents, reading a file that is not listed is the only
    error, and the destination of path [p] is [p + 100]. *)
Definition sample_host : host :=
  mk_host nat Nat.eq_dec (list (nat * bytes)) unit unit_eq_dec
    (fun s p => inr (existsb (fun e => Nat.eqb (fst e) p) s))
    (fun s p =>
       match find (fun e => Nat.eqb (fst e) p) s with
       | Some e => inr (snd e)
       | None => inl tt
       end)
    (fun s p data => inr ((p, data) :: s))
    (fun p => (p + 100)%nat).

(** Three files: a resource [unpack] accepts, one on which it raises
    [struct.error], an empty one; and an existing destination. *)
Definition sample_fs : fs sample_host :=
  [(0%nat, sample_keyed); (1%nat, sample_low_width_index); (2%nat, []);
   (102%nat, [])].

(** The state in which the main loop ends on the first and the third
    sample file, without overwriting. *)
Definition sample_final_state : run_state sample_host :=
  Eval vm_compute in
    match run_queue sample_host UNPACK true (fun _ => None) false sample_fs
            [(0, 100); (2, 102)]%nat with
    | inr st => st
    | inl _ => mk_run_state sample_fs [] [] (-1) []
    end.

(** ** sotes_sprites.py *)

(** How a call in this script ends when it does not return: the
    [Exception] of line 23, the [ZeroDivisionError] of the [%] of line 21, or
    an exception of [struct] or of an index. *)
Inductive sprite_error : Type :=
| CannotFigureOut
| DivisionByZero
| Raised (e : error).

Definition sprite_bind {A B : Type} (c : sprite_error + A)
    (k : A -> sprite_error + B) : sprite_error + B :=
  match c with
  | inl e => inl e
  | inr a => k a
  end.

Notation "x <~ c ;; k" := (sprite_bind c (fun x => k))
  (at level 61, c at next level, right associativity).
Notation "' p <~ c ;; k" :=
  (sprite_bind c (fun x => match x with p => k end))
  (at level 61, p pattern, c at next level, right associativity).

Definition lift {A : Type} (r : result A) : sprite_error + A :=
  match r with
  | Ok a => inr a
  | Err e => inl (Raised e)
  end.

(** A [for] loop whose body may raise, threading the state. *)
Fixpoint for_each {A S : Type} (body : S -> A -> sprite_error + S)
    (l : list A) (s : S) : sprite_error + S :=
  match l with
  | [] => inr s
  | a :: l' => s' <~ body s a ;; for_each body l' s'
  end.

(** Lines 17-22: the inner loop of [guess_image_dimension]; [None] when it
    ends without returning. *)
Fixpoint guess_deltas (base main_delta : Z) (additional_deltas : list Z)
    (pixels_size : Z) : option (sprite_error + Z) :=
  match additional_deltas with
  | [] => None
  | delta :: additional_deltas' =>
      let possible_dimension := base + delta + main_delta in
      if possible_dimension <? 0
      then guess_deltas base main_delta additional_deltas' pixels_size
      else if possible_dimension =? 0 then Some (inl DivisionByZero)
      else if pixels_size mod possible_dimension =? 0
      then Some (inr possible_dimension)
      else guess_deltas base main_delta additional_deltas' pixels_size
  end.

(** Lines 10-23. *)
Fixpoint guess_image_dimension (dimension_candidates : list Z) (main_delta : Z)
    (additional_deltas : list Z) (pixels_size : Z) : sprite_error + Z :=
  match dimension_candidates with
  | [] => inl CannotFigureOut
  | base :: dimension_candidates' =>
      match guess_deltas base main_delta additional_deltas pixels_size with
      | Some r => r
      | None =>
          guess_image_dimension dimension_candidates' main_delta
            additional_deltas pixels_size
      end
  end.

(** [struct.unpack] with [count] codes of [size] bytes each ([8I], [14I],
    [BBBB]) on a little-endian host: the data must have the size of the
    format. *)
Definition unpack_fields (size count : nat) (data : bytes)
  : sprite_error + list Z :=
  if len data =? Z.of_nat (size * count)
  then inr (map (fun k => le_decode (field size data (Z.of_nat (size * k))))
              (seq 0 count))
  else inl (Raised StructError).

(** A colour as the script hands it to Pillow, and the pixel access object
    of [img.load()]: [pixels x y] is [pixels[x, y]]. *)
Definition color : Type := (Z * Z * Z)%type.
Definition canvas : Type := Z -> Z -> color.

(** [Image.new('RGB', (width, height), 'black')] *)
Definition black : canvas := fun _ _ => (0, 0, 0).

(** [pixels[x, y] = c] *)
Definition put (pixels : canvas) (x y : Z) (c : color) : canvas :=
  fun x' y' => if (x' =? x) && (y' =? y) then c else pixels x' y'.

(** Lines 61-70: the three values read for the pixel at [x], [y]. *)
Definition read_pixel (use_palette : bool) (palette : list (list Z))
    (pixel_data : bytes) (width x y : Z) : sprite_error + color :=
  let channels := if use_palette then 1 else 3 in
  let index_ := (y * width + x) * channels in
  if use_palette then
    i <~ lift (index pixel_data index_) ;;
    let entry := nth (Z.to_nat (byte_val i)) palette [] in
    inr (nth 0 entry 0, nth 1 entry 0, nth 2 entry 0)
  else
    r <~ lift (index pixel_data index_) ;;
    g <~ lift (index pixel_data (index_ + 1)) ;;
    b <~ lift (index pixel_data (index_ + 2)) ;;
    inr (byte_val r, byte_val g, byte_val b).

(** Lines 50-53: the 256 palette entries, each a tuple of four values. *)
Definition read_palette (file_data : bytes) : sprite_error + list (list Z) :=
  let palette_offset := 32 in
  for_each
    (fun palette i =>
       entry <~
         unpack_fields 1 4
           (slice file_data (palette_offset + i * 4)
              (palette_offset + i * 4 + 4)) ;;
       inr (palette ++ [entry]))
    (range 256) [].

(** Lines 57-71: the image, filled pixel by pixel. *)
Definition draw_pixels (use_palette : bool) (palette : list (list Z))
    (pixel_data : bytes) (width height : Z) : sprite_error + canvas :=
  for_each
    (fun pixels y =>
       for_each
         (fun pixels x =>
            ' (r, g, b) <~
              read_pixel use_palette palette pixel_data width x y ;;
            inr (put pixels x (height - 1 - y) (b, g, r)))
         (range width) pixels)
    (range height) black.

(** Lines 27-71 of [extract_image], on the bytes [f.read()] returned: the
    size and the pixels of the image that line 72 then saves. The tuples
    [weird_data] and [weird_data2] have 8 and 14 entries, so that the
    constant indices never fail. *)
Definition extract_image (file_data : bytes)
  : sprite_error + (Z * Z * canvas) :=
  weird_data <~ unpack_fields 4 8 (slice file_data 0 32) ;;
  weird_data2 <~
    unpack_fields 4 14
      (slice file_data (32 + 256 * 4) (32 + 256 * 4 + 56)) ;;
  let pixel_data_offset := 56 + nth 12 weird_data2 0 - nth 10 weird_data2 0 in
  let pixel_data :=
    slice file_data (32 + 256 * 4 + pixel_data_offset) (len file_data) in
  width <~
    guess_image_dimension (slice weird_data 1 5) (- nth 6 weird_data 0)
      [0; 1; 2; 3] (len pixel_data) ;;
  height <~
    guess_image_dimension (slice weird_data2 0 5) (- nth 10 weird_data2 0)
      [0] (len pixel_data) ;;
  let use_palette := negb (width * height * 3 =? len pixel_data) in
  palette <~ (if use_palette then read_palette file_data else inr []) ;;
  pixels <~ draw_pixels use_palette palette pixel_data width height ;;
  inr (width, height, pixels).

(** The colour [extract_image] gives the pixel in column [x] of row [y] of
    the pixel data, in file order: through the palette of the file, or from
    the three bytes of the pixel. *)
Definition stored_color (file_data pixel_data : bytes) (use_palette : bool)
    (width x y : Z) : color :=
  if use_palette then
    let i := byte_val (nth (Z.to_nat (y * width + x)) pixel_data x00) in
    (byte_val (nth (Z.to_nat (32 + i * 4) + 2) file_data x00),
     byte_val (nth (Z.to_nat (32 + i * 4) + 1) file_data x00),
     byte_val (nth (Z.to_nat (32 + i * 4) + 0) file_data x00))
  else
    let o := (y * width + x) * 3 in
    (byte_val (nth (Z.to_nat (o + 2)) pixel_data x00),
     byte_val (nth (Z.to_nat (o + 1)) pixel_data x00),
     byte_val (nth (Z.to_nat o) pixel_data x00)).

(** The colour of the pixel in column [x] of row [y], from the top, of an
    image: for mode P the palette colour of its index, which for an index
    past the palette is the fill byte of the colour table. *)
Definition pixel_color (img : pil_image) (x y : Z) : color :=
  match img with
  | ImageP (w, h) _ pal pix =>
      let k := Z.to_nat (byte_val (nth (Z.to_nat (y * w + x)) pix x00)) in
      if Z.of_nat k <? len pal / 3
      then (byte_val (nth (3 * k) pal x00),
            byte_val (nth (3 * k + 1) pal x00),
            byte_val (nth (3 * k + 2) pal x00))
      else (0x20, 0x20, 0x20)
  | ImageRGB (w, h) pix =>
      let '(r, g, b) := nth (Z.to_nat (y * w + x)) pix (x00, x00, x00) in
      (byte_val r, byte_val g, byte_val b)
  | ImageOther _ => (0, 0, 0)
  end.

(** Case analysis on the next conditional of the goal or a hypothesis. *)
Ltac branch E := match goal with
  | |- context [if ?c then _ else _] => destruct c eqn:E
  | H : context [if ?c then _ else _] |- _ => destruct c eqn:E
  end.

(** * Properties *)

(** ** Bytes and little-endian fields *)

Lemma byte_val_range (x : byte) : 0 <= byte_val x < 256.
Proof.
  unfold byte_val. pose proof (Byte.to_N_bounded x). lia.
Qed.

Lemma byte_of_val (x : byte) : byte_of (byte_val x) = x.
Proof.
  unfold byte_of. pose proof (byte_val_range x) as R.
  rewrite Z.mod_small by exact R.
  unfold byte_val. rewrite N2Z.id, Byte.of_to_N. reflexivity.
Qed.

Lemma byte_val_of (z : Z) : byte_val (byte_of z) = z mod 256.
Proof.
  unfold byte_of, byte_val.
  pose proof (Z.mod_pos_bound z 256 ltac:(lia)) as R.
  destruct (Byte.of_N (Z.to_N (z mod 256))) as [x|] eqn:E.
  - apply Byte.to_of_N in E. rewrite E. lia.
  - apply Byte.of_N_None_iff in E. lia.
Qed.

Lemma len_nonneg {A : Type} (l : list A) : 0 <= len l.
Proof. unfold len. lia. Qed.

Lemma len_app {A : Type} (l1 l2 : list A) : len (l1 ++ l2) = len l1 + len l2.
Proof. unfold len. rewrite length_app. lia. Qed.

Lemma len_zeros (n : Z) : 0 <= n -> len (zeros n) = n.
Proof. intros H. unfold len, zeros. rewrite repeat_length. lia. Qed.

Lemma length_le_encode (n : nat) (z : Z) : length (le_encode n z) = n.
Proof. revert z. induction n as [|n IH]; intros z; simpl; [|rewrite IH]; reflexivity. Qed.

Lemma le_decode_encode (n : nat) (z : Z) :
  le_decode (le_encode n z) = z mod 2 ^ (8 * Z.of_nat n).
Proof.
  revert z. induction n as [|n IH]; intros z.
  - simpl. rewrite Z.mod_1_r. reflexivity.
  - cbn [le_encode le_decode]. rewrite byte_val_of, IH.
    replace (8 * Z.of_nat (S n)) with (8 + 8 * Z.of_nat n) by lia.
    rewrite Z.pow_add_r by lia. change (2 ^ 8) with 256.
    rewrite Z.rem_mul_r by lia. reflexivity.
Qed.

Lemma le_decode_range (s : bytes) : 0 <= le_decode s < 2 ^ (8 * len s).
Proof.
  induction s as [|x r IH].
  - simpl. lia.
  - cbn [le_decode]. pose proof (byte_val_range x).
    replace (8 * len (x :: r)) with (8 + 8 * len r) by (unfold len; simpl length; lia).
    rewrite Z.pow_add_r by (pose proof (len_nonneg r); lia).
    change (2 ^ 8) with 256. nia.
Qed.

Lemma to_signed_wrap32 (z : Z) :
  - 2 ^ 31 <= z < 2 ^ 31 -> to_signed 32 (z mod 2 ^ 32) = z.
Proof.
  intros H. unfold to_signed. change (32 - 1) with 31.
  destruct (Z_lt_dec z 0) as [Hn|Hn].
  - replace (z mod 2 ^ 32) with (z + 2 ^ 32).
    + destruct (z + 2 ^ 32 <? 2 ^ 31) eqn:E; lia.
    + rewrite <- (Z.mod_small (z + 2 ^ 32) (2 ^ 32)) at 1 by lia.
      rewrite <- Z.add_mod_idemp_r, Z.mod_same, Z.add_0_r by lia. reflexivity.
  - rewrite Z.mod_small by lia.
    destruct (z <? 2 ^ 31) eqn:E; lia.
Qed.

(** ** unpack_from inside the buffer *)

Lemma unpack_from_raw_inside (size : nat) (b : bytes) (off : Z) :
  0 <= off -> off + Z.of_nat size <= len b ->
  unpack_from_raw (Z.of_nat size) b off = Ok (field size b off).
Proof.
  intros H0 H1. unfold unpack_from_raw, field.
  destruct (off <? 0) eqn:E; [lia|].
  destruct (len b - off <? Z.of_nat size) eqn:E'; [lia|].
  rewrite Nat2Z.id. reflexivity.
Qed.

Lemma unpack_from_I_inside (b : bytes) (off : Z) :
  0 <= off -> off + 4 <= len b -> unpack_from_I b off = Ok (u32le b off).
Proof.
  intros H0 H1. unfold unpack_from_I.
  change 4 with (Z.of_nat 4). rewrite unpack_from_raw_inside by (simpl; lia).
  reflexivity.
Qed.

Lemma unpack_from_i_inside (b : bytes) (off : Z) :
  0 <= off -> off + 4 <= len b -> unpack_from_i b off = Ok (i32le b off).
Proof.
  intros H0 H1. unfold unpack_from_i.
  change 4 with (Z.of_nat 4). rewrite unpack_from_raw_inside by (simpl; lia).
  reflexivity.
Qed.

Lemma unpack_from_H_inside (b : bytes) (off : Z) :
  0 <= off -> off + 2 <= len b -> unpack_from_H b off = Ok (u16le b off).
Proof.
  intros H0 H1. unfold unpack_from_H.
  change 2 with (Z.of_nat 2). rewrite unpack_from_raw_inside by (simpl; lia).
  reflexivity.
Qed.

(** ** The header part of [unpack] *)

Lemma unpack_header_fixed_reads (b : bytes) :
  0x458 <= len b ->
  unpack_from_I b 0x448 = Ok (u32le b 0x448) /\
  unpack_from_I b 0x438 = Ok (u32le b 0x438) /\
  unpack_from_I b 0x450 = Ok (u32le b 0x450) /\
  unpack_from_I b 0x440 = Ok (u32le b 0x440) /\
  unpack_from_I b 0x018 = Ok (u32le b 0x018) /\
  unpack_from_H b 0x430 = Ok (u16le b 0x430).
Proof.
  intros H. repeat split;
    first [apply unpack_from_I_inside | apply unpack_from_H_inside]; lia.
Qed.

Lemma unpack_header_inv (b : bytes) (ac : bool) (h : header) :
  unpack_header b ac = Ok h -> header_facts b ac h.
Proof.
  unfold unpack_header. intros H.
  branch E0; [discriminate|]. apply Z.ltb_ge in E0.
  destruct (unpack_header_fixed_reads b E0) as (R1 & R2 & R3 & R4 & R5 & R6).
  rewrite R1, R2, R3, R4, R5, R6 in H. cbn [bind] in H.
  branch E1; [discriminate|].
  branch E2; [discriminate|].
  destruct (unpack_from_i b (4 * deobfuscate (u32le b 0x440) (u32le b 0x448) + 0x004))
    as [w|] eqn:Ew; [|discriminate].
  destruct (unpack_from_i b (4 * deobfuscate (u32le b 0x018) (u32le b 0x448) + 0x420))
    as [v|] eqn:Ev; [|discriminate].
  cbn [bind] in H.
  branch E3; [discriminate|].
  branch E4; [discriminate|].
  branch E5; [discriminate|].
  injection H as <-.
  apply orb_false_iff in E1 as [E1a E1b].
  apply negb_false_iff, Z.eqb_eq in E1a.
  apply Z.leb_gt in E2.
  assert (E1c : deobfuscate (u32le b 0x450) (u32le b 0x448) <= 128) by lia.
  constructor; try reflexivity; try assumption.
  - exists w. split; [exact Ew | reflexivity].
  - exists v. split; [exact Ev | reflexivity].
  - intros ->. cbn [andb] in E3, E4, E5.
    apply negb_false_iff in E5.
    apply existsb_exists in E5 as (d & Hd & Hd'). apply Z.eqb_eq in Hd'. subst d.
    cbn [img_width img_height img_color_depth].
    repeat split; [lia | lia | exact Hd].
Qed.

Lemma unpack_header_ok (b : bytes) (ac : bool) :
  let key := u32le b 0x448 in
  let woff := 4 * deobfuscate (u32le b 0x440) key + 0x004 in
  let hoff := 4 * deobfuscate (u32le b 0x018) key + 0x420 in
  let w := deobfuscate (i32le b woff) key in
  let h := deobfuscate (i32le b hoff) key in
  let d := deobfuscate (u16le b 0x430) (Z.land key 0xFFFF) in
  0x458 <= len b ->
  deobfuscate (u32le b 0x438) key = 10001 ->
  deobfuscate (u32le b 0x450) key <= 128 ->
  0 <= woff -> 0 <= hoff ->
  Z.max woff hoff + 4 < len b ->
  (ac = true -> 0 < w /\ h <> 0 /\ In d [1; 4; 8; 16; 24; 32]) ->
  unpack_header b ac =
  Ok (mk_header key (deobfuscate (u32le b 0x438) key)
        (deobfuscate (u32le b 0x450) key)
        (deobfuscate (u32le b 0x440) key) (deobfuscate (u32le b 0x018) key)
        woff hoff w h d).
Proof.
  intros key woff hoff w h d H0 Hv Hp Hw Hh Hm Hs.
  subst key woff hoff w h d. unfold unpack_header.
  branch E0; [lia|].
  destruct (unpack_header_fixed_reads b H0) as (R1 & R2 & R3 & R4 & R5 & R6).
  rewrite R1, R2, R3, R4, R5, R6. cbn [bind]. rewrite Hv.
  change (10001 =? 10001) with true. cbn [negb orb].
  branch E1; [lia|].
  branch E2; [lia|].
  rewrite !unpack_from_i_inside by lia. cbn [bind].
  destruct ac; cbn [andb]; [|reflexivity].
  destruct (Hs eq_refl) as (Sw & Sh & Sd).
  branch E3; [lia|].
  branch E4; [lia|].
  branch E5; [|reflexivity].
  apply negb_true_iff in E5.
  assert (E6 : existsb
                 (Z.eqb (deobfuscate (u16le b 0x430) (Z.land (u32le b 0x448) 0xFFFF)))
                 [1; 4; 8; 16; 24; 32] = true).
  { apply existsb_exists. eexists. split; [exact Sd | apply Z.eqb_refl]. }
  rewrite E6 in E5. discriminate.
Qed.

Lemma unpack_header_lenient (b : bytes) :
  let key := u32le b 0x448 in
  let woff := 4 * deobfuscate (u32le b 0x440) key + 0x004 in
  let hoff := 4 * deobfuscate (u32le b 0x018) key + 0x420 in
  0x458 <= len b ->
  deobfuscate (u32le b 0x438) key = 10001 ->
  deobfuscate (u32le b 0x450) key <= 128 ->
  0 <= woff -> 0 <= hoff ->
  Z.max woff hoff + 4 < len b ->
  unpack_header b false =
  Ok (mk_header key (deobfuscate (u32le b 0x438) key)
        (deobfuscate (u32le b 0x450) key)
        (deobfuscate (u32le b 0x440) key) (deobfuscate (u32le b 0x018) key)
        woff hoff
        (deobfuscate (i32le b woff) key) (deobfuscate (i32le b hoff) key)
        (deobfuscate (u16le b 0x430) (Z.land key 0xFFFF))).
Proof.
  intros key woff hoff H0 Hv Hp Hw Hh Hm.
  apply unpack_header_ok; try assumption. discriminate.
Qed.

(** ** Identification errors *)

Lemma unpack_not_identified (b : bytes) (ac aip : bool) :
  0x458 <= len b ->
  deobfuscate (u32le b 0x438) (u32le b 0x448) <> 10001
  \/ deobfuscate (u32le b 0x450) (u32le b 0x448) > 128 ->
  unpack b ac aip = Err SotESResourceValidationError.
Proof.
  intros H Hbad. unfold unpack, unpack_header.
  branch E0; [lia|].
  destruct (unpack_header_fixed_reads b H) as (R1 & R2 & R3 & _).
  rewrite R1, R2, R3. cbn [bind].
  branch E1; [reflexivity|].
  apply orb_false_iff in E1 as [E1a E1b].
  apply negb_false_iff, Z.eqb_eq in E1a. lia.
Qed.

(** The validation constant is rejected under the wrapping reading of the
    subtraction as well: a difference that is not 10001 modulo 2^32 is not
    10001. *)
Lemma unpack_validation_wrapped (b : bytes) (ac aip : bool) :
  0x458 <= len b ->
  wrap 32 (u32le b 0x438 - u32le b 0x448) <> 10001 ->
  unpack b ac aip = Err SotESResourceValidationError.
Proof.
  intros H Hw. apply unpack_not_identified; [exact H|].
  left. unfold deobfuscate. intros E. apply Hw. rewrite E. reflexivity.
Qed.

(** Identification with the differences as the source computes them,
    without wrapping: a buffer shorter than 0x458 bytes fails with the
    Incomplete error; a buffer of at least 0x458 bytes whose validation
    field minus the key is not 10001, or whose pixel-offset field minus the
    key exceeds 128, fails with the Validation error. This holds for both
    settings of both flags. *)
Theorem unpack_identification_errors (b : bytes) (ac aip : bool) :
  (len b < 0x458 -> unpack b ac aip = Err IncompleteSotESResourceError) /\
  (0x458 <= len b ->
   deobfuscate (u32le b 0x438) (u32le b 0x448) <> 10001
   \/ deobfuscate (u32le b 0x450) (u32le b 0x448) > 128 ->
   unpack b ac aip = Err SotESResourceValidationError).
Proof.
  split.
  - intros H. unfold unpack, unpack_header.
    branch E; [reflexivity | lia].
  - apply unpack_not_identified.
Qed.

Lemma unpack_identification_errors_witness :
  unpack (zeros 16) true false = Err IncompleteSotESResourceError
  /\ unpack (zeros 0x458) true false = Err SotESResourceValidationError
  /\ unpack (poke sample_keyed 0x450 (le_encode 4 0x1081)) true false
     = Err SotESResourceValidationError.
Proof.
  split; [|split].
  - apply (proj1 (unpack_identification_errors (zeros 16) true false)).
    vm_compute. reflexivity.
  - apply (proj2 (unpack_identification_errors (zeros 0x458) true false)).
    + vm_compute. discriminate.
    + left. vm_compute. discriminate.
  - apply (proj2 (unpack_identification_errors
                    (poke sample_keyed 0x450 (le_encode 4 0x1081)) true false)).
    + vm_compute. discriminate.
    + right. vm_compute. reflexivity.
Defined.

(** C3 on [sample_low_pixel_offset], a buffer of 0x468 bytes under the key
    0x1000 whose pixel-offset field (0x450) holds 0. De-obfuscated modulo
    2^32, as the format defines it, the validation constant is 10001 and
    the pixel-offset key is 2^32 - 0x1000 = 4294963200, which exceeds 128.
    The source's difference is -0x1000, the test of line 130 lets it
    through, and [unpack] returns a bitmap under every setting of the flags
    where the Validation error is due. *)
Theorem unpack_identification_offset_underflow :
  0x458 <= len sample_low_pixel_offset
  /\ wrap 32 (u32le sample_low_pixel_offset 0x438
              - u32le sample_low_pixel_offset 0x448) = 10001
  /\ wrap 32 (u32le sample_low_pixel_offset 0x450
              - u32le sample_low_pixel_offset 0x448) = 4294963200
  /\ wrap 32 (u32le sample_low_pixel_offset 0x450
              - u32le sample_low_pixel_offset 0x448) > 128
  /\ deobfuscate (u32le sample_low_pixel_offset 0x450)
       (u32le sample_low_pixel_offset 0x448) = - 0x1000
  /\ (forall ac aip,
        unpack sample_low_pixel_offset ac aip
        = Ok (bmp_file 4 4 8 0 (zeros 0x400) []))
  /\ (forall ac aip,
        unpack sample_low_pixel_offset ac aip
        <> Err SotESResourceValidationError).
Proof.
  assert (R : forall ac aip,
            unpack sample_low_pixel_offset ac aip
            = Ok (bmp_file 4 4 8 0 (zeros 0x400) [])).
  { intros [|] [|]; vm_compute; reflexivity. }
  split; [vm_compute; discriminate|].
  split; [vm_compute; reflexivity|].
  split; [vm_compute; reflexivity|].
  split; [vm_compute; reflexivity|].
  split; [vm_compute; reflexivity|].
  split; [exact R|].
  intros ac aip. rewrite R. discriminate.
Qed.

(** ** The colour-table stage *)

Lemma unpack_color_table_flag (b : bytes) (d : Z) (ac : bool) :
  d <> 24 ->
  unpack_color_table b d ac true = unpack_color_table b d ac false.
Proof.
  intros H. unfold unpack_color_table.
  destruct (d =? 8) eqn:E8; [reflexivity|].
  destruct (d =? 24) eqn:E24; [lia | reflexivity].
Qed.




(** The palette flag is consulted for depth 24 only. *)
Lemma unpack_palette_flag_irrelevant (b : bytes) (ac : bool) :
  (forall h, unpack_header b ac = Ok h -> img_color_depth h <> 24) ->
  unpack b ac true = unpack b ac false.
Proof.
  intros H. unfold unpack.
  destruct (unpack_header b ac) as [h|e] eqn:Eh; [|reflexivity].
  cbn [bind]. rewrite unpack_color_table_flag by (apply H; reflexivity).
  reflexivity.
Qed.

(** C10. For a buffer whose de-obfuscated colour depth (field at 0x430
    minus the low 16 bits of the key) is 8, and for each setting of the
    strict flag, [unpack] returns the same result, bytes or error, whether
    the always-include-palette flag is set or not. *)
Theorem unpack_palette_flag_depth8 (b : bytes) (ac : bool) :
  deobfuscate (u16le b 0x430) (Z.land (u32le b 0x448) 0xFFFF) = 8 ->
  unpack b ac true = unpack b ac false.
Proof.
  intros H8. apply unpack_palette_flag_irrelevant.
  intros h Hh. apply unpack_header_inv in Hh.
  rewrite (hf_depth _ _ _ Hh), (hf_obf_key _ _ _ Hh), H8. discriminate.
Qed.

Lemma unpack_palette_flag_depth8_witness :
  unpack sample_keyed true true = unpack sample_keyed true false
  /\ unpack sample_reserved false true = unpack sample_reserved false false.
Proof.
  split.
  - apply (unpack_palette_flag_depth8 sample_keyed true).
    vm_compute. reflexivity.
  - apply (unpack_palette_flag_depth8 sample_reserved false).
    vm_compute. reflexivity.
Defined.

(** ** The assembled bitmap *)

Lemma pack_unsigned_inv (n : nat) (z : Z) (s : bytes) :
  pack_unsigned n z = Ok s ->
  s = le_encode n z /\ 0 <= z < 2 ^ (8 * Z.of_nat n).
Proof.
  unfold pack_unsigned. intros H. branch E; [|discriminate].
  injection H as <-. apply andb_true_iff in E as [E1 E2].
  split; [reflexivity | lia].
Qed.

Lemma pack_signed_inv (n : nat) (z : Z) (s : bytes) :
  pack_signed n z = Ok s ->
  s = le_encode n z
  /\ - 2 ^ (8 * Z.of_nat n - 1) <= z < 2 ^ (8 * Z.of_nat n - 1).
Proof.
  unfold pack_signed. intros H. branch E; [|discriminate].
  injection H as <-. apply andb_true_iff in E as [E1 E2].
  split; [reflexivity | lia].
Qed.

Lemma pack_unsigned_ok (n : nat) (z : Z) :
  0 <= z < 2 ^ (8 * Z.of_nat n) -> pack_unsigned n z = Ok (le_encode n z).
Proof.
  intros H. unfold pack_unsigned.
  destruct (0 <=? z) eqn:E1; [|lia].
  destruct (z <? 2 ^ (8 * Z.of_nat n)) eqn:E2; [reflexivity | lia].
Qed.

Lemma pack_signed_ok (n : nat) (z : Z) :
  - 2 ^ (8 * Z.of_nat n - 1) <= z < 2 ^ (8 * Z.of_nat n - 1) ->
  pack_signed n z = Ok (le_encode n z).
Proof.
  intros H. unfold pack_signed.
  destruct (- 2 ^ (8 * Z.of_nat n - 1) <=? z) eqn:E1; [|lia].
  destruct (z <? 2 ^ (8 * Z.of_nat n - 1)) eqn:E2; [reflexivity | lia].
Qed.

Lemma unpack_build_inv (h : header) (T : bytes) (n : Z) (P out : bytes) :
  unpack_build h T n P = Ok out ->
  out = bmp_file (Z.abs (img_width h)) (Z.abs (img_height h))
          (img_color_depth h) n T P
  /\ 14 + 40 + len T + len P < 2 ^ 32
  /\ Z.abs (img_width h) < 2 ^ 31
  /\ Z.abs (img_height h) < 2 ^ 31
  /\ 0 <= img_color_depth h < 2 ^ 16
  /\ 0 <= n < 2 ^ 32.
Proof.
  unfold unpack_build, pack_I, pack_i, pack_H. intros H.
  repeat match type of H with
  | bind ?c _ = Ok _ =>
      let s := fresh "s" in let E := fresh "E" in
      destruct c as [s|] eqn:E; [cbn [bind] in H | discriminate]
  end.
  injection H as <-.
  repeat match goal with
  | E : pack_unsigned _ _ = Ok _ |- _ => apply pack_unsigned_inv in E as [-> ?]
  | E : pack_signed _ _ = Ok _ |- _ => apply pack_signed_inv in E as [-> ?]
  end.
  change (8 * Z.of_nat 4 - 1) with 31 in *.
  change (8 * Z.of_nat 4) with 32 in *.
  change (8 * Z.of_nat 2) with 16 in *.
  split; [reflexivity|]. lia.
Qed.

Lemma unpack_build_ok (h : header) (T : bytes) (n : Z) (P : bytes) :
  14 + 40 + len T + len P < 2 ^ 32 ->
  Z.abs (img_width h) < 2 ^ 31 ->
  Z.abs (img_height h) < 2 ^ 31 ->
  0 <= img_color_depth h < 2 ^ 16 ->
  0 <= n < 2 ^ 32 ->
  unpack_build h T n P
  = Ok (bmp_file (Z.abs (img_width h)) (Z.abs (img_height h))
          (img_color_depth h) n T P).
Proof.
  intros Hs Hw Hh Hd Hn. unfold unpack_build, pack_I, pack_i, pack_H.
  pose proof (len_nonneg T). pose proof (len_nonneg P).
  rewrite !pack_unsigned_ok, !pack_signed_ok;
    change (8 * Z.of_nat 4 - 1) with 31;
    change (8 * Z.of_nat 4) with 32;
    change (8 * Z.of_nat 2) with 16; try lia.
  reflexivity.
Qed.

(** C8. Every successful decode returns the 14-byte file header ("BM",
    total size, two zero reserved fields, pixel-array offset), the 40-byte
    info header (40, |width|, |height|, planes 1, depth, compression 0,
    image size, zero resolutions, the palette-colour count of the
    colour-table stage, zero important colours), the colour table and the
    pixel array, in that order, every field little-endian and within the
    range of its width. *)
Theorem unpack_output_layout (b : bytes) (ac aip : bool) (out : bytes) :
  unpack b ac aip = Ok out ->
  exists (h : header) (T : bytes) (n : Z) (P : bytes),
    unpack_header b ac = Ok h
    /\ unpack_color_table b (img_color_depth h) ac aip = Ok (T, n)
    /\ unpack_pixel_array b h = Ok P
    /\ out =
       ([x42; x4d] ++ le_encode 4 (14 + 40 + len T + len P)
          ++ le_encode 2 0 ++ le_encode 2 0
          ++ le_encode 4 (14 + 40 + len T))
       ++ (le_encode 4 40 ++ le_encode 4 (Z.abs (img_width h))
             ++ le_encode 4 (Z.abs (img_height h))
             ++ le_encode 2 1 ++ le_encode 2 (img_color_depth h)
             ++ le_encode 4 0 ++ le_encode 4 (len P)
             ++ le_encode 4 0 ++ le_encode 4 0
             ++ le_encode 4 n ++ le_encode 4 0)
       ++ T ++ P
    /\ 14 + 40 + len T + len P < 2 ^ 32
    /\ Z.abs (img_width h) < 2 ^ 31
    /\ Z.abs (img_height h) < 2 ^ 31
    /\ 0 <= img_color_depth h < 2 ^ 16
    /\ 0 <= n < 2 ^ 32.
Proof.
  unfold unpack. intros H.
  destruct (unpack_header b ac) as [h|] eqn:Eh; [|discriminate].
  cbn [bind] in H.
  destruct (unpack_color_table b (img_color_depth h) ac aip) as [[T n]|] eqn:Et;
    [|discriminate].
  cbn [bind] in H.
  destruct (unpack_pixel_array b h) as [P|] eqn:Ep; [|discriminate].
  cbn [bind] in H.
  apply unpack_build_inv in H.
  destruct H as (-> & H1 & H2 & H3 & H4 & H5).
  exists h, T, n, P.
  split; [reflexivity|]. split; [exact Et|]. split; [exact Ep|].
  split; [reflexivity|].
  split; [exact H1|]. split; [exact H2|]. split; [exact H3|].
  split; [exact H4 | exact H5].
Qed.

Lemma unpack_output_layout_witness :
  exists (h : header) (T : bytes) (n : Z) (P : bytes),
    unpack_header sample_keyed true = Ok h
    /\ unpack_color_table sample_keyed (img_color_depth h) true false = Ok (T, n)
    /\ unpack_pixel_array sample_keyed h = Ok P
    /\ bmp_file 4 4 8 0 (zeros 0x400) sample_pixels =
       ([x42; x4d] ++ le_encode 4 (14 + 40 + len T + len P)
          ++ le_encode 2 0 ++ le_encode 2 0
          ++ le_encode 4 (14 + 40 + len T))
       ++ (le_encode 4 40 ++ le_encode 4 (Z.abs (img_width h))
             ++ le_encode 4 (Z.abs (img_height h))
             ++ le_encode 2 1 ++ le_encode 2 (img_color_depth h)
             ++ le_encode 4 0 ++ le_encode 4 (len P)
             ++ le_encode 4 0 ++ le_encode 4 0
             ++ le_encode 4 n ++ le_encode 4 0)
       ++ T ++ P
    /\ 14 + 40 + len T + len P < 2 ^ 32
    /\ Z.abs (img_width h) < 2 ^ 31
    /\ Z.abs (img_height h) < 2 ^ 31
    /\ 0 <= img_color_depth h < 2 ^ 16
    /\ 0 <= n < 2 ^ 32.
Proof.
  apply (unpack_output_layout sample_keyed true false).
  vm_compute. reflexivity.
Defined.

(** ** Strict and lenient runs *)

Lemma unpack_header_strict (b : bytes) (h : header) :
  unpack_header b false = Ok h ->
  unpack_header b true = Ok h \/ unpack_header b true = Err InvalidBitmapError.
Proof.
  unfold unpack_header.
  branch E0; [discriminate|]. apply Z.ltb_ge in E0.
  destruct (unpack_header_fixed_reads b E0) as (R1 & R2 & R3 & R4 & R5 & R6).
  rewrite R1, R2, R3, R4, R5, R6. cbn [bind].
  branch E1; [discriminate|].
  branch E2; [discriminate|].
  destruct (unpack_from_i b _) as [w|]; [|discriminate].
  destruct (unpack_from_i b _) as [v|]; [|discriminate].
  cbn [bind andb]. intros H.
  branch E3; [right; reflexivity|].
  branch E4; [right; reflexivity|].
  branch E5; [right; reflexivity|].
  left. exact H.
Qed.

Lemma every_fourth_reserved {A : Type} (l : list A) (k : nat) (x : A) :
  nth_error l (4 * k + 3) = Some x -> In x (every_fourth l).
Proof.
  revert l. induction k as [|k IH]; intros l H.
  - destruct l as [|a [|a' [|a'' [|d r]]]]; try discriminate.
    injection H as ->. left. reflexivity.
  - replace (4 * S k + 3)%nat with (S (S (S (S (4 * k + 3))))) in H by lia.
    destruct l as [|a [|a' [|a'' [|d r]]]]; try discriminate.
    right. apply IH. exact H.
Qed.

Lemma unpack_color_table_strict (b : bytes) (d : Z) (aip : bool) (T : bytes) (n : Z) :
  unpack_color_table b d false aip = Ok (T, n) ->
  reserved_nonzero T ->
  unpack_color_table b d true aip = Err InvalidBitmapError.
Proof.
  unfold unpack_color_table. intros H (k & x & Hk & Hx).
  destruct (if d =? 8 then _ else _) as [[T' n']|]; [|discriminate].
  cbn [bind andb] in *. injection H as -> ->.
  replace (existsb _ (every_fourth T)) with true; [reflexivity|].
  symmetry. apply existsb_exists. exists x. split.
  - eapply every_fourth_reserved. exact Hk.
  - apply negb_true_iff, Z.eqb_neq. intros Hz. apply Hx.
    rewrite <- (byte_of_val x), Hz. reflexivity.
Qed.

Lemma unpack_color_table_range (b : bytes) (d : Z) (ac aip : bool) (T : bytes) (n : Z) :
  unpack_color_table b d ac aip = Ok (T, n) ->
  (d = 8 \/ d = 24) /\ (n = 0 \/ n = 256).
Proof.
  unfold unpack_color_table. intros H.
  destruct (d =? 8) eqn:E8.
  - cbn [bind] in H. branch E; [discriminate|]. injection H as <- <-. lia.
  - destruct (d =? 24) eqn:E24; [|discriminate].
    destruct aip; cbn [negb bind] in H;
      (branch E; [discriminate|]); injection H as <- <-; lia.
Qed.

(** C7, as amended. When a lenient run selects a colour table with a
    non-zero byte at a reserved position, the strict run of the same buffer
    fails with InvalidBitmap; the lenient run does not look at these bytes
    and returns the bitmap whenever its pixel-array check passes too and the
    header fields are representable: |width| and |height| below 2^31 and the
    file size below 2^32. *)
Theorem unpack_reserved_bytes (b : bytes) (aip : bool) (h : header)
    (T : bytes) (n : Z) :
  unpack_header b false = Ok h ->
  unpack_color_table b (img_color_depth h) false aip = Ok (T, n) ->
  reserved_nonzero T ->
  unpack b true aip = Err InvalidBitmapError
  /\ (forall P : bytes,
        unpack_pixel_array b h = Ok P ->
        Z.abs (img_width h) < 2 ^ 31 ->
        Z.abs (img_height h) < 2 ^ 31 ->
        14 + 40 + len T + len P < 2 ^ 32 ->
        unpack b false aip
        = Ok (bmp_file (Z.abs (img_width h)) (Z.abs (img_height h))
                (img_color_depth h) n T P)).
Proof.
  intros Hh Ht Hr. split.
  - unfold unpack.
    destruct (unpack_header_strict b h Hh) as [-> | ->]; [|reflexivity].
    cbn [bind]. rewrite (unpack_color_table_strict _ _ _ _ _ Ht Hr). reflexivity.
  - intros P Hp Hw Hv Hs. unfold unpack. rewrite Hh. cbn [bind].
    rewrite Ht. cbn [bind]. rewrite Hp. cbn [bind].
    destruct (unpack_color_table_range _ _ _ _ _ _ Ht) as [Hd Hn].
    apply unpack_build_ok; lia.
Qed.

Lemma unpack_reserved_bytes_witness :
  unpack sample_reserved true false = Err InvalidBitmapError
  /\ unpack sample_reserved false false
     = Ok (bmp_file 4 4 8 0 (poke (zeros 0x400) 3 [x01]) sample_pixels).
Proof.
  assert (Hh : unpack_header sample_reserved false
               = Ok (mk_header 0 10001 0 0 0 4 0x420 4 4 8))
    by (vm_compute; reflexivity).
  assert (Ht : unpack_color_table sample_reserved 8 false false
               = Ok (poke (zeros 0x400) 3 [x01], 0))
    by (vm_compute; reflexivity).
  assert (Hr : reserved_nonzero (poke (zeros 0x400) 3 [x01])).
  { exists 0%nat, x01. split; [reflexivity | discriminate]. }
  pose proof (unpack_reserved_bytes sample_reserved false _ _ _ Hh Ht Hr) as [S L].
  split; [exact S|].
  apply (L sample_pixels); vm_compute; reflexivity.
Defined.

(** C7, as stated, fails: every check of the lenient run passes on
    [sample_wide], whose colour table has a non-zero reserved byte, and the
    lenient run still does not succeed, because |width| = 2^31 does not fit
    the signed 32-bit width field of the info header. *)
Lemma unpack_lenient_not_always_success :
  structural_checks_pass sample_wide false
  /\ (exists T n, unpack_color_table sample_wide 8 false false = Ok (T, n)
                  /\ reserved_nonzero T)
  /\ unpack sample_wide true false = Err InvalidBitmapError
  /\ unpack sample_wide false false = Err StructError.
Proof.
  split; [|split; [|split]].
  - exists (mk_header 0 10001 0 0 0 4 0x420 (- 2 ^ 31) 0 8),
      (poke (zeros 0x400) 3 [x01]), 0, [].
    split; [|split]; vm_compute; reflexivity.
  - exists (poke (zeros 0x400) 3 [x01]), 0. split.
    + vm_compute. reflexivity.
    + exists 0%nat, x01. split; [reflexivity | discriminate].
  - vm_compute. reflexivity.
  - vm_compute. reflexivity.
Qed.

(** ** Slices and the pixel-array stage *)

Lemma slice_inside {A : Type} (l : list A) (i j : Z) :
  0 <= i <= j -> j <= len l ->
  slice l i j = firstn (Z.to_nat (j - i)) (skipn (Z.to_nat i) l).
Proof.
  intros Hi Hj. unfold slice, clamp_index.
  destruct (i <? 0) eqn:Ei; [lia|].
  destruct (j <? 0) eqn:Ej; [lia|].
  rewrite !Z.min_l by lia. reflexivity.
Qed.

Lemma length_chunk {A : Type} (l : list A) (i n : nat) :
  (i + n <= length l)%nat -> length (firstn n (skipn i l)) = n.
Proof.
  intros H. rewrite length_firstn, length_skipn. lia.
Qed.

Lemma in_range (n i : Z) : In i (range n) <-> 0 <= i < n.
Proof.
  unfold range. rewrite in_map_iff. split.
  - intros (k & <- & Hk). apply in_seq in Hk. lia.
  - intros H. exists (Z.to_nat i). split; [lia|]. apply in_seq. lia.
Qed.

(** With a start offset inside the buffer, and the depth the colour-table
    stage lets through, the pixel array is the rows read one after the
    other, each of exactly [depth/8 * |width|] bytes and padded with zero bytes
    to a multiple of four; the order is the buffer's whatever the sign of the
    height. *)
Lemma unpack_pixel_array_rows (b : bytes) (h : header) (P : bytes) :
  img_color_depth h = 8 \/ img_color_depth h = 24 ->
  0 <= 0x458 + pix_off_key h ->
  unpack_pixel_array b h = Ok P ->
  let off := 0x458 + pix_off_key h in
  let raw := img_color_depth h / 8 * Z.abs (img_width h) in
  let pad := (- raw) mod 4 in
  P = concat (map (fun i => field (Z.to_nat raw) b (off + i * raw) ++ zeros pad)
                  (range (Z.abs (img_height h))))
  /\ (forall i, 0 <= i < Z.abs (img_height h) ->
                len (field (Z.to_nat raw) b (off + i * raw)) = raw)
  /\ 0 <= pad < 4 /\ (raw + pad) mod 4 = 0.
Proof.
  intros Hd Hoff H off raw pad. unfold unpack_pixel_array in H.
  fold off raw in H.
  assert (Hraw : 0 <= raw).
  { unfold raw. destruct Hd as [-> | ->];
      [change (8 / 8) with 1 | change (24 / 8) with 3]; lia. }
  branch E; [discriminate|]. apply Z.ltb_ge in E.
  destruct (Z.abs (img_height h) <? 0) eqn:En; [lia|].
  injection H as <-.
  assert (Hrow : forall i, 0 <= i < Z.abs (img_height h) ->
                           off + i * raw + raw <= len b).
  { intros i Hi. replace (raw * Z.abs (img_height h))
      with (Z.abs (img_height h) * raw) in E by lia. nia. }
  split; [|split; [|split]].
  - f_equal. apply map_ext_in. intros i Hi. apply in_range in Hi.
    specialize (Hrow i Hi).
    rewrite slice_inside by nia. unfold field. fold pad.
    replace (off + i * raw + raw - (off + i * raw)) with raw by lia.
    reflexivity.
  - intros i Hi. specialize (Hrow i Hi). unfold field, len.
    rewrite length_chunk; unfold len in Hrow; nia.
  - unfold pad. apply (Z.mod_pos_bound (- raw) 4). lia.
  - unfold pad. rewrite Z.add_mod_idemp_r by lia.
    replace (raw + - raw) with 0 by lia. reflexivity.
Qed.

(** The rows stay in buffer order when the decoded height is negative. *)
Example unpack_negative_height_order :
  unpack sample_negative_height false false
  = Ok (bmp_file 4 2 8 0 (zeros 0x400) (map byte_of (range 8))).
Proof. vm_compute. reflexivity. Qed.

(** C5 on [sample_low_pixel_offset], whose pixel-offset field (0) is below
    the key (0x1000). The subtraction yields -0x1000, which passes the
    [> 128] test, the buffer reaches the pixel-array stage with the start
    offset 0x458 - 0x1000 < 0, every row slice is empty, and the bitmap
    announces 4x4 pixels with an empty pixel array. The same image with the
    field equal to the key decodes to its 16 pixel bytes. *)
Theorem unpack_pixel_array_negative_offset :
  (exists h, unpack_header sample_low_pixel_offset true = Ok h
             /\ pix_off_key h = - 0x1000
             /\ img_width h = 4 /\ img_height h = 4 /\ img_color_depth h = 8
             /\ unpack_pixel_array sample_low_pixel_offset h = Ok [])
  /\ unpack sample_low_pixel_offset true false
     = Ok (bmp_file 4 4 8 0 (zeros 0x400) [])
  /\ unpack sample_keyed true false
     = Ok (bmp_file 4 4 8 0 (zeros 0x400) sample_pixels).
Proof.
  split; [|split].
  - exists (mk_header 0x1000 10001 (- 0x1000) 0 0 4 0x420 4 4 8).
    repeat (split; [vm_compute; reflexivity|]). vm_compute. reflexivity.
  - vm_compute. reflexivity.
  - vm_compute. reflexivity.
Qed.

(** ** Width and height *)

(** The bounds check on the two indirect offsets. *)
Lemma unpack_dims_incomplete (b : bytes) (ac aip : bool) :
  let key := u32le b 0x448 in
  let woff := 4 * deobfuscate (u32le b 0x440) key + 0x004 in
  let hoff := 4 * deobfuscate (u32le b 0x018) key + 0x420 in
  0x458 <= len b ->
  deobfuscate (u32le b 0x438) key = 10001 ->
  deobfuscate (u32le b 0x450) key <= 128 ->
  len b <= Z.max woff hoff + 4 ->
  unpack b ac aip = Err IncompleteSotESResourceError.
Proof.
  intros key woff hoff H0 Hv Hp Hm. subst key woff hoff.
  unfold unpack, unpack_header.
  branch E0; [lia|].
  destruct (unpack_header_fixed_reads b H0) as (R1 & R2 & R3 & R4 & R5 & R6).
  rewrite R1, R2, R3, R4, R5, R6. cbn [bind]. rewrite Hv.
  change (10001 =? 10001) with true. cbn [negb orb].
  branch E1; [lia|].
  branch E2; [reflexivity | lia].
Qed.

(** With both offsets inside the buffer, width and height are the signed
    32-bit fields at these offsets minus the key. *)
Lemma unpack_dims_resolved (b : bytes) :
  let key := u32le b 0x448 in
  let woff := 4 * deobfuscate (u32le b 0x440) key + 0x004 in
  let hoff := 4 * deobfuscate (u32le b 0x018) key + 0x420 in
  0x458 <= len b ->
  deobfuscate (u32le b 0x438) key = 10001 ->
  deobfuscate (u32le b 0x450) key <= 128 ->
  0 <= woff -> 0 <= hoff ->
  Z.max woff hoff + 4 < len b ->
  exists h, unpack_header b false = Ok h
            /\ width_off h = woff /\ height_off h = hoff
            /\ img_width h = i32le b woff - key
            /\ img_height h = i32le b hoff - key.
Proof.
  intros key woff hoff H0 Hv Hp Hw Hh Hm.
  eexists. split.
  - apply unpack_header_lenient; assumption.
  - split; [reflexivity|]. split; [reflexivity|].
    split; reflexivity.
Qed.

(** C4 on [sample_low_width_index], whose width-index field (0) is below
    the key (0x1000). The identification checks pass, the width offset is
    4 * (0 - 0x1000) + 4 = -16380, the bounds check compares the length with
    max(-16380, 0x420) + 4 and passes, and [struct.unpack_from] then refuses
    the offset: [unpack] ends in [struct.error], with neither the Incomplete
    error nor a width. Wrapped to 32 bits the index would be 2^32 - 0x1000
    and the offset far beyond the buffer. *)
Theorem unpack_width_offset_negative :
  0x458 <= len sample_low_width_index
  /\ deobfuscate (u32le sample_low_width_index 0x438)
       (u32le sample_low_width_index 0x448) = 10001
  /\ deobfuscate (u32le sample_low_width_index 0x450)
       (u32le sample_low_width_index 0x448) = 0
  /\ 4 * deobfuscate (u32le sample_low_width_index 0x440)
           (u32le sample_low_width_index 0x448) + 0x004 = - 16380
  /\ 4 * deobfuscate (u32le sample_low_width_index 0x018)
           (u32le sample_low_width_index 0x448) + 0x420 = 0x420
  /\ Z.max (- 16380) 0x420 + 4 < len sample_low_width_index
  /\ len sample_low_width_index
     <= 4 * wrap 32 (u32le sample_low_width_index 0x440
                     - u32le sample_low_width_index 0x448) + 0x004 + 4
  /\ unpack_from_i sample_low_width_index (- 16380) = Err StructError
  /\ (forall ac aip, unpack sample_low_width_index ac aip = Err StructError).
Proof.
  repeat (split; [vm_compute; first [reflexivity | discriminate]|]).
  intros [|] [|]; vm_compute; reflexivity.
Qed.

(** ** The key subtraction *)

(** Without underflow the source's subtraction agrees with 32-bit wrapping
    subtraction. *)
Lemma deobfuscate_no_underflow (stored key : Z) :
  0 <= key <= stored -> stored < 2 ^ 32 ->
  deobfuscate stored key = wrap 32 (stored - key).
Proof.
  intros H1 H2. unfold deobfuscate, wrap. rewrite Z.mod_small; lia.
Qed.

(** On underflow it does not: the source's value is negative. *)
Lemma deobfuscate_underflow (stored key : Z) :
  stored < key ->
  deobfuscate stored key < 0 <= wrap 32 (stored - key).
Proof.
  intros H. unfold deobfuscate, wrap.
  pose proof (Z.mod_pos_bound (stored - key) (2 ^ 32) ltac:(lia)). lia.
Qed.

Lemma u32le_range (b : bytes) (off : Z) : 0 <= u32le b off < 2 ^ 32.
Proof.
  unfold u32le. pose proof (le_decode_range (field 4 b off)) as R.
  assert (L : len (field 4 b off) <= 4).
  { unfold len, field. pose proof (firstn_le_length 4 (skipn (Z.to_nat off) b)). lia. }
  pose proof (len_nonneg (field 4 b off)).
  assert (2 ^ (8 * len (field 4 b off)) <= 2 ^ 32)
    by (apply Z.pow_le_mono_r; lia).
  lia.
Qed.

(** On the fields of a buffer the source's subtraction is the 32-bit
    wrapping one exactly when the stored field is not below the key. *)
Lemma key_subtraction_wraps_iff (b : bytes) (off : Z) :
  deobfuscate (u32le b off) (u32le b 0x448)
  = wrap 32 (u32le b off - u32le b 0x448)
  <-> u32le b 0x448 <= u32le b off.
Proof.
  pose proof (u32le_range b off). pose proof (u32le_range b 0x448).
  split.
  - intros E. destruct (Z_le_gt_dec (u32le b 0x448) (u32le b off)) as [L|G];
      [exact L|].
    pose proof (deobfuscate_underflow (u32le b off) (u32le b 0x448) ltac:(lia)).
    lia.
  - intros L. apply deobfuscate_no_underflow; lia.
Qed.

(** C2 on [sample_wrapped_key], the 4x4 image stored under the key
    0xFFFFFFFC with every field equal to value plus key modulo the field's
    width. The stored validation field is 9997; its 32-bit wrapping
    difference with the key is 10001, the source's difference is
    9997 - 0xFFFFFFFC = -4294957295, and [unpack] rejects the resource with
    the Validation error. The 16-bit depth field, stored as 4, wraps back to
    8 and is -65528 for the source. Under the key 0x1000, which no field
    wraps around, the same image decodes. *)
Theorem unpack_key_subtraction_unbounded :
  u32le sample_wrapped_key 0x448 = 0xFFFFFFFC
  /\ u32le sample_wrapped_key 0x438 = 9997
  /\ wrap 32 (u32le sample_wrapped_key 0x438 - u32le sample_wrapped_key 0x448)
     = 10001
  /\ deobfuscate (u32le sample_wrapped_key 0x438) (u32le sample_wrapped_key 0x448)
     = - 4294957295
  /\ wrap 16 (u16le sample_wrapped_key 0x430
              - Z.land (u32le sample_wrapped_key 0x448) 0xFFFF) = 8
  /\ deobfuscate (u16le sample_wrapped_key 0x430)
       (Z.land (u32le sample_wrapped_key 0x448) 0xFFFF) = - 65528
  /\ (forall ac aip,
        unpack sample_wrapped_key ac aip = Err SotESResourceValidationError)
  /\ unpack sample_keyed true false
     = Ok (bmp_file 4 4 8 0 (zeros 0x400) sample_pixels).
Proof.
  repeat (split; [vm_compute; reflexivity|]).
  vm_compute. reflexivity.
Qed.

(** ** The canonical container *)

Lemma field_before_table (A X : bytes) (n : nat) (o : Z) :
  (Z.to_nat o + n <= length A)%nat ->
  field n (A ++ X) o = firstn n (skipn (Z.to_nat o) A).
Proof.
  intros H. unfold field.
  rewrite skipn_app, firstn_app, length_skipn.
  replace (n - (length A - Z.to_nat o))%nat with 0%nat by lia.
  rewrite firstn_O, app_nil_r. reflexivity.
Qed.

Lemma skipn_past_table (A T R : bytes) (k : nat) :
  length A = 32%nat -> length T = 1024%nat ->
  skipn (1056 + k) (A ++ T ++ R) = skipn k R.
Proof.
  intros HA HT.
  rewrite skipn_app, skipn_all2 by lia. cbn [app].
  rewrite skipn_app, skipn_all2 by lia. cbn [app].
  f_equal. lia.
Qed.

Lemma field_past_table (A T R : bytes) (n k : nat) :
  length A = 32%nat -> length T = 1024%nat ->
  field n (A ++ T ++ R) (0x420 + Z.of_nat k) = firstn n (skipn k R).
Proof.
  intros HA HT. unfold field.
  replace (Z.to_nat (0x420 + Z.of_nat k)) with (1056 + k)%nat by lia.
  rewrite skipn_past_table by assumption. reflexivity.
Qed.

Lemma field_table (A T R : bytes) :
  length A = 32%nat -> length T = 1024%nat ->
  field 1024 (A ++ T ++ R) 0x20 = T.
Proof.
  intros HA HT. unfold field.
  replace (Z.to_nat 0x20) with (length A) by (rewrite HA; reflexivity).
  rewrite skipn_app, skipn_all, Nat.sub_diag. cbn [app skipn].
  rewrite <- HT, firstn_app, firstn_all, Nat.sub_diag, firstn_O, app_nil_r.
  reflexivity.
Qed.

(** Where each field of the canonical container lies, and that the rest of
    the first 0x458 bytes is zero. *)
Lemma canonical_layout_fields (w h d : Z) (T P : bytes) :
  len T = 0x400 ->
  let out := canonical_layout w h d T P in
  field 4 out 0x000 = zeros 4
  /\ field 4 out 0x004 = le_encode 4 w
  /\ field 24 out 0x008 = zeros 24
  /\ field 1024 out 0x020 = T
  /\ field 4 out 0x420 = le_encode 4 h
  /\ field 12 out 0x424 = zeros 12
  /\ field 2 out 0x430 = le_encode 2 d
  /\ field 6 out 0x432 = zeros 6
  /\ field 4 out 0x438 = le_encode 4 10001
  /\ field 28 out 0x43C = zeros 28
  /\ skipn (Z.to_nat 0x458) out = P.
Proof.
  intros HT out. assert (HT' : length T = 1024%nat) by (unfold len in HT; lia).
  set (A := zeros 0x04 ++ le_encode 4 w ++ zeros 0x18).
  set (R := le_encode 4 h ++ zeros 0x0C ++ le_encode 2 d ++ zeros 0x06
              ++ le_encode 4 10001 ++ zeros 0x1C ++ P).
  assert (Eout : out = A ++ T ++ R).
  { unfold out, canonical_layout, A, R. rewrite <- !app_assoc. reflexivity. }
  assert (HA : length A = 32%nat) by reflexivity.
  rewrite Eout.
  split; [rewrite field_before_table by (rewrite HA; cbn; lia); reflexivity|].
  split; [rewrite field_before_table by (rewrite HA; cbn; lia); reflexivity|].
  split; [rewrite field_before_table by (rewrite HA; cbn; lia); reflexivity|].
  split; [apply field_table; assumption|].
  split; [apply (field_past_table A T R 4 0 HA HT')|].
  split; [apply (field_past_table A T R 12 4 HA HT')|].
  split; [apply (field_past_table A T R 2 16 HA HT')|].
  split; [apply (field_past_table A T R 6 18 HA HT')|].
  split; [apply (field_past_table A T R 4 24 HA HT')|].
  split; [apply (field_past_table A T R 28 28 HA HT')|].
  apply (skipn_past_table A T R 56 HA HT').
Qed.

Lemma canonical_layout_values (w h d : Z) (T P : bytes) :
  len T = 0x400 ->
  - 2 ^ 31 <= w < 2 ^ 31 -> - 2 ^ 31 <= h < 2 ^ 31 -> 0 <= d < 2 ^ 16 ->
  let out := canonical_layout w h d T P in
  i32le out 0x004 = w /\ i32le out 0x420 = h /\ u16le out 0x430 = d
  /\ u32le out 0x438 = 10001
  /\ u32le out 0x448 = 0 /\ u32le out 0x440 = 0
  /\ u32le out 0x018 = 0 /\ u32le out 0x450 = 0.
Proof.
  intros HT Hw Hh Hd out.
  destruct (canonical_layout_fields w h d T P HT)
    as (_ & F1 & F2 & _ & F4 & _ & F6 & _ & F8 & F9 & _).
  fold out in F1, F2, F4, F6, F8, F9.
  assert (HT' : length T = 1024%nat) by (unfold len in HT; lia).
  unfold i32le, u32le, u16le.
  rewrite F1, F4, F6, F8, !le_decode_encode.
  change (8 * Z.of_nat 4) with 32. change (8 * Z.of_nat 2) with 16.
  rewrite !to_signed_wrap32 by assumption.
  rewrite (Z.mod_small d) by assumption.
  split; [reflexivity|]. split; [reflexivity|]. split; [reflexivity|].
  split; [reflexivity|].
  set (A := zeros 0x04 ++ le_encode 4 w ++ zeros 0x18).
  set (R := le_encode 4 h ++ zeros 0x0C ++ le_encode 2 d ++ zeros 0x06
              ++ le_encode 4 10001 ++ zeros 0x1C ++ P).
  assert (Eout : out = A ++ T ++ R).
  { unfold out, canonical_layout, A, R. rewrite <- !app_assoc. reflexivity. }
  assert (HA : length A = 32%nat) by reflexivity.
  rewrite Eout.
  split; [rewrite (field_past_table A T R 4 40 HA HT'
                   : field 4 (A ++ T ++ R) 0x448 = _); reflexivity|].
  split; [rewrite (field_past_table A T R 4 32 HA HT'
                   : field 4 (A ++ T ++ R) 0x440 = _); reflexivity|].
  split; [rewrite field_before_table by (rewrite HA; cbn; lia); reflexivity|].
  rewrite (field_past_table A T R 4 48 HA HT'
           : field 4 (A ++ T ++ R) 0x450 = _); reflexivity.
Qed.

Lemma len_canonical_layout (w h d : Z) (T P : bytes) :
  len T = 0x400 -> len (canonical_layout w h d T P) = 0x458 + len P.
Proof.
  intros HT. unfold canonical_layout.
  rewrite !len_app, HT. unfold len, zeros.
  rewrite !repeat_length, !length_le_encode. lia.
Qed.

(** ** mapM *)

Lemma mapM_Forall {A B : Type} (f : A -> result B) (Q : B -> Prop)
    (l : list A) (bs : list B) :
  (forall a b, In a l -> f a = Ok b -> Q b) ->
  mapM f l = Ok bs -> Forall Q bs /\ length bs = length l.
Proof.
  revert bs. induction l as [|a l IH]; intros bs HQ H.
  - injection H as <-. split; [constructor | reflexivity].
  - cbn [mapM] in H.
    destruct (f a) as [b|] eqn:Ea; [|discriminate]. cbn [bind] in H.
    destruct (mapM f l) as [bs'|] eqn:El; [|discriminate]. cbn [bind] in H.
    injection H as <-.
    destruct (IH bs') as [IH1 IH2].
    + intros a' b' Hin. apply HQ. right. exact Hin.
    + reflexivity.
    + split.
      * constructor; [|exact IH1]. apply (HQ a b); [left; reflexivity | exact Ea].
      * simpl. rewrite IH2. reflexivity.
Qed.

Lemma mapM_map {A B : Type} (f : A -> result B) (g : A -> B) (l : list A) :
  (forall a, In a l -> f a = Ok (g a)) -> mapM f l = Ok (map g l).
Proof.
  induction l as [|a l IH]; intros H.
  - reflexivity.
  - cbn [mapM map]. rewrite (H a) by (left; reflexivity). cbn [bind].
    rewrite IH by (intros a' Hin; apply H; right; exact Hin). reflexivity.
Qed.

Lemma length_concat_const {A : Type} (n : nat) (ls : list (list A)) :
  Forall (fun l => length l = n) ls ->
  length (concat ls) = (n * length ls)%nat.
Proof.
  induction 1 as [|l ls Hl _ IH].
  - simpl. lia.
  - cbn [concat]. rewrite length_app, IH, Hl. simpl. lia.
Qed.

Lemma pack_nB_inv (count : Z) (values s : bytes) :
  pack_nB count values = Ok s -> s = values /\ len values = count.
Proof.
  unfold pack_nB. intros H. branch E; [|discriminate].
  injection H as <-. split; [reflexivity | lia].
Qed.

Lemma len_ljust (s : bytes) (width : Z) :
  len s <= width -> len (ljust s width) = width.
Proof.
  intros H. unfold ljust. rewrite len_app. unfold len in *.
  rewrite repeat_length. lia.
Qed.

Lemma length_range3 (n : Z) : length (range3 n) = Z.to_nat ((n + 2) / 3).
Proof. unfold range3. rewrite length_map, length_seq. reflexivity. Qed.

(** The colour table [pack] builds for a palette image is 1024 bytes long. *)
Lemma pack_palette_length (pil_palette : list byte) (colors : list bytes) :
  len pil_palette <= 3 * 256 ->
  mapM (fun color_offset =>
          b <- index pil_palette (color_offset + 2) ;;
          g <- index pil_palette (color_offset + 1) ;;
          r <- index pil_palette color_offset ;;
          pack_nB 4 [b; g; r; x00])
       (range3 (len pil_palette)) = Ok colors ->
  len (ljust (concat colors) 0x400) = 0x400.
Proof.
  intros Hlen H.
  apply (mapM_Forall _ (fun s => length s = 4%nat)) in H.
  - destruct H as [HF HL]. apply len_ljust. unfold len.
    rewrite (length_concat_const 4 _ HF), HL, length_range3.
    assert ((len pil_palette + 2) / 3 < 257)
      by (apply Z.div_lt_upper_bound; lia).
    pose proof (Z.div_pos (len pil_palette + 2) 3
                  ltac:(pose proof (len_nonneg pil_palette); lia) ltac:(lia)).
    lia.
  - intros o s _ Hs.
    destruct (index pil_palette (o + 2)) as [b|]; [|discriminate].
    destruct (index pil_palette (o + 1)) as [g|]; [|discriminate].
    destruct (index pil_palette o) as [r|]; [|discriminate].
    cbn [bind] in Hs. apply pack_nB_inv in Hs as [-> _]. reflexivity.
Qed.

Lemma in_range3 (n o : Z) :
  In o (range3 n) -> exists k, o = 3 * k /\ 0 <= k < (n + 2) / 3.
Proof.
  unfold range3. intros H. apply in_map_iff in H as (k & <- & Hk).
  apply in_seq in Hk. exists (Z.of_nat k). split; [reflexivity | lia].
Qed.

Lemma mapM_inv_map {A B : Type} (f : A -> result B) (g : A -> B)
    (l : list A) (bs : list B) :
  (forall a b, In a l -> f a = Ok b -> b = g a) ->
  mapM f l = Ok bs -> bs = map g l.
Proof.
  revert bs. induction l as [|a l IH]; intros bs Hg H.
  - injection H as <-. reflexivity.
  - cbn [mapM] in H.
    destruct (f a) as [b|] eqn:Ea; [|discriminate]. cbn [bind] in H.
    destruct (mapM f l) as [bs'|] eqn:El; [|discriminate]. cbn [bind] in H.
    injection H as <-. cbn [map]. f_equal.
    + apply Hg; [left; reflexivity | exact Ea].
    + apply IH; [|reflexivity]. intros a' b' Hin. apply Hg. right. exact Hin.
Qed.

Lemma index_inv {A : Type} (l : list A) (i : Z) (x d : A) :
  0 <= i -> index l i = Ok x -> x = nth (Z.to_nat i) l d.
Proof.
  intros Hi. unfold index.
  destruct (i <? 0) eqn:E; [lia|].
  destruct ((i <? 0) || (len l <=? i)); [discriminate|].
  destruct (nth_error l (Z.to_nat i)) as [a|] eqn:En; [|discriminate].
  intros H. injection H as <-. symmetry. apply nth_error_nth. exact En.
Qed.

(** A slice of the requested length is the chunk at its start. *)
Lemma slice_exact {A : Type} (l : list A) (lo w : Z) :
  0 <= lo -> len (slice l lo (lo + w)) = w ->
  slice l lo (lo + w) = firstn (Z.to_nat w) (skipn (Z.to_nat lo) l).
Proof.
  intros Hlo Hw.
  destruct (Z.eq_dec w 0) as [-> | Hnz].
  - unfold len in Hw. destruct (slice l lo (lo + 0)); [reflexivity | discriminate].
  - pose proof (len_nonneg (slice l lo (lo + w))).
    revert Hw. unfold slice, clamp_index, len.
    destruct (lo <? 0) eqn:E1; [lia|].
    destruct (lo + w <? 0) eqn:E2; [lia|].
    rewrite length_firstn, length_skipn. intros Hw.
    rewrite (Z.min_l lo), (Z.min_l (lo + w)) by lia.
    f_equal. lia.
Qed.

Lemma pack_image_inv (img : pil_image) (out : bytes) :
  pack_image img = Ok out ->
  out = canonical_layout (fst (image_size img)) (snd (image_size img))
          (image_depth img) (image_table img) (image_pixels img)
  /\ len (image_table img) = 0x400
  /\ (image_depth img = 8 \/ image_depth img = 24)
  /\ - 2 ^ 31 <= fst (image_size img) < 2 ^ 31
  /\ - 2 ^ 31 <= snd (image_size img) < 2 ^ 31.
Proof.
  unfold pack_image. intros H.
  destruct (match img with ImageOther _ => _ | _ => _ end)
    as [[[[[w h] d] T] P]|] eqn:Eimg; [|discriminate].
  cbn [bind] in H.
  destruct (pack_i w) as [fw|] eqn:Ew; [|discriminate].
  destruct (pack_i h) as [fh|] eqn:Eh; [|discriminate].
  destruct (pack_H d) as [fd|] eqn:Ed; [|discriminate].
  destruct (pack_I 10001) as [fv|] eqn:Ev; [|discriminate].
  cbn [bind] in H. injection H as <-.
  apply pack_signed_inv in Ew as [-> Rw], Eh as [-> Rh].
  apply pack_unsigned_inv in Ed as [-> Rd], Ev as [-> Rv].
  change (8 * Z.of_nat 4 - 1) with 31 in *.
  assert (G : image_size img = (w, h) /\ image_depth img = d
              /\ image_table img = T /\ image_pixels img = P
              /\ len T = 0x400 /\ (d = 8 \/ d = 24)).
  { destruct img as [[w' h'] prgb pal pix | [w' h'] pix | sz]; [| |discriminate].
    - destruct prgb; [|discriminate]. cbn [negb] in Eimg.
      branch Elen; [discriminate|].
      destruct (mapM _ (range3 _)) as [colors|] eqn:Ec; [|discriminate].
      cbn [bind] in Eimg.
      destruct (mapM _ (range h')) as [rows|] eqn:Er; [|discriminate].
      cbn [bind] in Eimg. injection Eimg as <- <- <- <- <-.
      pose proof (pack_palette_length pal colors ltac:(lia) Ec) as HT.
      apply (mapM_inv_map _
               (fun o => [nth (Z.to_nat (o + 2)) pal x00;
                          nth (Z.to_nat (o + 1)) pal x00;
                          nth (Z.to_nat o) pal x00; x00])) in Ec.
      + apply (mapM_inv_map _ (fun i => field (Z.to_nat w') pix (i * w'))) in Er.
        * subst colors rows.
          split; [reflexivity|]. split; [reflexivity|].
          split; [reflexivity|]. split; [reflexivity|].
          split; [exact HT | left; reflexivity].
        * intros i s Hi Hs. apply in_range in Hi. cbv zeta in Hs.
          apply pack_nB_inv in Hs as [-> Hs].
          assert (0 <= w') by (pose proof (len_nonneg
                    (slice pix (i * w') (i * w' + w'))); lia).
          apply slice_exact; [nia | exact Hs].
      + intros o s Ho Hs. apply in_range3 in Ho as (k & -> & Hk).
        destruct (index pal (3 * k + 2)) as [b|] eqn:Eb; [|discriminate].
        destruct (index pal (3 * k + 1)) as [g|] eqn:Eg; [|discriminate].
        destruct (index pal (3 * k)) as [r|] eqn:Er'; [|discriminate].
        cbn [bind] in Hs. apply pack_nB_inv in Hs as [-> _].
        apply (index_inv _ _ _ x00) in Eb, Eg, Er'; try lia.
        subst. reflexivity.
    - destruct (mapM _ (range h')) as [rows|] eqn:Er; [|discriminate].
      cbn [bind] in Eimg. injection Eimg as <- <- <- <- <-.
      apply (mapM_inv_map _
               (fun i => concat (map (fun j =>
                           let '(r, g, b) :=
                             nth (Z.to_nat (i * w' + j)) pix (x00, x00, x00) in
                           [b; g; r]) (range w')))) in Er.
      + subst rows.
        split; [reflexivity|]. split; [reflexivity|].
        split; [reflexivity|]. split; [reflexivity|].
        split; [reflexivity | right; reflexivity].
      + intros i s Hi Hs. apply in_range in Hi. cbv zeta in Hs.
        destruct (mapM _ (range w')) as [row|] eqn:Erow; [|discriminate].
        cbn [bind] in Hs. apply pack_nB_inv in Hs as [-> _]. f_equal.
        eapply mapM_inv_map; [|exact Erow].
        intros j t Hj Ht. apply in_range in Hj. cbv beta in Ht.
        destruct (index pix (i * w' + j)) as [[[r g] b]|] eqn:Ep; [|discriminate].
        cbn [bind] in Ht. injection Ht as <-.
        apply (index_inv _ _ _ (x00, x00, x00)) in Ep; [|nia].
        rewrite <- Ep. reflexivity. }
  destruct G as (-> & -> & -> & -> & HT & Hd).
  cbn [fst snd].
  split; [reflexivity|]. split; [exact HT|]. split; [exact Hd|].
  split; assumption.
Qed.

(** C9. A container [pack] emits has the width in bytes 0x004-0x008, the
    1024-byte colour table in 0x020-0x420, the height in 0x420-0x424, the
    16-bit depth in 0x430-0x432, the validation constant 10001 in
    0x438-0x43C and the pixel array from 0x458 on; the bytes of the first
    0x458 outside these fields are zero, so the obfuscation key (0x448),
    the width index (0x440), the height index (0x018) and the pixel-offset
    key (0x450) all read zero. *)
Theorem pack_image_layout (img : pil_image) (out : bytes) :
  pack_image img = Ok out ->
  let w := fst (image_size img) in
  let h := snd (image_size img) in
  len (image_table img) = 0x400
  /\ len out = 0x458 + len (image_pixels img)
  /\ field 4 out 0x004 = le_encode 4 w /\ i32le out 0x004 = w
  /\ field 1024 out 0x020 = image_table img
  /\ field 4 out 0x420 = le_encode 4 h /\ i32le out 0x420 = h
  /\ field 2 out 0x430 = le_encode 2 (image_depth img)
  /\ u16le out 0x430 = image_depth img
  /\ field 4 out 0x438 = le_encode 4 10001 /\ u32le out 0x438 = 10001
  /\ skipn (Z.to_nat 0x458) out = image_pixels img
  /\ field 4 out 0x000 = zeros 4
  /\ field 24 out 0x008 = zeros 24
  /\ field 12 out 0x424 = zeros 12
  /\ field 6 out 0x432 = zeros 6
  /\ field 28 out 0x43C = zeros 28
  /\ u32le out 0x448 = 0 /\ u32le out 0x440 = 0
  /\ u32le out 0x018 = 0 /\ u32le out 0x450 = 0.
Proof.
  intros H w h.
  destruct (pack_image_inv img out H) as (-> & HT & Hd & Hw & Hh).
  fold w h in Hw, Hh |- *.
  destruct (canonical_layout_fields w h (image_depth img) _ (image_pixels img) HT)
    as (F0 & F1 & F2 & F3 & F4 & F5 & F6 & F7 & F8 & F9 & F10).
  destruct (canonical_layout_values w h (image_depth img) _ (image_pixels img)
              HT Hw Hh ltac:(destruct Hd as [-> | ->]; lia))
    as (V1 & V2 & V3 & V4 & V5 & V6 & V7 & V8).
  split; [exact HT|]. split; [apply len_canonical_layout; exact HT|].
  split; [exact F1|]. split; [exact V1|]. split; [exact F3|].
  split; [exact F4|]. split; [exact V2|]. split; [exact F6|].
  split; [exact V3|]. split; [exact F8|]. split; [exact V4|].
  split; [exact F10|]. split; [exact F0|]. split; [exact F2|].
  split; [exact F5|]. split; [exact F7|]. split; [exact F9|].
  split; [exact V5|]. split; [exact V6|]. split; [exact V7 | exact V8].
Qed.

Lemma pack_image_layout_witness :
  let out := packed sample_rgb_image in
  len (image_table sample_rgb_image) = 0x400
  /\ len out = 0x458 + len (image_pixels sample_rgb_image)
  /\ field 4 out 0x004 = le_encode 4 4 /\ i32le out 0x004 = 4
  /\ field 1024 out 0x020 = image_table sample_rgb_image
  /\ field 4 out 0x420 = le_encode 4 4 /\ i32le out 0x420 = 4
  /\ field 2 out 0x430 = le_encode 2 24
  /\ u16le out 0x430 = 24
  /\ field 4 out 0x438 = le_encode 4 10001 /\ u32le out 0x438 = 10001
  /\ skipn (Z.to_nat 0x458) out = image_pixels sample_rgb_image
  /\ field 4 out 0x000 = zeros 4
  /\ field 24 out 0x008 = zeros 24
  /\ field 12 out 0x424 = zeros 12
  /\ field 6 out 0x432 = zeros 6
  /\ field 28 out 0x43C = zeros 28
  /\ u32le out 0x448 = 0 /\ u32le out 0x440 = 0
  /\ u32le out 0x018 = 0 /\ u32le out 0x450 = 0.
Proof.
  apply (pack_image_layout sample_rgb_image (packed sample_rgb_image)).
  vm_compute. reflexivity.
Defined.

(** ** Round trip *)

(** C1 on [sample_short_palette_image], a 4x4 image of mode P whose RGB
    palette has one colour. [pack] accepts it and fills the 255 unused
    entries of the colour table with [ljust]'s default fill byte, the space
    0x20, so their reserved bytes are not zero, and [unpack] under its
    default strict settings rejects the container with InvalidBitmap. *)
Theorem pack_unpack_short_palette :
  exists r : bytes,
    pack_image sample_short_palette_image = Ok r
    /\ field 1024 r 0x020 = [x03; x02; x01; x00] ++ repeat x20 1020
    /\ unpack r true false = Err InvalidBitmapError.
Proof.
  exists (packed sample_short_palette_image).
  split; [|split]; vm_compute; reflexivity.
Qed.

Lemma concat_chunks {A : Type} (n k : nat) (l : list A) :
  length l = (k * n)%nat ->
  concat (map (fun i => firstn n (skipn (i * n) l)) (seq 0 k)) = l.
Proof.
  revert l. induction k as [|k IH]; intros l Hl.
  - destruct l; [reflexivity | discriminate].
  - cbn [seq map concat]. rewrite <- seq_shift, map_map.
    change (skipn (0 * n) l) with l.
    transitivity (firstn n l ++ skipn n l); [|apply firstn_skipn].
    f_equal.
    transitivity
      (concat (map (fun i => firstn n (skipn (i * n) (skipn n l))) (seq 0 k))).
    + f_equal. apply map_ext. intros i. rewrite skipn_skipn.
      do 2 f_equal. lia.
    + apply IH. rewrite length_skipn. lia.
Qed.

(** Reading [rows] rows of [raw] bytes each from the pixel region of a
    buffer gives the region back. *)
Lemma pixel_rows_concat (b P : bytes) (off raw rows : Z) :
  0 <= off -> 0 <= raw -> 0 <= rows ->
  skipn (Z.to_nat off) b = P -> len b = off + len P ->
  len P = raw * rows ->
  concat (map (fun i => slice b (off + i * raw) (off + i * raw + raw) ++ zeros 0)
              (range rows)) = P.
Proof.
  intros Hoff Hraw Hrows HP Hlen HlenP.
  transitivity
    (concat (map (fun i => firstn (Z.to_nat raw) (skipn (i * Z.to_nat raw) P))
                 (seq 0 (Z.to_nat rows))));
    [|apply concat_chunks; unfold len in HlenP; nia].
  unfold range. rewrite map_map. f_equal.
  apply map_ext_in. intros j Hj. apply in_seq in Hj.
  rewrite slice_inside by nia.
  cbn [zeros Z.to_nat repeat]. rewrite app_nil_r, <- HP, skipn_skipn.
  f_equal; [lia|]. f_equal. nia.
Qed.

Lemma existsb_all_zero (l : bytes) :
  Forall (fun x => x = x00) l ->
  existsb (fun alpha_byte => negb (byte_val alpha_byte =? 0)) l = false.
Proof.
  induction 1 as [|x l -> _ IH]; [reflexivity|].
  cbn [existsb]. rewrite IH. reflexivity.
Qed.

(** The decoder on a canonical container: the header resolves to key 0 and
    the base offsets, and the bitmap holds the container's own table (for
    depth 8) and pixel bytes. *)
Lemma unpack_canonical (w h d : Z) (T P : bytes) :
  len T = 0x400 ->
  0 < w < 2 ^ 31 -> 0 < h < 2 ^ 31 ->
  (d = 8 /\ Forall (fun x => x = x00) (every_fourth T)) \/ d = 24 ->
  len P = d / 8 * w * h ->
  (d / 8 * w) mod 4 = 0 ->
  14 + 40 + len (if d =? 8 then T else []) + len P < 2 ^ 32 ->
  unpack (canonical_layout w h d T P) true false
  = Ok (bmp_file w h d 0 (if d =? 8 then T else []) P).
Proof.
  intros HT Hw Hh Hd HP Hpad Hsize.
  set (out := canonical_layout w h d T P).
  assert (Hd' : 0 <= d < 2 ^ 16 /\ 0 < d / 8 /\ In d [1; 4; 8; 16; 24; 32]).
  { destruct Hd as [[-> _] | ->]; cbn; lia. }
  destruct Hd' as (Hdr & Hd8 & Hdin).
  destruct (canonical_layout_values w h d T P HT ltac:(lia) ltac:(lia) Hdr)
    as (V1 & V2 & V3 & V4 & V5 & V6 & V7 & V8).
  destruct (canonical_layout_fields w h d T P HT)
    as (_ & _ & _ & F3 & _ & _ & _ & _ & _ & _ & F10).
  pose proof (len_canonical_layout w h d T P HT) as Hlen.
  fold out in V1, V2, V3, V4, V5, V6, V7, V8, F3, F10, Hlen.
  pose proof (len_nonneg P) as HP0.
  assert (Hhdr : unpack_header out true
                 = Ok (mk_header 0 10001 0 0 0 0x004 0x420 w h d)).
  { rewrite unpack_header_ok; unfold deobfuscate;
      rewrite ?V5, ?V6, ?V7, ?V8, ?V4; cbn [Z.land];
      change (4 * (0 - 0) + 0x004) with 0x004;
      change (4 * (0 - 0) + 0x420) with 0x420;
      rewrite ?V1, ?V2, ?V3, ?Z.sub_0_r; try lia; try reflexivity.
    intros _. split; [lia|]. split; [lia | exact Hdin]. }
  unfold unpack. rewrite Hhdr. cbn [bind img_color_depth].
  assert (Htab : unpack_color_table out d true false
                 = Ok (if d =? 8 then T else [], 0)).
  { unfold unpack_color_table.
    destruct Hd as [[-> Hz] | ->]; cbn [Z.eqb Pos.eqb negb bind andb].
    - rewrite slice_inside by lia.
      change (firstn (Z.to_nat (0x420 - 0x20)) (skipn (Z.to_nat 0x20) out))
        with (field 1024 out 0x20).
      rewrite F3, existsb_all_zero by exact Hz. reflexivity.
    - reflexivity. }
  rewrite Htab. cbn [bind].
  assert (Hpix : unpack_pixel_array out (mk_header 0 10001 0 0 0 0x004 0x420 w h d)
                 = Ok P).
  { unfold unpack_pixel_array.
    cbn [pix_off_key img_color_depth img_width img_height].
    rewrite !Z.abs_eq by lia. rewrite Z.add_0_r.
    branch E; [lia|].
    destruct (h <? 0) eqn:En; [lia|].
    replace ((- (d / 8 * w)) mod 4) with 0
      by (symmetry; apply Z.mod_opp_l_z; [lia | exact Hpad]).
    apply (f_equal Ok).
    apply pixel_rows_concat; try lia; try assumption; nia. }
  rewrite Hpix. cbn [bind].
  rewrite unpack_build_ok;
    cbn [img_width img_height img_color_depth];
    rewrite ?Z.abs_eq by lia; try lia; try reflexivity.
  exact Hsize.
Qed.

(** ** The encoder on well-formed images *)

Lemma index_inside {A : Type} (l : list A) (i : Z) (d : A) :
  0 <= i < len l -> index l i = Ok (nth (Z.to_nat i) l d).
Proof.
  intros H. unfold index.
  destruct (i <? 0) eqn:E; [lia|].
  destruct ((i <? 0) || (len l <=? i)) eqn:E'.
  - apply orb_true_iff in E' as [E'|E']; lia.
  - rewrite (nth_error_nth' l d) by (unfold len in H; lia). reflexivity.
Qed.

Lemma every_fourth_entries {X : Type} (g : X -> bytes) (l : list X) :
  (forall x, exists a b c, g x = [a; b; c; x00]) ->
  Forall (fun y => y = x00) (every_fourth (concat (map g l))).
Proof.
  intros Hg. induction l as [|x l IH]; [constructor|].
  cbn [map concat]. destruct (Hg x) as (a & b & c & ->).
  cbn [app every_fourth]. constructor; [reflexivity | exact IH].
Qed.

Lemma len_palette_table (pil_palette : list byte) :
  len pil_palette = 768 -> len (palette_table pil_palette) = 0x400.
Proof.
  intros H. unfold palette_table. rewrite H. unfold len.
  rewrite (length_concat_const 4).
  - rewrite length_map, length_range3. reflexivity.
  - apply Forall_forall. intros s Hs.
    apply in_map_iff in Hs as (o & <- & _). reflexivity.
Qed.

Lemma pack_palette_full (pil_palette : list byte) :
  len pil_palette = 768 ->
  mapM (fun color_offset =>
          b <- index pil_palette (color_offset + 2) ;;
          g <- index pil_palette (color_offset + 1) ;;
          r <- index pil_palette color_offset ;;
          pack_nB 4 [b; g; r; x00])
       (range3 (len pil_palette))
  = Ok (map (fun o => [nth (Z.to_nat (o + 2)) pil_palette x00;
                       nth (Z.to_nat (o + 1)) pil_palette x00;
                       nth (Z.to_nat o) pil_palette x00;
                       x00])
            (range3 (len pil_palette))).
Proof.
  intros H. apply mapM_map. intros o Ho.
  apply in_range3 in Ho as (k & -> & Hk). rewrite H in Hk.
  change ((768 + 2) / 3) with 256 in Hk.
  rewrite !(index_inside _ _ x00) by lia. reflexivity.
Qed.

Lemma pack_index_rows (w h : Z) (pix : list byte) :
  0 <= w -> len pix = w * h ->
  mapM (fun row_index =>
          let pil_row_offset := row_index * w in
          pack_nB w (slice pix pil_row_offset (pil_row_offset + w)))
       (range h)
  = Ok (index_rows w h pix).
Proof.
  intros Hw Hlen. apply mapM_map. intros i Hi. apply in_range in Hi.
  cbv zeta. rewrite slice_inside by nia.
  replace (i * w + w - i * w) with w by lia.
  unfold pack_nB, field, len. rewrite length_chunk by (unfold len in Hlen; nia).
  rewrite Z2Nat.id, Z.eqb_refl by lia. reflexivity.
Qed.

Lemma pack_rgb_rows (w h : Z) (pix : list (byte * byte * byte)) :
  0 <= w -> len pix = w * h ->
  mapM (fun row_index =>
          let pil_row_offset := row_index * w in
          img_pixel_row <-
            mapM (fun pixel_index =>
                    ' (r, g, b) <- index pix (pil_row_offset + pixel_index) ;;
                    Ok [b; g; r])
                 (range w) ;;
          pack_nB (3 * w) (concat img_pixel_row))
       (range h)
  = Ok (rgb_rows w h pix).
Proof.
  intros Hw Hlen. apply mapM_map. intros i Hi. apply in_range in Hi.
  cbv zeta.
  rewrite (mapM_map _ (fun j => let '(r, g, b) :=
                                  nth (Z.to_nat (i * w + j)) pix (x00, x00, x00)
                                in [b; g; r])).
  - cbn [bind]. unfold pack_nB, len.
    rewrite (length_concat_const 3).
    + rewrite length_map. unfold range. rewrite length_map, length_seq.
      replace (Z.of_nat (3 * Z.to_nat w)) with (3 * w) by lia.
      rewrite Z.eqb_refl. reflexivity.
    + apply Forall_forall. intros s Hs.
      apply in_map_iff in Hs as (j & <- & _).
      destruct (nth _ pix _) as [[r g] b]. reflexivity.
  - intros j Hj. apply in_range in Hj.
    rewrite (index_inside _ _ (x00, x00, x00)) by nia. cbn [bind].
    destruct (nth _ pix _) as [[r g] b]. reflexivity.
Qed.

Lemma len_bottom_up (n : nat) (rows : list bytes) :
  Forall (fun s => length s = n) rows ->
  len (bottom_up rows) = Z.of_nat n * len rows.
Proof.
  intros H. unfold bottom_up, len.
  rewrite (length_concat_const n) by (apply Forall_rev; exact H).
  rewrite length_rev. lia.
Qed.

Lemma len_index_rows (w h : Z) (pix : list byte) :
  0 <= w -> 0 <= h -> len pix = w * h ->
  len (bottom_up (index_rows w h pix)) = w * h.
Proof.
  intros Hw Hh Hlen. rewrite (len_bottom_up (Z.to_nat w)).
  - unfold index_rows, range, len. rewrite !length_map, length_seq. lia.
  - apply Forall_forall. intros s Hs. unfold index_rows in Hs.
    apply in_map_iff in Hs as (i & <- & Hi). apply in_range in Hi.
    unfold field. apply length_chunk. unfold len in Hlen. nia.
Qed.

Lemma len_rgb_rows (w h : Z) (pix : list (byte * byte * byte)) :
  0 <= w -> 0 <= h ->
  len (bottom_up (rgb_rows w h pix)) = 3 * w * h.
Proof.
  intros Hw Hh. rewrite (len_bottom_up (3 * Z.to_nat w)).
  - unfold rgb_rows, range, len. rewrite !length_map, length_seq. lia.
  - apply Forall_forall. intros s Hs. unfold rgb_rows in Hs.
    apply in_map_iff in Hs as (i & <- & Hi).
    rewrite (length_concat_const 3).
    + unfold range. rewrite !length_map, length_seq. reflexivity.
    + apply Forall_forall. intros t Ht.
      apply in_map_iff in Ht as (j & <- & _).
      destruct (nth _ pix _) as [[r g] b]. reflexivity.
Qed.

(** [pack] on a palette image with all 256 colours. *)
Lemma pack_image_full_palette (w h : Z) (pal pix : list byte) :
  0 <= w < 2 ^ 31 -> 0 <= h < 2 ^ 31 ->
  len pal = 768 -> len pix = w * h ->
  pack_image (ImageP (w, h) true pal pix)
  = Ok (canonical_layout w h 8 (palette_table pal)
          (bottom_up (index_rows w h pix))).
Proof.
  intros Hw Hh Hpal Hpix. unfold pack_image. cbn [negb].
  destruct (len pal >? 3 * 256) eqn:E; [lia|].
  rewrite pack_palette_full by exact Hpal. cbn [bind].
  rewrite pack_index_rows by lia. cbn [bind].
  unfold pack_i, pack_H, pack_I.
  rewrite !pack_signed_ok by (change (8 * Z.of_nat 4 - 1) with 31; lia).
  rewrite !pack_unsigned_ok by (cbn; lia). cbn [bind].
  unfold canonical_layout, ljust. fold (palette_table pal).
  rewrite len_palette_table by exact Hpal.
  cbn [Z.sub Z.to_nat repeat Z.opp Z.add Z.pos_sub]. rewrite app_nil_r.
  reflexivity.
Qed.

(** [pack] on an RGB image. *)
Lemma pack_image_rgb (w h : Z) (pix : list (byte * byte * byte)) :
  0 <= w < 2 ^ 31 -> 0 <= h < 2 ^ 31 ->
  len pix = w * h ->
  pack_image (ImageRGB (w, h) pix)
  = Ok (canonical_layout w h 24 (zeros 0x400) (bottom_up (rgb_rows w h pix))).
Proof.
  intros Hw Hh Hpix. unfold pack_image.
  rewrite pack_rgb_rows by lia. cbn [bind].
  unfold pack_i, pack_H, pack_I.
  rewrite !pack_signed_ok by (change (8 * Z.of_nat 4 - 1) with 31; lia).
  rewrite !pack_unsigned_ok by (cbn; lia). cbn [bind].
  reflexivity.
Qed.

(** The round trip for a palette image with all 256 colours whose width is
    a positive multiple of 4: [unpack] under its default settings returns
    the bitmap with the image's width and height, depth 8, its palette as
    blue, green, red, 0 entries and its rows bottom-up. *)
Theorem pack_unpack_full_palette (w h : Z) (pal pix : list byte) :
  0 < w < 2 ^ 31 -> 0 < h < 2 ^ 31 -> w mod 4 = 0 ->
  len pal = 768 -> len pix = w * h ->
  14 + 40 + 1024 + w * h < 2 ^ 32 ->
  exists r : bytes,
    pack_image (ImageP (w, h) true pal pix) = Ok r
    /\ unpack r true false
       = Ok (bmp_file w h 8 0 (palette_table pal)
               (bottom_up (index_rows w h pix))).
Proof.
  intros Hw Hh Hw4 Hpal Hpix Hsize.
  eexists. split; [apply pack_image_full_palette; lia|].
  pose proof (len_palette_table pal Hpal) as HT.
  pose proof (len_index_rows w h pix ltac:(lia) ltac:(lia) Hpix) as HP.
  rewrite unpack_canonical; try assumption; try reflexivity.
  - left. split; [reflexivity|]. unfold palette_table.
    apply every_fourth_entries. intros o. do 3 eexists. reflexivity.
  - rewrite HP. change (8 / 8) with 1. lia.
  - change (8 / 8) with 1. rewrite Z.mul_1_l. exact Hw4.
  - cbn [Z.eqb Pos.eqb]. rewrite HT, HP. lia.
Qed.

(** The round trip for an RGB image whose width is a positive multiple of
    4: the bitmap has depth 24, no colour table, and the pixels as blue,
    green, red triples, rows bottom-up. *)
Theorem pack_unpack_rgb (w h : Z) (pix : list (byte * byte * byte)) :
  0 < w < 2 ^ 31 -> 0 < h < 2 ^ 31 -> w mod 4 = 0 ->
  len pix = w * h ->
  14 + 40 + 3 * w * h < 2 ^ 32 ->
  exists r : bytes,
    pack_image (ImageRGB (w, h) pix) = Ok r
    /\ unpack r true false
       = Ok (bmp_file w h 24 0 [] (bottom_up (rgb_rows w h pix))).
Proof.
  intros Hw Hh Hw4 Hpix Hsize.
  eexists. split; [apply pack_image_rgb; lia|].
  pose proof (len_rgb_rows w h pix ltac:(lia) ltac:(lia)) as HP.
  assert (HT : len (zeros 0x400) = 0x400) by reflexivity.
  rewrite unpack_canonical; try assumption; try reflexivity.
  - right. reflexivity.
  - change (24 / 8) with 3.
    rewrite <- Z.mul_mod_idemp_r, Hw4 by lia. reflexivity.
  - cbn [Z.eqb Pos.eqb]. rewrite HP. change (len []) with 0. lia.
Qed.

(** The two theorems on the 4x4 samples. *)
Example pack_unpack_full_palette_sample :
  exists r : bytes,
    pack_image sample_full_palette_image = Ok r
    /\ unpack r true false
       = Ok (bmp_file 4 4 8 0 (palette_table full_palette)
               (bottom_up (index_rows 4 4 sample_pixels))).
Proof.
  apply (pack_unpack_full_palette 4 4 full_palette sample_pixels);
    vm_compute; first [reflexivity | split; reflexivity].
Qed.

Example pack_unpack_rgb_sample :
  unpack (packed sample_rgb_image) true false
  = Ok (bmp_file 4 4 24 0 []
          (map byte_of
             [212; 112; 12; 213; 113; 13; 214; 114; 14; 215; 115; 15;
              208; 108; 8; 209; 109; 9; 210; 110; 10; 211; 111; 11;
              204; 104; 4; 205; 105; 5; 206; 106; 6; 207; 107; 7;
              200; 100; 0; 201; 101; 1; 202; 102; 2; 203; 103; 3])).
Proof. vm_compute. reflexivity. Qed.

(** * Further properties of [unpack] *)

(** ** Strict and lenient runs compared *)

Lemma unpack_header_strict_or_same (b : bytes) :
  unpack_header b true = unpack_header b false
  \/ unpack_header b true = Err InvalidBitmapError.
Proof.
  unfold unpack_header.
  branch E0; [left; reflexivity|].
  destruct (unpack_from_I b 0x448) as [key|]; [|left; reflexivity].
  destruct (unpack_from_I b 0x438) as [v|]; [|left; reflexivity].
  destruct (unpack_from_I b 0x450) as [p|]; [|left; reflexivity].
  cbn [bind].
  branch E1; [left; reflexivity|].
  destruct (unpack_from_I b 0x440) as [wk|]; [|left; reflexivity].
  destruct (unpack_from_I b 0x018) as [hk|]; [|left; reflexivity].
  cbn [bind].
  branch E2; [left; reflexivity|].
  destruct (unpack_from_i b _) as [w|]; [|left; reflexivity].
  destruct (unpack_from_i b _) as [h|]; [|left; reflexivity].
  cbn [bind andb].
  branch E3; [right; reflexivity|].
  branch E4; [right; reflexivity|].
  destruct (unpack_from_H b 0x430) as [d|]; [|left; reflexivity].
  cbn [bind].
  branch E5; [right; reflexivity | left; reflexivity].
Qed.

Lemma unpack_color_table_strict_or_same (b : bytes) (d : Z) (aip : bool) :
  unpack_color_table b d true aip = unpack_color_table b d false aip
  \/ unpack_color_table b d true aip = Err InvalidBitmapError.
Proof.
  unfold unpack_color_table.
  destruct (if d =? 8 then _ else _) as [[T n]|]; [|left; reflexivity].
  cbn [bind andb].
  branch E; [right; reflexivity | left; reflexivity].
Qed.

(** X1. The additional checks only ever add InvalidBitmap failures: the strict
    run of a buffer either ends like the lenient run, with the same bytes or
    the same error, or fails with InvalidBitmap. *)
Theorem unpack_strict_or_lenient (b : bytes) (aip : bool) :
  unpack b true aip = unpack b false aip
  \/ unpack b true aip = Err InvalidBitmapError.
Proof.
  unfold unpack.
  destruct (unpack_header_strict_or_same b) as [-> | ->];
    [|right; reflexivity].
  destruct (unpack_header b false) as [h|]; [|left; reflexivity].
  cbn [bind].
  destruct (unpack_color_table_strict_or_same b (img_color_depth h) aip)
    as [-> | ->]; [left | right]; reflexivity.
Qed.

(** ** What a successful run went through *)

Lemma unpack_inv (b : bytes) (ac aip : bool) (out : bytes) :
  unpack b ac aip = Ok out ->
  exists (h : header) (T : bytes) (n : Z) (P : bytes),
    unpack_header b ac = Ok h
    /\ unpack_color_table b (img_color_depth h) ac aip = Ok (T, n)
    /\ unpack_pixel_array b h = Ok P
    /\ unpack_build h T n P = Ok out.
Proof.
  unfold unpack. intros H.
  destruct (unpack_header b ac) as [h|] eqn:Eh; [|discriminate].
  cbn [bind] in H.
  destruct (unpack_color_table b (img_color_depth h) ac aip) as [[T n]|] eqn:Et;
    [|discriminate].
  cbn [bind] in H.
  destruct (unpack_pixel_array b h) as [P|] eqn:Ep; [|discriminate].
  cbn [bind] in H.
  exists h, T, n, P. repeat (split; [reflexivity || assumption|]). exact H.
Qed.

Lemma slice_table (b : bytes) :
  0x458 <= len b -> slice b 0x20 0x420 = field 1024 b 0x20.
Proof.
  intros H. rewrite slice_inside by lia. reflexivity.
Qed.

Lemma len_field (n : nat) (b : bytes) (off : Z) :
  0 <= off -> off + Z.of_nat n <= len b -> len (field n b off) = Z.of_nat n.
Proof.
  intros H0 H1. unfold len, field. rewrite length_chunk; unfold len in H1; lia.
Qed.

(** The table the colour-table stage returns, and its colour count. *)
Lemma unpack_color_table_inv (b : bytes) (d : Z) (ac aip : bool)
    (T : bytes) (n : Z) :
  0x458 <= len b ->
  unpack_color_table b d ac aip = Ok (T, n) ->
  (d = 8 /\ T = field 1024 b 0x20 /\ n = 0
   \/ d = 24 /\ aip = false /\ T = [] /\ n = 0
   \/ d = 24 /\ aip = true /\ T = field 1024 b 0x20 /\ n = 256)
  /\ (ac = true -> Forall (fun x => x = x00) (every_fourth T)).
Proof.
  intros Hlen. unfold unpack_color_table. rewrite slice_table by exact Hlen.
  intros H.
  assert (G : forall T' n',
             (if ac && existsb (fun alpha_byte => negb (byte_val alpha_byte =? 0))
                         (every_fourth T')
              then raise InvalidBitmapError else Ok (T', n')) = Ok (T, n) ->
             T' = T /\ n' = n
             /\ (ac = true -> Forall (fun x => x = x00) (every_fourth T))).
  { intros T' n' G. branch E; [discriminate|]. injection G as <- <-.
    split; [reflexivity|]. split; [reflexivity|]. intros ->.
    cbn [andb] in E. apply Forall_forall. intros x Hx.
    destruct (Byte.byte_eq_dec x x00) as [Hz|Hz]; [exact Hz|].
    assert (existsb (fun alpha_byte => negb (byte_val alpha_byte =? 0))
              (every_fourth T') = true).
    { apply existsb_exists. exists x. split; [exact Hx|].
      apply negb_true_iff, Z.eqb_neq. intros Hv. apply Hz.
      rewrite <- (byte_of_val x), Hv. reflexivity. }
    congruence. }
  destruct (d =? 8) eqn:E8.
  - cbn [bind] in H. apply G in H as (<- & <- & HF).
    split; [left; repeat split; lia | exact HF].
  - destruct (d =? 24) eqn:E24; [|discriminate].
    destruct aip; cbn [negb bind] in H; apply G in H as (<- & <- & HF).
    + split; [right; right; repeat split; lia | exact HF].
    + split; [right; left; repeat split; lia | exact HF].
Qed.

(** ** The headers of the bitmap *)

Lemma len_bmp_file (w h d n : Z) (T P : bytes) :
  len (bmp_file w h d n T P) = 54 + len T + len P.
Proof.
  unfold bmp_file. rewrite !len_app. unfold len.
  cbn [length]. rewrite !length_le_encode. lia.
Qed.

Lemma u32le_encode (z : Z) :
  0 <= z < 2 ^ 32 -> le_decode (le_encode 4 z) = z.
Proof.
  intros H. rewrite le_decode_encode. apply Z.mod_small. exact H.
Qed.

Lemma u16le_encode (z : Z) :
  0 <= z < 2 ^ 16 -> le_decode (le_encode 2 z) = z.
Proof.
  intros H. rewrite le_decode_encode. apply Z.mod_small. exact H.
Qed.

(** The fields of the two headers read back. *)
Lemma bmp_file_fields (w h d n : Z) (T P : bytes) :
  14 + 40 + len T + len P < 2 ^ 32 ->
  0 <= w < 2 ^ 31 -> 0 <= h < 2 ^ 31 -> 0 <= d < 2 ^ 16 -> 0 <= n < 2 ^ 32 ->
  let out := bmp_file w h d n T P in
  field 2 out 0 = [x42; x4d]
  /\ u32le out 2 = 54 + len T + len P
  /\ u16le out 6 = 0 /\ u16le out 8 = 0
  /\ u32le out 10 = 54 + len T
  /\ u32le out 14 = 40
  /\ i32le out 18 = w /\ i32le out 22 = h
  /\ u16le out 26 = 1 /\ u16le out 28 = d
  /\ u32le out 30 = 0 /\ u32le out 34 = len P
  /\ i32le out 38 = 0 /\ i32le out 42 = 0
  /\ u32le out 46 = n /\ u32le out 50 = 0
  /\ skipn 54 out = T ++ P.
Proof.
  intros Hs Hw Hh Hd Hn out.
  pose proof (len_nonneg T). pose proof (len_nonneg P).
  set (A := ([x42; x4d] ++ le_encode 4 (14 + 40 + len T + len P)
               ++ le_encode 2 0 ++ le_encode 2 0
               ++ le_encode 4 (14 + 40 + len T))
            ++ (le_encode 4 40 ++ le_encode 4 w ++ le_encode 4 h
                  ++ le_encode 2 1 ++ le_encode 2 d ++ le_encode 4 0
                  ++ le_encode 4 (len P) ++ le_encode 4 0 ++ le_encode 4 0
                  ++ le_encode 4 n ++ le_encode 4 0)).
  assert (Eout : out = A ++ (T ++ P)).
  { unfold out, bmp_file, A. rewrite <- !app_assoc. reflexivity. }
  assert (HA : length A = 54%nat) by reflexivity.
  assert (F : forall (k : nat) (o : Z),
             (Z.to_nat o + k <= 54)%nat ->
             field k out o = firstn k (skipn (Z.to_nat o) A)).
  { intros k o Hk. rewrite Eout. apply field_before_table. lia. }
  assert (S32 : forall z, - 2 ^ 31 <= z < 2 ^ 31 ->
                          to_signed 32 (le_decode (le_encode 4 z)) = z).
  { intros z Hz. rewrite le_decode_encode. apply to_signed_wrap32. exact Hz. }
  unfold u32le, i32le, u16le, u32le. rewrite !F by (cbn; lia).
  cbn [Z.to_nat Pos.to_nat Pos.iter_op Nat.add skipn firstn A app le_encode].
  fold (le_encode 4 (14 + 40 + len T + len P)).
  split; [reflexivity|].
  split; [change (le_decode (le_encode 4 (14 + 40 + len T + len P))
                  = 54 + len T + len P);
          rewrite le_decode_encode; apply Z.mod_small; lia|].
  split; [reflexivity|]. split; [reflexivity|].
  split; [change (le_decode (le_encode 4 (14 + 40 + len T)) = 54 + len T);
          rewrite le_decode_encode; apply Z.mod_small; lia|].
  split; [reflexivity|].
  split; [apply (S32 w); lia|]. split; [apply (S32 h); lia|].
  split; [reflexivity|].
  split; [apply (u16le_encode d); lia|].
  split; [reflexivity|].
  split; [change (le_decode (le_encode 4 (len P)) = len P);
          rewrite le_decode_encode; apply Z.mod_small; lia|].
  split; [reflexivity|]. split; [reflexivity|].
  split; [change (le_decode (le_encode 4 n) = n);
          rewrite le_decode_encode; apply Z.mod_small; lia|].
  split; reflexivity.
Qed.

(** X2. Every bitmap [unpack] returns is self-describing: it starts with "BM",
    its file-size field is its length, the info header has size 40 and one
    plane, width and height are not negative, the depth is 8 or 24, the
    compression is 0, the pixel-array offset is 1078 with the colour table
    and 54 without, the colour count is 256 only for a depth-24 table, and
    the image-size field is the number of bytes after the offset. *)
Theorem unpack_bitmap_header (b : bytes) (ac aip : bool) (out : bytes) :
  unpack b ac aip = Ok out ->
  field 2 out 0 = [x42; x4d]
  /\ u32le out 2 = len out
  /\ u32le out 14 = 40 /\ u16le out 26 = 1 /\ u32le out 30 = 0
  /\ 0 <= i32le out 18 /\ 0 <= i32le out 22
  /\ (u16le out 28 = 8 /\ u32le out 10 = 1078 /\ u32le out 46 = 0
      \/ u16le out 28 = 24 /\ aip = false
         /\ u32le out 10 = 54 /\ u32le out 46 = 0
      \/ u16le out 28 = 24 /\ aip = true
         /\ u32le out 10 = 1078 /\ u32le out 46 = 256)
  /\ u32le out 34 = len out - u32le out 10.
Proof.
  intros H.
  destruct (unpack_inv b ac aip out H) as (h & T & n & P & Hh & Ht & Hp & Hb).
  pose proof (hf_len _ _ _ (unpack_header_inv _ _ _ Hh)) as Hlen.
  destruct (unpack_color_table_inv _ _ _ _ _ _ Hlen Ht) as [Hsel _].
  apply unpack_build_inv in Hb as (-> & Hs & Hw & Hv & Hd & Hn).
  destruct (bmp_file_fields (Z.abs (img_width h)) (Z.abs (img_height h))
              (img_color_depth h) n T P Hs ltac:(lia) ltac:(lia) Hd Hn)
    as (F0 & F2 & _ & _ & F10 & F14 & F18 & F22 & F26 & F28 & F30 & F34
        & _ & _ & F46 & _).
  rewrite len_bmp_file, F0, F2, F10, F14, F18, F22, F26, F28, F30, F34, F46.
  assert (HT : len (field 1024 b 0x20) = 1024) by (apply len_field; lia).
  split; [reflexivity|]. split; [reflexivity|]. split; [reflexivity|].
  split; [reflexivity|]. split; [reflexivity|].
  split; [lia|]. split; [lia|].
  split; [|lia].
  destruct Hsel as [(Hd8 & -> & ->) | [(Hd24 & Ha & -> & ->) | (Hd24 & Ha & -> & ->)]].
  - left. rewrite HT. auto.
  - right. left. change (len []) with 0. auto.
  - right. right. rewrite HT. auto.
Qed.

Lemma unpack_bitmap_header_witness :
  let out := bmp_file 4 4 8 0 (zeros 0x400) sample_pixels in
  field 2 out 0 = [x42; x4d]
  /\ u32le out 2 = len out
  /\ u32le out 14 = 40 /\ u16le out 26 = 1 /\ u32le out 30 = 0
  /\ 0 <= i32le out 18 /\ 0 <= i32le out 22
  /\ (u16le out 28 = 8 /\ u32le out 10 = 1078 /\ u32le out 46 = 0
      \/ u16le out 28 = 24 /\ false = false
         /\ u32le out 10 = 54 /\ u32le out 46 = 0
      \/ u16le out 28 = 24 /\ false = true
         /\ u32le out 10 = 1078 /\ u32le out 46 = 256)
  /\ u32le out 34 = len out - u32le out 10.
Proof.
  apply (unpack_bitmap_header sample_keyed true false).
  vm_compute. reflexivity.
Defined.

(** ** Decoding a well-formed resource *)

Lemma i32le_range (b : bytes) (off : Z) : - 2 ^ 31 <= i32le b off < 2 ^ 31.
Proof.
  unfold i32le, to_signed. pose proof (u32le_range b off).
  change (32 - 1) with 31. destruct (u32le b off <? 2 ^ 31) eqn:E; lia.
Qed.

Lemma len_range (n : Z) : 0 <= n -> len (range n) = n.
Proof.
  intros H. unfold len, range. rewrite length_map, length_seq. lia.
Qed.

Lemma len_padded_rows (b : bytes) (off raw rows : Z) :
  0 <= off -> 0 <= raw -> 0 <= rows -> off + raw * rows <= len b ->
  len (concat (padded_rows b off raw rows)) = rows * (raw + (- raw) mod 4).
Proof.
  intros Hoff Hraw Hrows Hlen.
  pose proof (Z.mod_pos_bound (- raw) 4 ltac:(lia)) as Hpad.
  unfold len. rewrite (length_concat_const (Z.to_nat (raw + (- raw) mod 4))).
  - unfold padded_rows, range. rewrite !length_map, length_seq. nia.
  - apply Forall_forall. intros s Hs. unfold padded_rows in Hs.
    apply in_map_iff in Hs as (i & <- & Hi). apply in_range in Hi.
    rewrite length_app. unfold field, zeros.
    rewrite length_chunk, repeat_length by (unfold len in Hlen; nia). lia.
Qed.

Lemma unpack_pixel_array_ok (b : bytes) (h : header) :
  img_color_depth h = 8 \/ img_color_depth h = 24 ->
  0 <= 0x458 + pix_off_key h ->
  0x458 + pix_off_key h
    + img_color_depth h / 8 * Z.abs (img_width h) * Z.abs (img_height h)
    <= len b ->
  unpack_pixel_array b h
  = Ok (concat (padded_rows b (0x458 + pix_off_key h)
                  (img_color_depth h / 8 * Z.abs (img_width h))
                  (Z.abs (img_height h)))).
Proof.
  intros Hd Hoff Hlen. unfold unpack_pixel_array.
  branch E; [lia|].
  destruct (Z.abs (img_height h) <? 0) eqn:En; [lia|].
  apply (f_equal Ok). f_equal. unfold padded_rows.
  apply map_ext_in. intros i Hi. apply in_range in Hi.
  assert (0 <= img_color_depth h / 8 * Z.abs (img_width h)).
  { destruct Hd as [-> | ->];
      [change (8 / 8) with 1 | change (24 / 8) with 3]; lia. }
  rewrite slice_inside by nia. unfold field.
  do 3 f_equal. lia.
Qed.

(** The decoder on a buffer whose fields do not underflow. *)
Lemma unpack_decode (b : bytes) (ac aip : bool) :
  let key := u32le b 0x448 in
  let woff := 4 * (u32le b 0x440 - key) + 0x004 in
  let hoff := 4 * (u32le b 0x018 - key) + 0x420 in
  let po := u32le b 0x450 - key in
  let w := i32le b woff - key in
  let h := i32le b hoff - key in
  let d := u16le b 0x430 - Z.land key 0xFFFF in
  let raw := d / 8 * w in
  let T := if (d =? 8) || aip then field 1024 b 0x020 else [] in
  let n := if (d =? 24) && aip then 256 else 0 in
  0x458 <= len b ->
  u32le b 0x438 - key = 10001 ->
  0 <= po <= 128 -> 0 <= woff -> 0 <= hoff ->
  Z.max woff hoff + 4 < len b ->
  0 < w -> h <> 0 -> Z.abs h < 2 ^ 31 ->
  d = 8 \/ d = 24 ->
  (ac = true -> Forall (fun x => x = x00) (every_fourth T)) ->
  0x458 + po + raw * Z.abs h <= len b ->
  14 + 40 + len T + Z.abs h * (raw + (- raw) mod 4) < 2 ^ 32 ->
  unpack b ac aip
  = Ok (bmp_file w (Z.abs h) d n T
          (concat (padded_rows b (0x458 + po) raw (Z.abs h)))).
Proof.
  intros key woff hoff po w h d raw T n
    Hlen Hval Hpo Hwoff Hhoff Hmax Hw Hh Hhb Hd HT Hpix Hsize.
  assert (Hdin : In d [1; 4; 8; 16; 24; 32])
    by (destruct Hd as [Hd' | Hd']; rewrite Hd'; cbn; auto 10).
  assert (Hhdr : unpack_header b ac
                 = Ok (mk_header key (u32le b 0x438 - key) po
                         (u32le b 0x440 - key) (u32le b 0x018 - key)
                         woff hoff w h d)).
  { apply unpack_header_ok; unfold deobfuscate; try assumption; try lia.
    intros _. split; [exact Hw|]. split; [exact Hh | exact Hdin]. }
  assert (Hw31 : w < 2 ^ 31).
  { unfold w. pose proof (i32le_range b woff). pose proof (u32le_range b 0x448).
    fold key in H0. lia. }
  clearbody key woff hoff po w h d.
  assert (Hraw : 0 <= raw /\ 0 < d / 8).
  { unfold raw. destruct Hd as [-> | ->];
      [change (8 / 8) with 1 | change (24 / 8) with 3]; lia. }
  unfold unpack. rewrite Hhdr. cbn [bind img_color_depth].
  assert (Htab : unpack_color_table b d ac aip = Ok (T, n)).
  { unfold unpack_color_table. rewrite slice_table by exact Hlen.
    unfold T, n in *.
    destruct ac; [specialize (HT eq_refl) | clear HT];
      destruct Hd as [-> | ->]; cbn [Z.eqb Pos.eqb orb andb] in *;
      try destruct aip; cbn [negb bind andb];
      rewrite ?(existsb_all_zero _ HT); reflexivity. }
  rewrite Htab. cbn [bind].
  rewrite unpack_pixel_array_ok;
    cbn [pix_off_key img_color_depth img_width img_height];
    rewrite ?(Z.abs_eq w) by lia; try assumption; try lia.
  cbn [bind]. fold raw.
  assert (HlenP : len (concat (padded_rows b (0x458 + po) raw (Z.abs h)))
                  = Z.abs h * (raw + (- raw) mod 4))
    by (apply len_padded_rows; lia).
  rewrite unpack_build_ok;
    cbn [img_width img_height img_color_depth];
    rewrite ?(Z.abs_eq w) by lia; try lia; try reflexivity.
  unfold n. destruct ((d =? 24) && aip); lia.
Qed.


(** X3. A resource under any key whose fields do not underflow decodes to the
    bitmap its fields describe. With the index, pixel-offset and validation
    fields stored as value plus key, a positive width, a non-zero height
    below 2^31 in magnitude, depth 8 or 24, zero reserved bytes in the
    selected table, the pixel bytes inside the buffer and a file size below
    2^32, [unpack] returns, in either mode, the bitmap of that width, |height|
    and depth, with the table of bytes 0x020-0x420 (for depth 8, or on
    request for depth 24) and the padded rows read from 0x458 plus the
    pixel-offset key. *)
Theorem unpack_well_formed (b : bytes) (ac aip : bool) :
  let key := u32le b 0x448 in
  let woff := 4 * (u32le b 0x440 - key) + 0x004 in
  let hoff := 4 * (u32le b 0x018 - key) + 0x420 in
  let po := u32le b 0x450 - key in
  let w := i32le b woff - key in
  let h := i32le b hoff - key in
  let d := u16le b 0x430 - Z.land key 0xFFFF in
  let raw := d / 8 * w in
  let T := if (d =? 8) || aip then field 1024 b 0x020 else [] in
  let n := if (d =? 24) && aip then 256 else 0 in
  0x458 <= len b ->
  u32le b 0x438 - key = 10001 ->
  0 <= po <= 128 -> 0 <= woff -> 0 <= hoff ->
  Z.max woff hoff + 4 < len b ->
  0 < w -> h <> 0 -> Z.abs h < 2 ^ 31 ->
  d = 8 \/ d = 24 ->
  Forall (fun x => x = x00) (every_fourth T) ->
  0x458 + po + raw * Z.abs h <= len b ->
  14 + 40 + len T + Z.abs h * (raw + (- raw) mod 4) < 2 ^ 32 ->
  unpack b ac aip
  = Ok (bmp_file w (Z.abs h) d n T
          (concat (padded_rows b (0x458 + po) raw (Z.abs h)))).
Proof.
  intros key woff hoff po w h d raw T n
    Hlen Hval Hpo Hwoff Hhoff Hmax Hw Hh Hhb Hd HT Hpix Hsize.
  apply unpack_decode; try assumption. intros _. exact HT.
Qed.

Lemma unpack_well_formed_witness :
  unpack sample_keyed true false
  = Ok (bmp_file 4 (Z.abs 4) 8 0 (field 1024 sample_keyed 0x020)
          (concat (padded_rows sample_keyed (0x458 + 0) (8 / 8 * 4) (Z.abs 4)))).
Proof.
  apply (unpack_well_formed sample_keyed true false);
    try (vm_compute; first [reflexivity | discriminate
                            | split; discriminate | left; reflexivity]).
  vm_compute. repeat constructor.
Defined.

(** ** No uncaught exception without underflow *)

Lemma unpack_header_errors (b : bytes) (ac : bool) (e : error) :
  u32le b 0x448 <= u32le b 0x440 ->
  u32le b 0x448 <= u32le b 0x018 ->
  unpack_header b ac = Err e ->
  e = IncompleteSotESResourceError \/ e = SotESResourceValidationError
  \/ e = InvalidBitmapError.
Proof.
  intros Hw Hh. unfold unpack_header.
  branch E0; [intros H; injection H as <-; auto|]. apply Z.ltb_ge in E0.
  destruct (unpack_header_fixed_reads b E0) as (R1 & R2 & R3 & R4 & R5 & R6).
  rewrite R1, R2, R3, R4, R5, R6. cbn [bind].
  branch E1; [intros H; injection H as <-; auto|].
  branch E2; [intros H; injection H as <-; auto|].
  apply Z.leb_gt in E2. unfold deobfuscate in *.
  rewrite !unpack_from_i_inside by lia. cbn [bind].
  branch E3; [intros H; injection H as <-; auto|].
  branch E4; [intros H; injection H as <-; auto|].
  branch E5; [intros H; injection H as <-; auto | discriminate].
Qed.

Lemma unpack_color_table_errors (b : bytes) (d : Z) (ac aip : bool) (e : error) :
  unpack_color_table b d ac aip = Err e ->
  e = UnsupportedBitmapError \/ e = InvalidBitmapError.
Proof.
  unfold unpack_color_table.
  destruct (if d =? 8 then _ else _) as [[T n]|e'] eqn:Es.
  - cbn [bind]. branch E; [intros H; injection H as <-; auto | discriminate].
  - cbn [bind]. intros H. injection H as <-.
    destruct (d =? 8); [discriminate|].
    destruct (d =? 24); [destruct (negb aip); discriminate|].
    injection Es as <-. auto.
Qed.

Lemma unpack_pixel_array_errors (b : bytes) (h : header) (e : error) :
  unpack_pixel_array b h = Err e -> e = IncompleteSotESResourceError.
Proof.
  unfold unpack_pixel_array. branch E; [|discriminate].
  intros H. injection H as <-. reflexivity.
Qed.

(** X4. On a buffer below 2^29 bytes whose width-index, height-index and
    pixel-offset fields are not below the key, a strict run never ends in
    [struct.error]: it returns the bitmap or fails with Incomplete,
    Validation, InvalidBitmap or UnsupportedBitmap, all of which the
    command-line driver catches. *)
Theorem unpack_strict_errors_caught (b : bytes) (aip : bool) (e : error) :
  len b < 2 ^ 29 ->
  u32le b 0x448 <= u32le b 0x440 ->
  u32le b 0x448 <= u32le b 0x018 ->
  u32le b 0x448 <= u32le b 0x450 ->
  unpack b true aip = Err e ->
  (e = IncompleteSotESResourceError \/ e = SotESResourceValidationError
   \/ e = InvalidBitmapError \/ e = UnsupportedBitmapError)
  /\ is_UnpackerError e = true.
Proof.
  intros Hlen Hwi Hhi Hpi H.
  assert (G : e = IncompleteSotESResourceError \/ e = SotESResourceValidationError
              \/ e = InvalidBitmapError \/ e = UnsupportedBitmapError).
  { unfold unpack in H.
    destruct (unpack_header b true) as [h|e0] eqn:Eh.
    - cbn [bind] in H. pose proof (unpack_header_inv _ _ _ Eh) as F.
      destruct (unpack_color_table b (img_color_depth h) true aip)
        as [[T n]|e1] eqn:Et.
      + cbn [bind] in H.
        destruct (unpack_color_table_inv _ _ _ _ _ _ (hf_len _ _ _ F) Et)
          as [Hsel _].
        destruct (unpack_color_table_range _ _ _ _ _ _ Et) as [Hd Hn].
        destruct (unpack_pixel_array b h) as [P|e2] eqn:Ep.
        * cbn [bind] in H. exfalso.
          destruct (hf_strict _ _ _ F eq_refl) as (Sw & Sh & _).
          assert (Hpo : 0 <= pix_off_key h).
          { rewrite (hf_pix_off_key _ _ _ F), (hf_obf_key _ _ _ F).
            unfold deobfuscate. lia. }
          assert (Hfit : 0x458 + pix_off_key h
                         + img_color_depth h / 8 * Z.abs (img_width h)
                           * Z.abs (img_height h) <= len b).
          { revert Ep. unfold unpack_pixel_array. branch E; [discriminate|].
            intros _. lia. }
          assert (EP : P = concat (padded_rows b (0x458 + pix_off_key h)
                                     (img_color_depth h / 8 * Z.abs (img_width h))
                                     (Z.abs (img_height h)))).
          { rewrite unpack_pixel_array_ok in Ep by (assumption || lia).
            congruence. }
          subst P. clear Ep.
          assert (Hd8 : 1 <= img_color_depth h / 8 <= 3).
          { destruct Hd as [-> | ->]; [change (8 / 8) with 1
                                      | change (24 / 8) with 3]; lia. }
          remember (img_color_depth h / 8 * Z.abs (img_width h)) as raw
            eqn:Eraw.
          assert (Hraw : 1 <= raw) by (subst raw; nia).
          assert (Hrh : raw * Z.abs (img_height h) < 2 ^ 29) by lia.
          assert (Hh1 : 1 <= Z.abs (img_height h)) by lia.
          pose proof (Z.mod_pos_bound (- raw) 4 ltac:(lia)) as Hpad.
          pose proof (len_padded_rows b (0x458 + pix_off_key h) raw
                        (Z.abs (img_height h)) ltac:(lia) ltac:(lia)
                        ltac:(lia) ltac:(lia)) as HlenP.
          assert (HT : 0 <= len T <= 1024).
          { destruct Hsel as [(_ & -> & _) | [(_ & _ & -> & _) | (_ & _ & -> & _)]];
              [rewrite len_field by (pose proof (hf_len _ _ _ F); lia)
              | change (len []) with 0
              | rewrite len_field by (pose proof (hf_len _ _ _ F); lia)]; lia. }
          rewrite unpack_build_ok in H; [discriminate| | | | |].
          -- rewrite HlenP. nia.
          -- subst raw. nia.
          -- nia.
          -- destruct Hd as [-> | ->]; lia.
          -- lia.
        * cbn [bind] in H. injection H as <-.
          apply unpack_pixel_array_errors in Ep. auto.
      + cbn [bind] in H. injection H as <-.
        apply unpack_color_table_errors in Et. destruct Et; auto.
    - cbn [bind] in H. injection H as <-.
      destruct (unpack_header_errors b true e0 Hwi Hhi Eh) as [-> | [-> | ->]];
        auto. }
  split; [exact G|].
  destruct G as [-> | [-> | [-> | ->]]]; reflexivity.
Qed.

Lemma unpack_strict_errors_caught_witness :
  (UnsupportedBitmapError = IncompleteSotESResourceError
   \/ UnsupportedBitmapError = SotESResourceValidationError
   \/ UnsupportedBitmapError = InvalidBitmapError
   \/ UnsupportedBitmapError = UnsupportedBitmapError)
  /\ is_UnpackerError UnsupportedBitmapError = true.
Proof.
  apply (unpack_strict_errors_caught sample_depth16 false);
    vm_compute; first [reflexivity | discriminate].
Defined.

(** ** The palette flag at depth 24 *)

(** X5. For a depth-24 resource the always-include-palette flag only adds the
    table: when the run with the flag succeeds, so does the run without it,
    and the two bitmaps have the same width, height and pixel array; the
    first carries bytes 0x020-0x420 as colour table with a colour count of
    256, the second no table and a count of 0. *)
Theorem unpack_palette_flag_depth24 (b : bytes) (ac : bool) (out : bytes) :
  deobfuscate (u16le b 0x430) (Z.land (u32le b 0x448) 0xFFFF) = 24 ->
  unpack b ac true = Ok out ->
  exists (w h : Z) (P : bytes),
    out = bmp_file w h 24 256 (field 1024 b 0x020) P
    /\ unpack b ac false = Ok (bmp_file w h 24 0 [] P).
Proof.
  intros H24 H.
  destruct (unpack_inv b ac true out H) as (h & T & n & P & Hh & Ht & Hp & Hb).
  pose proof (unpack_header_inv _ _ _ Hh) as F.
  assert (Hd : img_color_depth h = 24)
    by (rewrite (hf_depth _ _ _ F), (hf_obf_key _ _ _ F); exact H24).
  destruct (unpack_color_table_inv _ _ _ _ _ _ (hf_len _ _ _ F) Ht)
    as [[(Hd8 & _) | [(_ & Ha & _) | (_ & _ & -> & ->)]] _];
    [lia | discriminate |].
  apply unpack_build_inv in Hb as (-> & Hs & Hw & Hv & Hdr & Hn).
  exists (Z.abs (img_width h)), (Z.abs (img_height h)), P.
  rewrite Hd. split; [reflexivity|].
  unfold unpack. rewrite Hh. cbn [bind]. rewrite Hd.
  assert (Ht' : unpack_color_table b 24 ac false = Ok ([], 0)).
  { unfold unpack_color_table. cbn. rewrite andb_false_r. reflexivity. }
  rewrite Ht'. cbn [bind]. rewrite Hp. cbn [bind].
  pose proof (len_nonneg (field 1024 b 0x020)).
  rewrite unpack_build_ok; rewrite ?Hd; try lia; try reflexivity.
  change (len []) with 0. lia.
Qed.

Lemma unpack_palette_flag_depth24_witness :
  exists (w h : Z) (P : bytes),
    bmp_file 4 4 24 256 (field 1024 sample_depth24 0x020) (map byte_of (range 48))
    = bmp_file w h 24 256 (field 1024 sample_depth24 0x020) P
    /\ unpack sample_depth24 true false = Ok (bmp_file w h 24 0 [] P).
Proof.
  apply (unpack_palette_flag_depth24 sample_depth24 true);
    vm_compute; reflexivity.
Defined.

(** * Further properties of [pack] *)

(** ** Which errors [pack] raises *)

Lemma mapM_Err {A B : Type} (f : A -> result B) (l : list A) (e : error) :
  mapM f l = Err e -> exists a, In a l /\ f a = Err e.
Proof.
  induction l as [|a l IH]; [discriminate|]. cbn [mapM].
  destruct (f a) as [b|e'] eqn:Ea.
  - cbn [bind]. destruct (mapM f l) as [bs|e''] eqn:El; [discriminate|].
    cbn [bind]. intros H. injection H as <-.
    destruct (IH eq_refl) as (a' & Hin & Ha').
    exists a'. split; [right; exact Hin | exact Ha'].
  - cbn [bind]. intros H. injection H as <-.
    exists a. split; [left; reflexivity | exact Ea].
Qed.

Lemma mapM_Ok_each {A B : Type} (f : A -> result B) (l : list A) (bs : list B) :
  mapM f l = Ok bs -> forall a, In a l -> exists b, f a = Ok b.
Proof.
  revert bs. induction l as [|a l IH]; intros bs H a' Hin; [destruct Hin|].
  cbn [mapM] in H.
  destruct (f a) as [b|] eqn:Ea; [|discriminate]. cbn [bind] in H.
  destruct (mapM f l) as [bs'|] eqn:El; [|discriminate].
  destruct Hin as [<- | Hin]; [exists b; exact Ea|].
  apply (IH bs' eq_refl a' Hin).
Qed.

Lemma index_Err {A : Type} (l : list A) (i : Z) (e : error) :
  index l i = Err e -> e = IndexError.
Proof.
  unfold index. branch E; [intros H; injection H as <-; reflexivity|].
  destruct (nth_error l _); [discriminate|].
  intros H. injection H as <-. reflexivity.
Qed.

Lemma pack_nB_Err (count : Z) (values : bytes) (e : error) :
  pack_nB count values = Err e -> e = StructError.
Proof.
  unfold pack_nB. branch E; [discriminate|].
  intros H. injection H as <-. reflexivity.
Qed.

Lemma pack_signed_Err (n : nat) (z : Z) (e : error) :
  pack_signed n z = Err e -> e = StructError.
Proof.
  unfold pack_signed. branch E; [discriminate|].
  intros H. injection H as <-. reflexivity.
Qed.

Lemma pack_unsigned_Err (n : nat) (z : Z) (e : error) :
  pack_unsigned n z = Err e -> e = StructError.
Proof.
  unfold pack_unsigned. branch E; [discriminate|].
  intros H. injection H as <-. reflexivity.
Qed.

(** An error of [pack_image] is UnsupportedBitmap, exactly for the
    unsupported images, or one of [struct.error] and [IndexError]. *)
Lemma pack_image_Err (img : pil_image) (e : error) :
  pack_image img = Err e ->
  (e = UnsupportedBitmapError /\ unsupported_image img)
  \/ ((e = StructError \/ e = IndexError) /\ ~ unsupported_image img).
Proof.
  unfold pack_image. intros H.
  destruct (match img with ImageOther _ => _ | _ => _ end)
    as [[[[[w h] d] T] P]|e0] eqn:Eimg.
  - right. cbn [bind] in H.
    assert (Hsup : ~ unsupported_image img).
    { destruct img as [[w' h'] prgb pal pix | [w' h'] pix | sz];
        cbn [unsupported_image]; [| tauto | discriminate].
      destruct prgb; [|discriminate]. cbn [negb] in Eimg.
      branch Elen; [discriminate|]. intros [Hf | Hl]; [discriminate | lia]. }
    split; [|exact Hsup]. left.
    destruct (pack_i w) as [fw|e1] eqn:Ew;
      [|cbn [bind] in H; injection H as <-;
        apply (pack_signed_Err _ _ _ Ew)].
    destruct (pack_i h) as [fh|e1] eqn:Eh;
      [|cbn [bind] in H; injection H as <-;
        apply (pack_signed_Err _ _ _ Eh)].
    destruct (pack_H d) as [fd|e1] eqn:Ed;
      [|cbn [bind] in H; injection H as <-;
        apply (pack_unsigned_Err _ _ _ Ed)].
    destruct (pack_I 10001) as [fv|e1] eqn:Ev;
      [discriminate|cbn [bind] in H; injection H as <-;
        apply (pack_unsigned_Err _ _ _ Ev)].
  - cbn [bind] in H. injection H as <-.
    destruct img as [[w' h'] prgb pal pix | [w' h'] pix | sz].
    + destruct prgb; cbn [negb] in Eimg;
        [|injection Eimg as <-; left; split; [reflexivity | left; reflexivity]].
      branch Elen;
        [injection Eimg as <-; left; split; [reflexivity | right; lia]|].
      right. split; [|intros [Hf | Hl]; [discriminate | lia]].
      destruct (mapM _ (range3 _)) as [colors|e1] eqn:Ec.
      * cbn [bind] in Eimg.
        destruct (mapM _ (range h')) as [rows|e2] eqn:Er; [discriminate|].
        cbn [bind] in Eimg. injection Eimg as <-.
        apply mapM_Err in Er as (i & _ & Hi). cbv beta zeta in Hi.
        left. apply (pack_nB_Err _ _ _ Hi).
      * cbn [bind] in Eimg. injection Eimg as <-.
        apply mapM_Err in Ec as (o & _ & Ho). cbv beta in Ho.
        destruct (index pal (o + 2)) as [b|] eqn:Eb;
          [|cbn [bind] in Ho; injection Ho as <-; right;
            apply (index_Err _ _ _ Eb)].
        destruct (index pal (o + 1)) as [g|] eqn:Eg;
          [|cbn [bind] in Ho; injection Ho as <-; right;
            apply (index_Err _ _ _ Eg)].
        destruct (index pal o) as [r|] eqn:Er;
          [|cbn [bind] in Ho; injection Ho as <-; right;
            apply (index_Err _ _ _ Er)].
        cbn [bind] in Ho. left. apply (pack_nB_Err _ _ _ Ho).
    + right. split; [|tauto].
      destruct (mapM _ (range h')) as [rows|e2] eqn:Er; [discriminate|].
      cbn [bind] in Eimg. injection Eimg as <-.
      apply mapM_Err in Er as (i & _ & Hi). cbv beta zeta in Hi.
      destruct (mapM _ (range w')) as [row|e3] eqn:Erow.
      * cbn [bind] in Hi. left. apply (pack_nB_Err _ _ _ Hi).
      * cbn [bind] in Hi. injection Hi as <-.
        apply mapM_Err in Erow as (j & _ & Hj). cbv beta in Hj.
        destruct (index pix (i * w' + j)) as [[[r g] b]|] eqn:Ep;
          [discriminate|].
        cbn [bind] in Hj. injection Hj as <-. right.
        apply (index_Err _ _ _ Ep).
    + injection Eimg as <-. left. split; [reflexivity | exact I].
Qed.

(** X6. [pack] fails with UnsupportedBitmap exactly on the images that are
    neither of mode RGB nor of mode P with an RGB palette of at most 256
    colours. *)
Theorem pack_image_unsupported_iff (img : pil_image) :
  pack_image img = Err UnsupportedBitmapError <-> unsupported_image img.
Proof.
  split.
  - intros H. apply pack_image_Err in H as [[_ Hu] | [[He | He] _]];
      [exact Hu | discriminate | discriminate].
  - intros Hu. unfold pack_image.
    destruct img as [[w h] prgb pal pix | [w h] pix | sz].
    + destruct Hu as [-> | Hl]; [reflexivity|].
      destruct prgb; [|reflexivity]. cbn [negb].
      branch E; [reflexivity | lia].
    + destruct Hu.
    + reflexivity.
Qed.

(** X7. The two errors [pack] raises before it looks at an image:
    UnsupportedFunction exactly when Pillow is not available, and
    InvalidBitmap exactly when Pillow is available and cannot open the data
    as a BMP file. *)
Theorem pack_entry_errors (PIL_AVAILABLE : bool)
    (image_open : bytes -> option pil_image) (bitmap_data : bytes) :
  (pack PIL_AVAILABLE image_open bitmap_data = Err UnsupportedFunctionError
   <-> PIL_AVAILABLE = false)
  /\ (pack PIL_AVAILABLE image_open bitmap_data = Err InvalidBitmapError
      <-> PIL_AVAILABLE = true /\ image_open bitmap_data = None).
Proof.
  unfold pack. destruct PIL_AVAILABLE; cbn [negb].
  - destruct (image_open bitmap_data) as [img|].
    + split; split; intros H.
      * apply pack_image_Err in H as [[He _] | [[He | He] _]]; discriminate.
      * discriminate.
      * apply pack_image_Err in H as [[He _] | [[He | He] _]]; discriminate.
      * destruct H as [_ H]. discriminate.
    + split; split; intros H; try discriminate; auto.
  - split; split; intros H; try discriminate; auto.
    destruct H as [H _]. discriminate.
Qed.

(** ** [pack] on the images it is written for *)

Lemma pack_palette_ok (pil_palette : list byte) :
  len pil_palette mod 3 = 0 ->
  mapM (fun color_offset =>
          b <- index pil_palette (color_offset + 2) ;;
          g <- index pil_palette (color_offset + 1) ;;
          r <- index pil_palette color_offset ;;
          pack_nB 4 [b; g; r; x00])
       (range3 (len pil_palette))
  = Ok (map (fun o => [nth (Z.to_nat (o + 2)) pil_palette x00;
                       nth (Z.to_nat (o + 1)) pil_palette x00;
                       nth (Z.to_nat o) pil_palette x00;
                       x00])
            (range3 (len pil_palette))).
Proof.
  intros H. apply mapM_map. intros o Ho.
  apply in_range3 in Ho as (k & -> & Hk).
  pose proof (len_nonneg pil_palette) as Hn.
  assert (Hq : len pil_palette = 3 * (len pil_palette / 3))
    by (apply Z.div_exact; lia).
  assert (Hk' : k < len pil_palette / 3).
  { replace ((len pil_palette + 2) / 3) with (len pil_palette / 3) in Hk;
      [lia|].
    rewrite Hq at 2. symmetry.
    replace (3 * (len pil_palette / 3) + 2)
      with (2 + (len pil_palette / 3) * 3) by lia.
    rewrite Z.div_add by lia. reflexivity. }
  rewrite !(index_inside _ _ x00) by lia. reflexivity.
Qed.

Lemma len_palette_table_div (pil_palette : list byte) :
  len (palette_table pil_palette) = 4 * ((len pil_palette + 2) / 3).
Proof.
  pose proof (len_nonneg pil_palette) as Hn.
  pose proof (Z.div_pos (len pil_palette + 2) 3 ltac:(lia) ltac:(lia)).
  unfold palette_table, len at 1.
  rewrite (length_concat_const 4).
  - rewrite length_map, length_range3. lia.
  - apply Forall_forall. intros s Hs.
    apply in_map_iff in Hs as (o & <- & _). reflexivity.
Qed.

Lemma len_image_table (img : pil_image) :
  well_formed_image img -> len (image_table img) = 0x400.
Proof.
  destruct img as [[w h] prgb pal pix | [w h] pix | sz]; cbn [well_formed_image].
  - intros (_ & _ & Hl & _). cbn [image_table]. apply len_ljust.
    rewrite len_palette_table_div.
    assert ((len pal + 2) / 3 < 257) by (apply Z.div_lt_upper_bound; lia).
    lia.
  - intros _. reflexivity.
  - intros [].
Qed.

Lemma len_image_pixels (img : pil_image) :
  well_formed_image img ->
  len (image_pixels img)
  = image_depth img / 8 * fst (image_size img) * snd (image_size img).
Proof.
  destruct img as [[w h] prgb pal pix | [w h] pix | sz];
    cbn [well_formed_image image_pixels image_depth image_size fst snd].
  - intros (_ & _ & _ & Hw & Hh & Hp).
    rewrite len_index_rows by lia. change (8 / 8) with 1. lia.
  - intros (Hw & Hh & Hp).
    rewrite len_rgb_rows by lia. change (24 / 8) with 3. lia.
  - intros [].
Qed.

Lemma pack_image_well_formed (img : pil_image) :
  well_formed_image img ->
  pack_image img
  = Ok (canonical_layout (fst (image_size img)) (snd (image_size img))
          (image_depth img) (image_table img) (image_pixels img)).
Proof.
  destruct img as [[w h] prgb pal pix | [w h] pix | sz];
    cbn [well_formed_image image_pixels image_table image_depth image_size
         fst snd].
  - intros (-> & Hm & Hl & Hw & Hh & Hp). unfold pack_image. cbn [negb].
    destruct (len pal >? 3 * 256) eqn:E; [lia|].
    rewrite pack_palette_ok by exact Hm. cbn [bind].
    rewrite pack_index_rows by lia. cbn [bind].
    unfold pack_i, pack_H, pack_I.
    rewrite !pack_signed_ok by (change (8 * Z.of_nat 4 - 1) with 31; lia).
    rewrite !pack_unsigned_ok by (cbn; lia). cbn [bind].
    reflexivity.
  - intros (Hw & Hh & Hp). apply pack_image_rgb; assumption.
  - intros [].
Qed.

(** X8. [pack] accepts every image of mode RGB, and every image of mode P with
    an RGB palette of at most 256 colours, whose sizes fit 31 bits and whose
    pixel data has one entry per pixel. The container has 0x458 bytes plus
    one byte per pixel for mode P and three for mode RGB: rows are never
    padded. *)
Theorem pack_image_accepts (img : pil_image) :
  well_formed_image img ->
  exists out : bytes,
    pack_image img = Ok out
    /\ len out
       = 0x458 + image_depth img / 8 * fst (image_size img)
                 * snd (image_size img).
Proof.
  intros H. eexists. split; [apply pack_image_well_formed; exact H|].
  rewrite len_canonical_layout by (apply len_image_table; exact H).
  rewrite len_image_pixels by exact H. lia.
Qed.

Lemma pack_image_accepts_witness :
  exists out : bytes,
    pack_image sample_short_palette_image = Ok out
    /\ len out = 0x458 + 8 / 8 * 4 * 4.
Proof.
  apply (pack_image_accepts sample_short_palette_image).
  vm_compute. repeat split; congruence.
Defined.

(** ** Round trips in every mode *)

Lemma padded_rows_concat (b P : bytes) (off raw rows : Z) :
  0 <= off -> 0 <= raw -> 0 <= rows ->
  skipn (Z.to_nat off) b = P -> len P = raw * rows -> raw mod 4 = 0 ->
  concat (padded_rows b off raw rows) = P.
Proof.
  intros Hoff Hraw Hrows HP HlenP Hpad.
  transitivity
    (concat (map (fun i => firstn (Z.to_nat raw) (skipn (i * Z.to_nat raw) P))
                 (seq 0 (Z.to_nat rows))));
    [|apply concat_chunks; unfold len in HlenP; nia].
  unfold padded_rows, range. rewrite map_map. f_equal.
  apply map_ext_in. intros j Hj. apply in_seq in Hj.
  replace ((- raw) mod 4) with 0
    by (symmetry; apply Z.mod_opp_l_z; [lia | exact Hpad]).
  cbn [zeros Z.to_nat repeat]. rewrite app_nil_r. unfold field.
  rewrite <- HP, skipn_skipn. do 2 f_equal. nia.
Qed.

(** The decoder on a canonical container, for both flags. *)
Lemma unpack_canonical_flags (w h d : Z) (T P : bytes) (ac aip : bool) :
  len T = 0x400 ->
  0 < w < 2 ^ 31 -> 0 < h < 2 ^ 31 ->
  d = 8 \/ d = 24 ->
  (ac = true ->
   Forall (fun x => x = x00)
     (every_fourth (if (d =? 8) || aip then T else []))) ->
  len P = d / 8 * w * h ->
  (d / 8 * w) mod 4 = 0 ->
  14 + 40 + len (if (d =? 8) || aip then T else []) + len P < 2 ^ 32 ->
  unpack (canonical_layout w h d T P) ac aip
  = Ok (bmp_file w h d (if (d =? 24) && aip then 256 else 0)
          (if (d =? 8) || aip then T else []) P).
Proof.
  intros HT Hw Hh Hd Hz HP Hpad Hsize.
  set (out := canonical_layout w h d T P).
  assert (Hdr : 0 <= d < 2 ^ 16 /\ 0 < d / 8)
    by (destruct Hd as [-> | ->]; cbn; lia).
  destruct (canonical_layout_values w h d T P HT ltac:(lia) ltac:(lia)
              (proj1 Hdr))
    as (V1 & V2 & V3 & V4 & V5 & V6 & V7 & V8).
  destruct (canonical_layout_fields w h d T P HT)
    as (_ & _ & _ & F3 & _ & _ & _ & _ & _ & _ & F10).
  pose proof (len_canonical_layout w h d T P HT) as Hlen.
  fold out in V1, V2, V3, V4, V5, V6, V7, V8, F3, F10, Hlen.
  pose proof (len_nonneg P) as HP0.
  assert (E : concat (padded_rows out (0x458 + 0) (d / 8 * w) (Z.abs h)) = P).
  { apply padded_rows_concat; rewrite ?Z.abs_eq by lia; try lia;
      try assumption; nia. }
  rewrite unpack_decode;
    rewrite ?V5, ?V6, ?V7, ?V8, ?V4; cbn [Z.land];
    change (4 * (0 - 0) + 0x004) with 0x004;
    change (4 * (0 - 0) + 0x420) with 0x420;
    rewrite ?V1, ?V2, ?V3, ?Z.sub_0_r, ?F3; try lia; try assumption.
  - rewrite E, (Z.abs_eq h) by lia. reflexivity.
  - replace ((- (d / 8 * w)) mod 4) with 0
      by (symmetry; apply Z.mod_opp_l_z; [lia | exact Hpad]).
    rewrite Z.abs_eq by lia.
    replace (h * (d / 8 * w + 0)) with (len P) by (rewrite HP; ring).
    exact Hsize.
Qed.

Lemma image_depth_well_formed (img : pil_image) :
  well_formed_image img -> image_depth img = 8 \/ image_depth img = 24.
Proof.
  destruct img as [[w h] prgb pal pix | [w h] pix | sz];
    cbn [well_formed_image image_depth]; [auto | auto | intros []].
Qed.

Lemma image_size_well_formed (img : pil_image) :
  well_formed_image img ->
  0 <= fst (image_size img) < 2 ^ 31 /\ 0 <= snd (image_size img) < 2 ^ 31.
Proof.
  destruct img as [[w h] prgb pal pix | [w h] pix | sz];
    cbn [well_formed_image image_size fst snd].
  - intros (_ & _ & _ & Hw & Hh & _). split; assumption.
  - intros (Hw & Hh & _). split; assumption.
  - intros [].
Qed.

(** X9. In lenient mode the round trip succeeds for every image [pack] is
    written for, whatever the length of its palette and for either setting
    of the palette flag: for positive sizes, a width that is a multiple of 4
    and a file size below 2^32, [unpack] returns the bitmap with the image's
    width, height and depth, the pixel array [pack] stored, and the table
    [pack] stored (for depth 8, or on request for depth 24, then with a
    colour count of 256). *)
Theorem pack_unpack_lenient (img : pil_image) (aip : bool) :
  let w := fst (image_size img) in
  let h := snd (image_size img) in
  let d := image_depth img in
  well_formed_image img ->
  0 < w -> 0 < h -> w mod 4 = 0 ->
  14 + 40 + 1024 + d / 8 * w * h < 2 ^ 32 ->
  exists r : bytes,
    pack_image img = Ok r
    /\ unpack r false aip
       = Ok (bmp_file w h d (if (d =? 24) && aip then 256 else 0)
               (if (d =? 8) || aip then image_table img else [])
               (image_pixels img)).
Proof.
  intros w h d Hwf Hw Hh Hw4 Hsize.
  eexists. split; [apply pack_image_well_formed; exact Hwf|].
  pose proof (len_image_table img Hwf) as HT.
  pose proof (len_image_pixels img Hwf) as HP.
  destruct (image_size_well_formed img Hwf) as [Rw Rh].
  pose proof (image_depth_well_formed img Hwf) as Hd.
  fold w h d in HP, Rw, Rh, Hd |- *.
  clearbody w h d.
  apply unpack_canonical_flags; try assumption; try lia.
  - destruct Hd as [-> | ->];
      [change (8 / 8) with 1 | change (24 / 8) with 3].
    + rewrite Z.mul_1_l. exact Hw4.
    + rewrite <- Z.mul_mod_idemp_r, Hw4 by lia. reflexivity.
  - pose proof (len_nonneg (image_table img)).
    destruct ((d =? 8) || aip); [|change (len []) with 0]; lia.
Qed.

Lemma pack_unpack_lenient_witness :
  exists r : bytes,
    pack_image sample_short_palette_image = Ok r
    /\ unpack r false false
       = Ok (bmp_file 4 4 8 0 (image_table sample_short_palette_image)
               (image_pixels sample_short_palette_image)).
Proof.
  apply (pack_unpack_lenient sample_short_palette_image false);
    vm_compute; first [reflexivity | repeat split; congruence].
Defined.

Lemma reserved_nonzero_ljust (pil_palette : list byte) :
  len pil_palette mod 3 = 0 -> len pil_palette < 3 * 256 ->
  reserved_nonzero (ljust (palette_table pil_palette) 0x400).
Proof.
  intros Hm Hl. pose proof (len_nonneg pil_palette) as Hn.
  pose proof (len_palette_table_div pil_palette) as HT.
  assert (Hq : len pil_palette = 3 * (len pil_palette / 3))
    by (apply Z.div_exact; lia).
  assert (Hd : (len pil_palette + 2) / 3 = len pil_palette / 3).
  { rewrite Hq at 1.
    replace (3 * (len pil_palette / 3) + 2)
      with (2 + (len pil_palette / 3) * 3) by lia.
    rewrite Z.div_add by lia. reflexivity. }
  rewrite Hd in HT.
  exists (Z.to_nat (len pil_palette / 3)), x20. split; [|discriminate].
  unfold ljust. unfold len in *.
  rewrite nth_error_app2 by lia.
  rewrite nth_error_repeat; [reflexivity | lia].
Qed.

(** X10. In strict mode the round trip fails for every palette image with fewer
    than 256 colours: [pack] accepts the image, and [unpack] rejects the
    container with InvalidBitmap under either setting of the palette flag,
    because the unused table entries hold the fill byte 0x20. *)
Theorem pack_unpack_short_palettes (w h : Z) (pal pix : list byte) (aip : bool) :
  well_formed_image (ImageP (w, h) true pal pix) ->
  len pal < 3 * 256 ->
  exists r : bytes,
    pack_image (ImageP (w, h) true pal pix) = Ok r
    /\ unpack r true aip = Err InvalidBitmapError.
Proof.
  intros Hwf Hshort.
  eexists. split; [apply pack_image_well_formed; exact Hwf|].
  pose proof (len_image_table _ Hwf) as HT.
  destruct Hwf as (_ & Hm & _ & Hw & Hh & Hp).
  cbn [image_size image_depth image_table image_pixels fst snd] in *.
  set (T := ljust (palette_table pal) 0x400) in *.
  set (P := bottom_up (index_rows w h pix)).
  set (out := canonical_layout w h 8 T P).
  destruct (canonical_layout_values w h 8 T P HT ltac:(lia) ltac:(lia)
              ltac:(lia))
    as (V1 & V2 & V3 & V4 & V5 & V6 & V7 & V8).
  destruct (canonical_layout_fields w h 8 T P HT)
    as (_ & _ & _ & F3 & _).
  pose proof (len_canonical_layout w h 8 T P HT) as Hlen.
  fold out in V1, V2, V3, V4, V5, V6, V7, V8, F3, Hlen.
  pose proof (len_nonneg P) as HP0.
  assert (Hhdr : unpack_header out false
                 = Ok (mk_header 0 10001 0 0 0 0x004 0x420 w h 8)).
  { rewrite unpack_header_ok; unfold deobfuscate;
      rewrite ?V5, ?V6, ?V7, ?V8, ?V4; cbn [Z.land];
      change (4 * (0 - 0) + 0x004) with 0x004;
      change (4 * (0 - 0) + 0x420) with 0x420;
      rewrite ?V1, ?V2, ?V3, ?Z.sub_0_r; try lia; try reflexivity. }
  assert (Htab : unpack_color_table out 8 false aip = Ok (T, 0)).
  { unfold unpack_color_table. cbn [Z.eqb Pos.eqb bind andb].
    rewrite slice_table, F3 by lia. reflexivity. }
  unfold unpack.
  destruct (unpack_header_strict out _ Hhdr) as [-> | ->]; [|reflexivity].
  cbn [bind img_color_depth].
  rewrite (unpack_color_table_strict _ _ _ _ _ Htab
             (reserved_nonzero_ljust pal Hm Hshort)).
  reflexivity.
Qed.

Lemma pack_unpack_short_palettes_witness :
  exists r : bytes,
    pack_image (ImageP (8, 4) true [x01; x02; x03; x04; x05; x06]
                  (repeat x01 32)) = Ok r
    /\ unpack r true false = Err InvalidBitmapError.
Proof.
  apply (pack_unpack_short_palettes 8 4 [x01; x02; x03; x04; x05; x06]
           (repeat x01 32) false);
    vm_compute; first [reflexivity | repeat split; congruence].
Defined.

(** ** Truncated containers *)

Lemma field_firstn (k n : nat) (b : bytes) (off : Z) :
  (Z.to_nat off + k <= n)%nat ->
  field k (firstn n b) off = field k b off.
Proof.
  intros H. unfold field.
  rewrite skipn_firstn_comm, firstn_firstn. f_equal. lia.
Qed.

Lemma len_firstn (n : nat) (b : bytes) :
  (n <= length b)%nat -> len (firstn n b) = Z.of_nat n.
Proof.
  intros H. unfold len. rewrite length_firstn. lia.
Qed.

(** X11. Every proper prefix of a container [pack] returned for an image it is
    written for is rejected by the lenient decoder with the Incomplete
    error, whatever the palette flag. *)
Theorem unpack_truncated (img : pil_image) (out : bytes) (n : nat) (aip : bool) :
  well_formed_image img ->
  pack_image img = Ok out ->
  (n < length out)%nat ->
  unpack (firstn n out) false aip = Err IncompleteSotESResourceError.
Proof.
  intros Hwf Hpack Hn.
  rewrite (pack_image_well_formed img Hwf) in Hpack. injection Hpack as <-.
  pose proof (len_image_table img Hwf) as HT.
  pose proof (len_image_pixels img Hwf) as HP.
  destruct (image_size_well_formed img Hwf) as [Rw Rh].
  pose proof (image_depth_well_formed img Hwf) as Hd.
  set (w := fst (image_size img)) in *.
  set (h := snd (image_size img)) in *.
  set (d := image_depth img) in *.
  set (T := image_table img) in *.
  set (P := image_pixels img) in *.
  set (out := canonical_layout w h d T P) in *.
  set (b := firstn n out).
  pose proof (len_canonical_layout w h d T P HT) as Hlen. fold out in Hlen.
  assert (Hb : len b = Z.of_nat n) by (apply len_firstn; lia).
  destruct (Z_lt_ge_dec (Z.of_nat n) 0x458) as [Hshort | Hlong].
  - unfold unpack, unpack_header. rewrite Hb.
    destruct (Z.of_nat n <? 0x458) eqn:E; [reflexivity | lia].
  - assert (Hdr : 0 <= d < 2 ^ 16 /\ 0 < d / 8)
      by (clearbody d; destruct Hd as [-> | ->]; cbn; lia).
    destruct (canonical_layout_values w h d T P HT ltac:(lia) ltac:(lia)
                (proj1 Hdr))
      as (V1 & V2 & V3 & V4 & V5 & V6 & V7 & V8).
    fold out in V1, V2, V3, V4, V5, V6, V7, V8.
    assert (F4 : forall off, 0 <= off -> off + 4 <= 0x458 ->
                             u32le b off = u32le out off).
    { intros off H0 H1. unfold u32le, b. rewrite field_firstn by lia.
      reflexivity. }
    assert (F2 : u16le b 0x430 = u16le out 0x430).
    { unfold u16le, b. rewrite field_firstn by lia. reflexivity. }
    assert (Hhdr : unpack_header b false
                   = Ok (mk_header 0 10001 0 0 0 0x004 0x420 w h d)).
    { rewrite unpack_header_ok; unfold deobfuscate, i32le;
        rewrite ?F2, ?(F4 0x448), ?(F4 0x438), ?(F4 0x450), ?(F4 0x440),
          ?(F4 0x018) by lia;
        rewrite ?V5, ?V6, ?V7, ?V8, ?V4; cbn [Z.land];
        change (4 * (0 - 0) + 0x004) with 0x004;
        change (4 * (0 - 0) + 0x420) with 0x420;
        rewrite ?(F4 0x004), ?(F4 0x420) by lia;
        fold (i32le out 0x004); fold (i32le out 0x420);
        rewrite ?V1, ?V2, ?V3, ?Z.sub_0_r; try lia; try reflexivity. }
    unfold unpack. rewrite Hhdr. cbn [bind img_color_depth].
    assert (Htab : exists T' n', unpack_color_table b d false aip = Ok (T', n')).
    { unfold unpack_color_table. clearbody d.
      destruct Hd as [-> | ->]; cbn [Z.eqb Pos.eqb bind andb];
        [|destruct aip; cbn [negb bind andb]]; eauto. }
    destruct Htab as (T' & n' & ->). cbn [bind].
    unfold unpack_pixel_array.
    cbn [pix_off_key img_color_depth img_width img_height].
    rewrite !Z.abs_eq by lia.
    branch E; [reflexivity|]. apply Z.ltb_ge in E.
    unfold len in Hb, Hlen, HP, E. lia.
Qed.

Lemma unpack_truncated_witness :
  unpack (firstn 1120 (packed sample_rgb_image)) false false
  = Err IncompleteSotESResourceError.
Proof.
  apply (unpack_truncated sample_rgb_image (packed sample_rgb_image) 1120 false).
  - vm_compute. repeat split; congruence.
  - vm_compute. reflexivity.
  - vm_compute. repeat constructor.
Defined.

(** ** The strict round trip *)

Lemma every_fourth_In {A : Type} (l : list A) (x : A) :
  In x (every_fourth l) -> In x l.
Proof.
  assert (G : forall n l', (length l' <= n)%nat ->
                           In x (every_fourth l') -> In x l').
  { induction n as [|n IH]; intros l' Hl Hin.
    - destruct l'; [exact Hin | simpl in Hl; lia].
    - destruct l' as [|a [|a' [|a'' [|y r]]]]; try (destruct Hin).
      + subst. right. right. right. left. reflexivity.
      + do 4 right. apply IH; [simpl in Hl; lia | assumption]. }
  apply (G (length l)). lia.
Qed.

Lemma every_fourth_Forall {A : Type} (Q : A -> Prop) (l : list A) :
  Forall Q l -> Forall Q (every_fourth l).
Proof.
  intros H. apply Forall_forall. intros x Hx.
  apply every_fourth_In in Hx. revert x Hx. apply Forall_forall. exact H.
Qed.

Lemma image_table_reserved_zero (img : pil_image) :
  well_formed_image img -> full_table img ->
  Forall (fun x => x = x00) (every_fourth (image_table img)).
Proof.
  destruct img as [[w h] prgb pal pix | [w h] pix | sz];
    cbn [well_formed_image full_table image_table].
  - intros _ Hfull. unfold ljust.
    rewrite len_palette_table by exact Hfull.
    cbn [Z.sub Z.to_nat repeat Z.opp Z.add Z.pos_sub]. rewrite app_nil_r.
    unfold palette_table. apply every_fourth_entries.
    intros o. do 3 eexists. reflexivity.
  - intros _ _. apply every_fourth_Forall. apply Forall_forall.
    intros x Hx. apply repeat_spec in Hx. exact Hx.
  - intros [].
Qed.

(** X12. In strict mode the round trip succeeds for every RGB image and every
    palette image with all 256 colours, for either setting of the palette
    flag: for positive sizes, a width that is a multiple of 4 and a file size
    below 2^32, [unpack] returns the bitmap with the image's width, height
    and depth, the table [pack] stored (for depth 8, or on request for depth
    24) and the pixel array [pack] stored. *)
Theorem pack_unpack_strict (img : pil_image) (aip : bool) :
  let w := fst (image_size img) in
  let h := snd (image_size img) in
  let d := image_depth img in
  well_formed_image img -> full_table img ->
  0 < w -> 0 < h -> w mod 4 = 0 ->
  14 + 40 + 1024 + d / 8 * w * h < 2 ^ 32 ->
  exists r : bytes,
    pack_image img = Ok r
    /\ unpack r true aip
       = Ok (bmp_file w h d (if (d =? 24) && aip then 256 else 0)
               (if (d =? 8) || aip then image_table img else [])
               (image_pixels img)).
Proof.
  intros w h d Hwf Hfull Hw Hh Hw4 Hsize.
  eexists. split; [apply pack_image_well_formed; exact Hwf|].
  pose proof (len_image_table img Hwf) as HT.
  pose proof (len_image_pixels img Hwf) as HP.
  pose proof (image_table_reserved_zero img Hwf Hfull) as Hz.
  destruct (image_size_well_formed img Hwf) as [Rw Rh].
  pose proof (image_depth_well_formed img Hwf) as Hd.
  fold w h d in HP, Rw, Rh, Hd |- *.
  clearbody w h d.
  apply unpack_canonical_flags; try assumption; try lia.
  - intros _. destruct ((d =? 8) || aip); [exact Hz | constructor].
  - destruct Hd as [-> | ->];
      [change (8 / 8) with 1 | change (24 / 8) with 3].
    + rewrite Z.mul_1_l. exact Hw4.
    + rewrite <- Z.mul_mod_idemp_r, Hw4 by lia. reflexivity.
  - pose proof (len_nonneg (image_table img)).
    destruct ((d =? 8) || aip); [|change (len []) with 0]; lia.
Qed.

Lemma pack_unpack_strict_witness :
  exists r : bytes,
    pack_image sample_rgb_image = Ok r
    /\ unpack r true true
       = Ok (bmp_file 4 4 24 256 (image_table sample_rgb_image)
               (image_pixels sample_rgb_image)).
Proof.
  apply (pack_unpack_strict sample_rgb_image true);
    vm_compute; first [reflexivity | exact I | repeat split; congruence].
Defined.

(** ** Where [pack] stores a pixel *)

Lemma nth_error_concat_const {A : Type} (n : nat) (ls : list (list A))
    (j x : nat) :
  Forall (fun l => length l = n) ls -> (x < n)%nat ->
  nth_error (concat ls) (j * n + x)
  = match nth_error ls j with
    | Some l => nth_error l x
    | None => None
    end.
Proof.
  intros HF Hx. revert j. induction HF as [|l ls Hl _ IH]; intros j.
  - destruct j; cbn [concat nth_error];
      destruct (_ + x)%nat; reflexivity.
  - cbn [concat]. destruct j as [|j].
    + cbn [Nat.mul Nat.add nth_error]. apply nth_error_app1. lia.
    + cbn [nth_error]. rewrite nth_error_app2 by lia.
      replace (S j * n + x - length l)%nat with (j * n + x)%nat by lia.
      apply IH.
Qed.

Lemma nth_error_range (n : Z) (i : nat) :
  Z.of_nat i < n -> nth_error (range n) i = Some (Z.of_nat i).
Proof.
  intros H. unfold range.
  rewrite nth_error_map, nth_error_seq.
  destruct (Nat.ltb_spec i (Z.to_nat n)) as [_|Hge]; [reflexivity | lia].
Qed.

(** Row [y] of the image is row [rows - 1 - y] of the bottom-up array. *)
Lemma nth_error_bottom_up (n : nat) (rows : list bytes) (y x : nat) :
  Forall (fun s => length s = n) rows ->
  (y < length rows)%nat -> (x < n)%nat ->
  nth_error (bottom_up rows) ((length rows - 1 - y) * n + x)
  = match nth_error rows y with
    | Some s => nth_error s x
    | None => None
    end.
Proof.
  intros HF Hy Hx. unfold bottom_up.
  rewrite (nth_error_concat_const n) by (try apply Forall_rev; assumption).
  rewrite nth_error_rev.
  destruct (Nat.ltb_spec (length rows - 1 - y) (length rows)) as [_|Hge];
    [|lia].
  replace (length rows - S (length rows - 1 - y))%nat with y by lia.
  reflexivity.
Qed.

(** The pixel array of a palette image: the index of the pixel in column
    [x] of row [y], from the top, is in row [h - 1 - y] of the array. *)
Lemma nth_error_index_pixels (w h : Z) (pix : list byte) (x y : nat) :
  0 <= w -> 0 <= h -> len pix = w * h ->
  Z.of_nat x < w -> Z.of_nat y < h ->
  nth_error (bottom_up (index_rows w h pix))
    ((Z.to_nat h - 1 - y) * Z.to_nat w + x)
  = nth_error pix (y * Z.to_nat w + x).
Proof.
  intros Hw Hh Hp Hx Hy.
  assert (HF : Forall (fun s => length s = Z.to_nat w) (index_rows w h pix)).
  { apply Forall_forall. intros s Hs. unfold index_rows in Hs.
    apply in_map_iff in Hs as (i & <- & Hi). apply in_range in Hi.
    unfold field. apply length_chunk. unfold len in Hp. nia. }
  assert (HL : length (index_rows w h pix) = Z.to_nat h).
  { unfold index_rows, range. rewrite !length_map, length_seq. reflexivity. }
  rewrite <- HL at 1.
  rewrite (nth_error_bottom_up (Z.to_nat w)) by (assumption || lia).
  unfold index_rows. rewrite nth_error_map, nth_error_range by lia.
  cbn [option_map]. unfold field.
  rewrite nth_error_firstn.
  destruct (Nat.ltb_spec x (Z.to_nat w)) as [_|Hge]; [|lia].
  rewrite nth_error_skipn. f_equal. nia.
Qed.

(** X13. For a palette image [pack] stores the rows bottom-up, one byte per
    pixel: the palette index of the pixel in column [x] of row [y] (from the
    top) is the byte at offset 0x458 + (h - 1 - y) * w + x of the container. *)
Theorem pack_palette_pixel (w h : Z) (pal pix : list byte) (x y : nat) :
  well_formed_image (ImageP (w, h) true pal pix) ->
  Z.of_nat x < w -> Z.of_nat y < h ->
  exists out : bytes,
    pack_image (ImageP (w, h) true pal pix) = Ok out
    /\ nth_error out (0x458 + (Z.to_nat h - 1 - y) * Z.to_nat w + x)
       = nth_error pix (y * Z.to_nat w + x).
Proof.
  intros Hwf Hx Hy.
  eexists. split; [apply pack_image_well_formed; exact Hwf|].
  pose proof (len_image_table _ Hwf) as HT.
  destruct Hwf as (_ & _ & _ & Hw & Hh & Hp).
  cbn [image_size image_depth image_table image_pixels fst snd] in *.
  destruct (canonical_layout_fields w h 8 (ljust (palette_table pal) 0x400)
              (bottom_up (index_rows w h pix)) HT)
    as (_ & _ & _ & _ & _ & _ & _ & _ & _ & _ & F10).
  change (Z.to_nat 0x458) with 1112%nat in F10.
  change 0x458%nat with 1112%nat.
  rewrite <- Nat.add_assoc, <- nth_error_skipn, F10.
  apply nth_error_index_pixels; (assumption || lia).
Qed.

Lemma pack_palette_pixel_witness :
  exists out : bytes,
    pack_image sample_full_palette_image = Ok out
    /\ nth_error out (0x458 + (Z.to_nat 4 - 1 - 1) * Z.to_nat 4 + 2)
       = nth_error sample_pixels (1 * Z.to_nat 4 + 2).
Proof.
  apply (pack_palette_pixel 4 4 full_palette sample_pixels 2 1);
    vm_compute; first [reflexivity | repeat split; congruence].
Defined.

(** The pixel array of an RGB image: the pixel in column [x] of row [y],
    from the top, is in row [h - 1 - y] of the array, as blue, green, red. *)
Lemma nth_error_rgb_pixels (w h : Z) (pix : list (byte * byte * byte))
    (x y c : nat) (r g b : byte) :
  0 <= w -> 0 <= h ->
  Z.of_nat x < w -> Z.of_nat y < h -> (c < 3)%nat ->
  nth_error pix (y * Z.to_nat w + x) = Some (r, g, b) ->
  nth_error (bottom_up (rgb_rows w h pix))
    ((Z.to_nat h - 1 - y) * (3 * Z.to_nat w) + (x * 3 + c))
  = nth_error [b; g; r] c.
Proof.
  intros Hw Hh Hx Hy Hc Hpx.
  set (triple := fun j : Z =>
                   let '(r, g, b) :=
                     nth (Z.to_nat (Z.of_nat y * w + j)) pix (x00, x00, x00) in
                   [b; g; r]).
  assert (HF : Forall (fun s => length s = (3 * Z.to_nat w)%nat)
                 (rgb_rows w h pix)).
  { apply Forall_forall. intros s Hs. unfold rgb_rows in Hs.
    apply in_map_iff in Hs as (i & <- & Hi).
    rewrite (length_concat_const 3).
    - unfold range. rewrite !length_map, length_seq. reflexivity.
    - apply Forall_forall. intros t Ht.
      apply in_map_iff in Ht as (j & <- & _).
      destruct (nth _ pix _) as [[r' g'] b']. reflexivity. }
  assert (HL : length (rgb_rows w h pix) = Z.to_nat h).
  { unfold rgb_rows, range. rewrite !length_map, length_seq. reflexivity. }
  assert (Hrow : nth_error (rgb_rows w h pix) y
                 = Some (concat (map triple (range w)))).
  { unfold rgb_rows. rewrite nth_error_map, nth_error_range by lia.
    reflexivity. }
  assert (Htri : nth_error (map triple (range w)) x = Some [b; g; r]).
  { rewrite nth_error_map, nth_error_range by lia. cbn [option_map].
    unfold triple. f_equal.
    replace (Z.to_nat (Z.of_nat y * w + Z.of_nat x))
      with (y * Z.to_nat w + x)%nat by nia.
    rewrite (nth_error_nth _ _ _ Hpx). reflexivity. }
  assert (HF3 : Forall (fun t => length t = 3%nat) (map triple (range w))).
  { apply Forall_forall. intros t Ht.
    apply in_map_iff in Ht as (j & <- & _). unfold triple.
    destruct (nth _ pix _) as [[r' g'] b']. reflexivity. }
  rewrite <- HL at 1.
  rewrite (nth_error_bottom_up (3 * Z.to_nat w)) by (assumption || lia).
  rewrite Hrow, (nth_error_concat_const 3) by assumption.
  rewrite Htri. reflexivity.
Qed.

(** X14. For an RGB image [pack] stores the rows bottom-up with three bytes per
    pixel in the order blue, green, red: they start at offset
    0x458 + 3 * ((h - 1 - y) * w + x) of the container. *)
Theorem pack_rgb_pixel (w h : Z) (pix : list (byte * byte * byte))
    (x y : nat) (r g b : byte) :
  well_formed_image (ImageRGB (w, h) pix) ->
  Z.of_nat x < w -> Z.of_nat y < h ->
  nth_error pix (y * Z.to_nat w + x) = Some (r, g, b) ->
  exists out : bytes,
    pack_image (ImageRGB (w, h) pix) = Ok out
    /\ let o := (0x458 + (Z.to_nat h - 1 - y) * (3 * Z.to_nat w) + 3 * x)%nat in
       nth_error out o = Some b
       /\ nth_error out (o + 1) = Some g
       /\ nth_error out (o + 2) = Some r.
Proof.
  intros Hwf Hx Hy Hpx.
  eexists. split; [apply pack_image_well_formed; exact Hwf|].
  pose proof (len_image_table _ Hwf) as HT.
  destruct Hwf as (Hw & Hh & Hp).
  cbn [image_size image_depth image_table image_pixels fst snd] in *.
  destruct (canonical_layout_fields w h 24 (zeros 0x400)
              (bottom_up (rgb_rows w h pix)) HT)
    as (_ & _ & _ & _ & _ & _ & _ & _ & _ & _ & F10).
  change (Z.to_nat 0x458) with 1112%nat in F10.
  change 0x458%nat with 1112%nat.
  assert (G : forall c, (c < 3)%nat ->
              nth_error (canonical_layout w h 24 (zeros 0x400)
                           (bottom_up (rgb_rows w h pix)))
                (1112 + (Z.to_nat h - 1 - y) * (3 * Z.to_nat w) + 3 * x + c)
              = nth_error [b; g; r] c).
  { intros c Hc.
    replace (1112 + (Z.to_nat h - 1 - y) * (3 * Z.to_nat w) + 3 * x + c)%nat
      with (1112 + ((Z.to_nat h - 1 - y) * (3 * Z.to_nat w) + (x * 3 + c)))%nat
      by lia.
    rewrite <- nth_error_skipn, F10.
    apply nth_error_rgb_pixels; (assumption || lia). }
  cbv zeta. split; [|split].
  - rewrite <- (Nat.add_0_r (_ + 3 * x)). apply (G 0%nat). lia.
  - apply (G 1%nat). lia.
  - apply (G 2%nat). lia.
Qed.

Lemma pack_rgb_pixel_witness :
  exists out : bytes,
    pack_image sample_rgb_image = Ok out
    /\ let o := (0x458 + (Z.to_nat 4 - 1 - 1) * (3 * Z.to_nat 4) + 3 * 2)%nat in
       nth_error out o = Some (byte_of 206)
       /\ nth_error out (o + 1) = Some (byte_of 106)
       /\ nth_error out (o + 2) = Some (byte_of 6).
Proof.
  apply (pack_rgb_pixel 4 4 _ 2 1 (byte_of 6) (byte_of 106) (byte_of 206));
    vm_compute; first [reflexivity | repeat split; congruence].
Defined.

Lemma nth_error_table (out T : bytes) (i : nat) :
  field 1024 out 0x20 = T -> (i < 1024)%nat ->
  nth_error out (32 + i) = nth_error T i.
Proof.
  intros <- Hi. unfold field. rewrite nth_error_firstn.
  destruct (Nat.ltb_spec i 1024) as [_|Hge]; [|lia].
  rewrite nth_error_skipn. reflexivity.
Qed.

(** The colour table of a palette image: four bytes per colour, then the
    fill bytes. *)
Lemma nth_error_palette_table (pal : list byte) (k c : nat) :
  len pal mod 3 = 0 -> len pal <= 3 * 256 ->
  (k < 256)%nat -> (c < 4)%nat ->
  nth_error (ljust (palette_table pal) 0x400) (4 * k + c)
  = if Z.of_nat k <? len pal / 3
    then nth_error [nth (3 * k + 2) pal x00; nth (3 * k + 1) pal x00;
                    nth (3 * k) pal x00; x00] c
    else Some x20.
Proof.
  intros Hm Hl Hk Hc.
  pose proof (len_nonneg pal) as Hn.
  pose proof (len_palette_table_div pal) as HlenT.
  assert (Hq : len pal = 3 * (len pal / 3)) by (apply Z.div_exact; lia).
  assert (Hd : (len pal + 2) / 3 = len pal / 3).
  { rewrite Hq at 1.
    replace (3 * (len pal / 3) + 2) with (2 + (len pal / 3) * 3) by lia.
    rewrite Z.div_add by lia. reflexivity. }
  rewrite Hd in HlenT. unfold ljust.
  destruct (Z.of_nat k <? len pal / 3) eqn:E.
  - apply Z.ltb_lt in E.
    rewrite nth_error_app1 by (unfold len in *; lia).
    unfold palette_table.
    replace (4 * k + c)%nat with (k * 4 + c)%nat by lia.
    rewrite (nth_error_concat_const 4).
    + unfold range3. rewrite map_map, nth_error_map, nth_error_seq.
      destruct (Nat.ltb_spec k (Z.to_nat ((len pal + 2) / 3))) as [_|Hge];
        [|lia].
      cbn [option_map Nat.add].
      replace (Z.to_nat (3 * Z.of_nat k + 2)) with (3 * k + 2)%nat by lia.
      replace (Z.to_nat (3 * Z.of_nat k + 1)) with (3 * k + 1)%nat by lia.
      replace (Z.to_nat (3 * Z.of_nat k)) with (3 * k)%nat by lia.
      reflexivity.
    + apply Forall_forall. intros s Hs.
      apply in_map_iff in Hs as (o & <- & _). reflexivity.
    + exact Hc.
  - apply Z.ltb_ge in E.
    rewrite nth_error_app2 by (unfold len in *; lia).
    apply nth_error_repeat. unfold len in *. lia.
Qed.

(** X15. The colour table [pack] stores for a palette image: colour [k] of the
    palette occupies the four bytes from offset 0x20 + 4k on as blue,
    green, red, 0, and every entry after the last colour consists of four
    fill bytes 0x20. *)
Theorem pack_palette_entry (w h : Z) (pal pix : list byte) (k c : nat) :
  well_formed_image (ImageP (w, h) true pal pix) ->
  (k < 256)%nat -> (c < 4)%nat ->
  exists out : bytes,
    pack_image (ImageP (w, h) true pal pix) = Ok out
    /\ nth_error out (0x20 + 4 * k + c)
       = if Z.of_nat k <? len pal / 3
         then nth_error [nth (3 * k + 2) pal x00; nth (3 * k + 1) pal x00;
                         nth (3 * k) pal x00; x00] c
         else Some x20.
Proof.
  intros Hwf Hk Hc.
  eexists. split; [apply pack_image_well_formed; exact Hwf|].
  pose proof (len_image_table _ Hwf) as HT.
  destruct Hwf as (_ & Hm & Hl & Hw & Hh & Hp).
  cbn [image_size image_depth image_table image_pixels fst snd] in *.
  destruct (canonical_layout_fields w h 8 (ljust (palette_table pal) 0x400)
              (bottom_up (index_rows w h pix)) HT)
    as (_ & _ & _ & F3 & _).
  change 0x20%nat with 32%nat.
  rewrite <- Nat.add_assoc, (nth_error_table _ _ _ F3) by lia.
  apply nth_error_palette_table; assumption.
Qed.

Lemma pack_palette_entry_witness :
  exists out : bytes,
    pack_image sample_short_palette_image = Ok out
    /\ nth_error out (0x20 + 4 * 0 + 0)
       = if Z.of_nat 0 <? len [x01; x02; x03] / 3
         then nth_error [nth (3 * 0 + 2) [x01; x02; x03] x00;
                         nth (3 * 0 + 1) [x01; x02; x03] x00;
                         nth (3 * 0) [x01; x02; x03] x00; x00] 0
         else Some x20.
Proof.
  apply (pack_palette_entry 4 4 [x01; x02; x03] (repeat x00 16) 0 0).
  - vm_compute. repeat split; congruence.
  - lia.
  - lia.
Defined.

(** ** The batch driver *)

Lemma length_set_add {A : Type} (dec : forall a b : A, {a = b} + {a <> b})
    (a : A) (s : list A) :
  ~ In a s -> length (set_add dec a s) = S (length s).
Proof.
  induction s as [|x s IH]; intros Hn; cbn.
  - reflexivity.
  - destruct (dec a x) as [->|Hne].
    + exfalso. apply Hn. left. reflexivity.
    + cbn. rewrite IH; [reflexivity|]. intros Hi. apply Hn. right. exact Hi.
Qed.

Lemma in_dict_values_add {K V : Type}
    (K_dec : forall a b : K, {a = b} + {a <> b})
    (V_dec : forall a b : V, {a = b} + {a <> b})
    (k : K) (v x : V) (d : list (K * list V)) :
  In x (dict_values (dict_add K_dec V_dec k v d))
  <-> x = v \/ In x (dict_values d).
Proof.
  unfold dict_values. induction d as [|[k' vs] r IH]; cbn.
  - split; [intros [E | []]; left; symmetry; exact E
           | intros [E | []]; left; symmetry; exact E].
  - destruct (K_dec k k') as [_|_]; cbn; rewrite !in_app_iff.
    + rewrite set_add_iff. tauto.
    + rewrite IH. tauto.
Qed.

Lemma dict_count_add {K V : Type}
    (K_dec : forall a b : K, {a = b} + {a <> b})
    (V_dec : forall a b : V, {a = b} + {a <> b})
    (k : K) (v : V) (d : list (K * list V)) :
  ~ In v (dict_values d) ->
  dict_count (dict_add K_dec V_dec k v d) = S (dict_count d).
Proof.
  unfold dict_values, dict_count.
  induction d as [|[k' vs] r IH]; cbn; intros Hn.
  - reflexivity.
  - rewrite in_app_iff in Hn. destruct (K_dec k k') as [_|_]; cbn.
    + rewrite length_set_add by tauto. reflexivity.
    + rewrite IH by tauto. lia.
Qed.

Lemma plan_queue_snoc (H : host) (ow : bool) (s : fs H)
    (l : list (path H)) (a : path H) :
  plan_queue H ow s (l ++ [a])
  = plan_step H ow s (plan_queue H ow s l) a.
Proof. unfold plan_queue. rewrite fold_left_app. reflexivity. Qed.

(** What one turn of the queueing loop does: the file is refused, the
    queue unchanged; or it is appended, its output path new. *)
Lemma plan_step_cases (H : host) (ow : bool) (s : fs H)
    (st : plan_state H) (a : path H) :
  (exists m,
      plan_step H ow s st a
      = mk_plan_state (file_queue st) (seen_output_files st)
          (dict_add queue_message_eq_dec (path_eq_dec H) m a (queue_errors st))
      /\ (In (output_file_of H a) (seen_output_files st)
          \/ ow = false /\ path_exists H s (output_file_of H a) <> inr false))
  \/ (plan_step H ow s st a
      = mk_plan_state (file_queue st ++ [(a, output_file_of H a)])
          (set_add (path_eq_dec H) (output_file_of H a) (seen_output_files st))
          (queue_errors st)
      /\ ~ In (output_file_of H a) (seen_output_files st)
      /\ (ow = false -> path_exists H s (output_file_of H a) = inr false)).
Proof.
  unfold plan_step.
  destruct (in_dec _ _ _) as [Hi|Hn].
  - left. exists SameDestination. split; [reflexivity | left; exact Hi].
  - destruct ow; cbn [negb].
    + right. split; [reflexivity | split; [exact Hn | discriminate]].
    + destruct (path_exists H s (output_file_of H a)) as [e|[|]] eqn:E.
      * left. exists CannotValidate.
        split; [reflexivity | right; split; [reflexivity | discriminate]].
      * left. exists AlreadyExists.
        split; [reflexivity | right; split; [reflexivity | discriminate]].
      * right. split; [reflexivity | split; [exact Hn | reflexivity]].
Qed.

Lemma plan_queue_inv (H : host) (ow : bool) (s : fs H) (l : list (path H)) :
  NoDup (map snd (file_queue (plan_queue H ow s l)))
  /\ (forall o, In o (seen_output_files (plan_queue H ow s l))
                <-> In o (map snd (file_queue (plan_queue H ow s l))))
  /\ (forall i o, In (i, o) (file_queue (plan_queue H ow s l)) ->
                  In i l /\ o = output_file_of H i)
  /\ (ow = false -> forall i o,
        In (i, o) (file_queue (plan_queue H ow s l)) ->
        path_exists H s o = inr false)
  /\ (forall i, In i (dict_values (queue_errors (plan_queue H ow s l))) ->
                In i l).
Proof.
  induction l as [|a l IH] using rev_ind.
  - cbn. repeat split; try (intros; contradiction); try constructor.
  - rewrite plan_queue_snoc.
    destruct IH as (Hnd & Hseen & Hq & Hex & Herr).
    destruct (plan_step_cases H ow s (plan_queue H ow s l) a)
      as [(m & -> & _) | (-> & Hn & Hexa)]; cbn [file_queue seen_output_files queue_errors].
    + split; [exact Hnd|]. split; [exact Hseen|].
      split; [intros i o Hi; destruct (Hq i o Hi); split;
              [apply in_or_app; left; assumption | assumption]|].
      split; [exact Hex|].
      intros i Hi. apply in_dict_values_add in Hi. apply in_or_app.
      destruct Hi as [-> | Hi]; [right; left; reflexivity | left; auto].
    + rewrite map_app. cbn [map snd].
      split.
      { apply NoDup_app; [exact Hnd | repeat constructor; intros [] |].
        intros x Hx [<- | []]. apply Hn. apply Hseen. exact Hx. }
      split.
      { intros o. rewrite set_add_iff, in_app_iff, Hseen. cbn. intuition. }
      split.
      { intros i o Hi. apply in_app_or in Hi. destruct Hi as [Hi | [E | []]].
        - destruct (Hq i o Hi). split; [apply in_or_app; left|]; assumption.
        - injection E as <- <-. split; [|reflexivity].
          apply in_or_app. right. left. reflexivity. }
      split.
      { intros How i o Hi. apply in_app_or in Hi. destruct Hi as [Hi | [E | []]].
        - exact (Hex How i o Hi).
        - injection E as <- <-. exact (Hexa How). }
      intros i Hi. apply in_or_app. left. auto.
Qed.

(** X16. The queue holds no two files with the same destination, every entry
    is an input file with the destination derived from it and, unless
    overwriting was asked for, a destination that did not exist. *)
Theorem plan_queue_sound (H : host) (opt_overwrite : bool) (s : fs H)
    (input_files : list (path H)) :
  NoDup (map snd (file_queue (plan_queue H opt_overwrite s input_files)))
  /\ (forall input_file output_file,
        In (input_file, output_file)
           (file_queue (plan_queue H opt_overwrite s input_files)) ->
        In input_file input_files
        /\ output_file = output_file_of H input_file
        /\ (opt_overwrite = false ->
            path_exists H s output_file = inr false)).
Proof.
  destruct (plan_queue_inv H opt_overwrite s input_files)
    as (Hnd & _ & Hq & Hex & _).
  split; [exact Hnd|].
  intros i o Hi. destruct (Hq i o Hi) as [Hin Ho].
  split; [exact Hin|]. split; [exact Ho|].
  intros How. exact (Hex How i o Hi).
Qed.

Lemma plan_queue_count (H : host) (ow : bool) (s : fs H) (l : list (path H)) :
  NoDup l ->
  (length (file_queue (plan_queue H ow s l))
   + dict_count (queue_errors (plan_queue H ow s l)) = length l)%nat
  /\ (forall i, In i (dict_values (queue_errors (plan_queue H ow s l))) ->
                ~ In i (map fst (file_queue (plan_queue H ow s l)))).
Proof.
  induction l as [|a l IH] using rev_ind; intros Hnd.
  - split; [reflexivity | intros i []].
  - rewrite plan_queue_snoc.
    assert (Hl : NoDup l) by (apply NoDup_app_remove_r in Hnd; exact Hnd).
    assert (Ha : ~ In a l).
    { intros Hi. apply NoDup_remove_2 in Hnd. apply Hnd.
      rewrite app_nil_r. exact Hi. }
    destruct (IH Hl) as [IHc IHd].
    destruct (plan_queue_inv H ow s l) as (_ & _ & Hq & _ & Herr).
    assert (Hfst : forall i, In i (map fst (file_queue (plan_queue H ow s l)))
                             -> In i l).
    { intros i Hi. apply in_map_iff in Hi. destruct Hi as ([i' o] & <- & Hi).
      exact (proj1 (Hq i' o Hi)). }
    rewrite length_app. cbn [length].
    destruct (plan_step_cases H ow s (plan_queue H ow s l) a)
      as [(m & -> & _) | (-> & _ & _)]; cbn [file_queue queue_errors].
    + rewrite dict_count_add by (intros Hi; apply Ha; auto).
      split; [lia|].
      intros i Hi. apply in_dict_values_add in Hi.
      destruct Hi as [-> | Hi]; [intros Hi; apply Ha; auto | auto].
    + rewrite length_app. cbn [length]. split; [lia|].
      intros i Hi. rewrite map_app, in_app_iff. cbn.
      intros [Hq' | [<- | []]]; [exact (IHd i Hi Hq') | apply Ha; auto].
Qed.

(** X17. Every input file is queued or reported, never both and never
    twice: the two counts of the summary add up to the number of input
    files. *)
Theorem plan_queue_accounting (H : host) (opt_overwrite : bool) (s : fs H)
    (input_files : list (path H)) :
  NoDup input_files ->
  (length (file_queue (plan_queue H opt_overwrite s input_files))
   + dict_count (queue_errors (plan_queue H opt_overwrite s input_files))
   = length input_files)%nat
  /\ (forall input_file,
        In input_file
           (dict_values (queue_errors (plan_queue H opt_overwrite s input_files))) ->
        In input_file input_files
        /\ ~ In input_file
             (map fst (file_queue (plan_queue H opt_overwrite s input_files)))).
Proof.
  intros Hnd.
  destruct (plan_queue_count H opt_overwrite s input_files Hnd) as [Hc Hd].
  destruct (plan_queue_inv H opt_overwrite s input_files)
    as (_ & _ & _ & _ & Herr).
  split; [exact Hc|].
  intros i Hi. split; [exact (Herr i Hi) | exact (Hd i Hi)].
Qed.

Lemma plan_queue_accounting_witness :
  (length (file_queue (plan_queue sample_host false sample_fs [0; 1; 2]%nat))
   + dict_count
       (queue_errors (plan_queue sample_host false sample_fs [0; 1; 2]%nat))
   = length [0; 1; 2]%nat)%nat
  /\ (forall input_file,
        In input_file
           (dict_values
              (queue_errors
                 (plan_queue sample_host false sample_fs [0; 1; 2]%nat))) ->
        In input_file [0; 1; 2]%nat
        /\ ~ In input_file
             (map fst
                (file_queue
                   (plan_queue sample_host false sample_fs [0; 1; 2]%nat)))).
Proof.
  apply (plan_queue_accounting sample_host false sample_fs [0; 1; 2]%nat).
  repeat constructor; cbn; lia.
Defined.

(** X18. When overwriting is asked for and no two input files share a
    destination, every input file is queued, in the order given, and no
    queueing error is recorded. *)
Theorem plan_queue_overwrite (H : host) (s : fs H)
    (input_files : list (path H)) :
  NoDup (map (output_file_of H) input_files) ->
  file_queue (plan_queue H true s input_files)
  = map (fun input_file => (input_file, output_file_of H input_file))
      input_files
  /\ queue_errors (plan_queue H true s input_files) = [].
Proof.
  induction input_files as [|a l IH] using rev_ind; intros Hnd.
  - split; reflexivity.
  - rewrite plan_queue_snoc. rewrite map_app in Hnd.
    assert (Hl : NoDup (map (output_file_of H) l))
      by (apply NoDup_app_remove_r in Hnd; exact Hnd).
    assert (Ha : ~ In (output_file_of H a) (map (output_file_of H) l)).
    { intros Hi. apply NoDup_remove_2 in Hnd. apply Hnd.
      rewrite app_nil_r. exact Hi. }
    destruct (IH Hl) as [IHq IHe].
    destruct (plan_queue_inv H true s l) as (_ & Hseen & _ & _ & _).
    destruct (plan_step_cases H true s (plan_queue H true s l) a)
      as [(m & _ & [Hi | [Hf _]]) | (-> & _ & _)];
      cbn [file_queue queue_errors].
    + exfalso. apply Ha. apply Hseen in Hi. rewrite IHq, map_map in Hi.
      exact Hi.
    + discriminate.
    + rewrite IHq, map_app. split; [reflexivity | exact IHe].
Qed.

Lemma plan_queue_overwrite_witness :
  file_queue (plan_queue sample_host true sample_fs [0; 1; 2]%nat)
  = [(0, 100); (1, 101); (2, 102)]%nat
  /\ queue_errors (plan_queue sample_host true sample_fs [0; 1; 2]%nat) = [].
Proof.
  apply (plan_queue_overwrite sample_host sample_fs [0; 1; 2]%nat).
  repeat constructor; cbn; lia.
Defined.

(** ** Validation of the input paths *)

Lemma validated_ext (H : host) (C C' : path H -> Prop) (st : input_state H) :
  (forall f, C f <-> C' f) -> validated C st -> validated C' st.
Proof.
  intros HC (Hnd & Hseen & Hfile).
  split; [exact Hnd|]. split; [exact Hseen|].
  intros f. rewrite Hfile. apply HC.
Qed.

Lemma validated_add_file (H : host) (C : path H -> Prop)
    (st : input_state H) (file : path H) :
  validated C st ->
  validated (fun f => C f \/ f = file) (add_input_file H st file).
Proof.
  intros (Hnd & Hseen & Hfile). unfold add_input_file.
  destruct (in_dec _ _ _) as [Hi|Hn].
  - split; [exact Hnd|]. split; [exact Hseen|].
    intros f. rewrite Hfile. split; [auto|].
    intros [Hc | ->]; [exact Hc|]. apply Hfile, Hseen. exact Hi.
  - unfold validated. cbn [input_files seen_files].
    split.
    { apply NoDup_app; [exact Hnd | repeat constructor; intros [] |].
      intros x Hx [<- | []]. apply Hn. apply Hseen. exact Hx. }
    split.
    { intros f. rewrite set_add_iff, in_app_iff, Hseen. cbn. intuition. }
    intros f. rewrite in_app_iff, Hfile. cbn. intuition.
Qed.

Lemma validated_add_error (H : host) (C : path H -> Prop)
    (st : input_state H) (m : input_message H) (p : path H) :
  validated C st -> validated C (add_input_error H st m p).
Proof. intros Hv. exact Hv. Qed.

Lemma validated_sub_path (H : host) (W : walker H) (s : fs H)
    (C : path H -> Prop) (st : input_state H) (sub_path : path H) :
  validated C st ->
  validated
    (fun f => C f \/ (is_file W s sub_path = inr true
                      /\ resolve W s sub_path = inr f))
    (validate_sub_path H W s st sub_path).
Proof.
  intros Hv. unfold validate_sub_path.
  destruct (is_file W s sub_path) as [e|[|]] eqn:Ef.
  - apply validated_add_error. revert Hv. apply validated_ext.
    intros f. split; [auto | intros [Hc | [Hx _]]; [exact Hc | discriminate]].
  - destruct (resolve W s sub_path) as [e|sub_path'] eqn:Er.
    + apply validated_add_error. revert Hv. apply validated_ext.
      intros f. split; [auto | intros [Hc | [_ Hx]]; [exact Hc | discriminate]].
    + apply (validated_ext H (fun f => C f \/ f = sub_path'));
        [|apply validated_add_file; exact Hv].
      intros f. split.
      * intros [Hc | ->]; [left; exact Hc | right; split; reflexivity].
      * intros [Hc | [_ Hx]]; [left; exact Hc | right; congruence].
  - revert Hv. apply validated_ext.
    intros f. split; [auto | intros [Hc | [Hx _]]; [exact Hc | discriminate]].
Qed.

Lemma validated_sub_paths (H : host) (W : walker H) (s : fs H)
    (sub_paths : list (path H)) :
  forall (C : path H -> Prop) (st : input_state H),
  validated C st ->
  validated
    (fun f => C f \/ exists sub_path,
                       In sub_path sub_paths
                       /\ is_file W s sub_path = inr true
                       /\ resolve W s sub_path = inr f)
    (fold_left (validate_sub_path H W s) sub_paths st).
Proof.
  induction sub_paths as [|a l IH]; intros C st Hv; cbn [fold_left].
  - revert Hv. apply validated_ext.
    intros f. split; [auto | intros [Hc | (x & [] & _)]; exact Hc].
  - pose proof (IH _ _ (validated_sub_path H W s C st a Hv)) as Hf.
    revert Hf. apply validated_ext. intros f. split.
    + intros [[Hc | [Ha Hr]] | (x & Hx & Hfx & Hrx)].
      * left. exact Hc.
      * right. exists a. split; [left; reflexivity | split; assumption].
      * right. exists x. split; [right; exact Hx | split; assumption].
    + intros [Hc | (x & [<- | Hx] & Hfx & Hrx)].
      * left. left. exact Hc.
      * left. right. split; assumption.
      * right. exists x. split; [exact Hx | split; assumption].
Qed.

Lemma validated_path (H : host) (W : walker H) (s : fs H)
    (C : path H -> Prop) (st : input_state H) (input_path : path H) :
  validated C st ->
  validated (fun f => C f \/ listed_by W s input_path f)
    (validate_path H W s st input_path).
Proof.
  intros Hv. unfold validate_path.
  assert (Nothing : (forall f, ~ listed_by W s input_path f) ->
                    validated (fun f => C f \/ listed_by W s input_path f) st).
  { intros Hno. revert Hv. apply validated_ext.
    intros f. split; [auto | intros [Hc | Hl]; [exact Hc | elim (Hno f Hl)]]. }
  destruct (resolve W s input_path) as [e|d] eqn:Er.
  { apply validated_add_error, Nothing.
    intros f (d & Hd & _). congruence. }
  destruct (is_file W s d) as [e|[|]] eqn:Ef.
  - apply validated_add_error, Nothing.
    intros f (d' & Hd & [[Hx _] | [Hx _]]); congruence.
  - apply (validated_ext H (fun f => C f \/ f = d));
      [|apply validated_add_file; exact Hv].
    intros f. split.
    + intros [Hc | ->]; [left; exact Hc|].
      right. exists d. split; [exact Er|]. left. split; [exact Ef | reflexivity].
    + intros [Hc | (d' & Hd & [[_ ->] | [Hx _]])];
        [left; exact Hc | right; congruence | congruence].
  - destruct (is_dir W s d) as [e|[|]] eqn:Ed.
    + apply validated_add_error, Nothing.
      intros f (d' & Hd & [[Hx _] | [_ [Hx _]]]); congruence.
    + destruct (iterdir W s d) as [sub_paths failure] eqn:Ei.
      assert (Hf : validated (fun f => C f \/ listed_by W s input_path f)
                     (fold_left (validate_sub_path H W s) sub_paths st)).
      { pose proof (validated_sub_paths H W s sub_paths C st Hv) as Hf.
        revert Hf. apply validated_ext. intros f. split.
        - intros [Hc | (x & Hx & Hfx & Hrx)]; [left; exact Hc|].
          right. exists d. split; [exact Er|]. right.
          split; [exact Ef|]. split; [exact Ed|].
          exists x. rewrite Ei. cbn [fst]. split; [exact Hx | split; assumption].
        - intros [Hc | (d' & Hd & [[Hx _] | (_ & _ & x & Hx & Hfx & Hrx)])];
            [left; exact Hc | congruence |].
          right. exists x. assert (d' = d) by congruence. subst d'.
          rewrite Ei in Hx.
          split; [exact Hx | split; assumption]. }
      destruct failure; [apply validated_add_error|]; exact Hf.
    + assert (Hno : forall f, ~ listed_by W s input_path f).
      { intros f (d' & Hd & [[Hx _] | [_ [Hx _]]]); congruence. }
      destruct (path_exists H s d) as [e|[|]];
        apply validated_add_error, Nothing; exact Hno.
Qed.

Lemma validated_paths (H : host) (W : walker H) (s : fs H)
    (input_paths : list (path H)) :
  forall (C : path H -> Prop) (st : input_state H),
  validated C st ->
  validated
    (fun f => C f \/ exists input_path,
                       In input_path input_paths
                       /\ listed_by W s input_path f)
    (fold_left (validate_path H W s) input_paths st).
Proof.
  induction input_paths as [|a l IH]; intros C st Hv; cbn [fold_left].
  - revert Hv. apply validated_ext.
    intros f. split; [auto | intros [Hc | (x & [] & _)]; exact Hc].
  - pose proof (IH _ _ (validated_path H W s C st a Hv)) as Hf.
    revert Hf. apply validated_ext. intros f. split.
    + intros [[Hc | Ha] | (x & Hx & Hlx)].
      * left. exact Hc.
      * right. exists a. split; [left; reflexivity | exact Ha].
      * right. exists x. split; [right; exact Hx | exact Hlx].
    + intros [Hc | (x & [<- | Hx] & Hlx)].
      * left. left. exact Hc.
      * left. right. exact Hlx.
      * right. exists x. split; [exact Hx | exact Hlx].
Qed.

Lemma validate_paths_validated (H : host) (W : walker H) (s : fs H)
    (input_paths : list (path H)) :
  validated
    (fun f => exists input_path,
                In input_path input_paths /\ listed_by W s input_path f)
    (validate_paths H W s input_paths).
Proof.
  unfold validate_paths.
  apply (validated_ext H
           (fun f => False \/ exists input_path,
                                In input_path input_paths
                                /\ listed_by W s input_path f)).
  - intros f. split; [intros [[] | Hx]; exact Hx | auto].
  - apply validated_paths. unfold validated. cbn.
    split; [constructor|]. split; intros f; reflexivity.
Qed.


(** The files the validation lists are all accounted for by the queueing
    step: the two counts of its summary add up to their number. *)
Corollary validate_plan_accounting (H : host) (W : walker H)
    (opt_overwrite : bool) (s : fs H) (input_paths : list (path H)) :
  (length (file_queue
             (plan_queue H opt_overwrite s
                (input_files (validate_paths H W s input_paths))))
   + dict_count
       (queue_errors
          (plan_queue H opt_overwrite s
             (input_files (validate_paths H W s input_paths))))
   = length (input_files (validate_paths H W s input_paths)))%nat.
Proof.
  apply plan_queue_count.
  apply (validate_paths_validated H W s input_paths).
Qed.

(** ** Error kinds of [unpack] *)

Lemma bind_Err {A B : Type} (c : result A) (k : A -> result B) (e : error) :
  bind c k = Err e -> c = Err e \/ exists a, c = Ok a /\ k a = Err e.
Proof.
  destruct c as [a|e']; cbn [bind]; intros H.
  - right. exists a. split; [reflexivity | exact H].
  - left. injection H as <-. reflexivity.
Qed.

Lemma unpack_from_raw_Err (size : Z) (b : bytes) (off : Z) (e : error) :
  unpack_from_raw size b off = Err e -> e = StructError.
Proof.
  unfold unpack_from_raw. intros H.
  repeat match type of H with
         | (if ?c then _ else _) = Err _ => destruct c
         end;
    first [discriminate | injection H as <-; reflexivity].
Qed.

Lemma unpack_from_I_Err (b : bytes) (off : Z) (e : error) :
  unpack_from_I b off = Err e -> e = StructError.
Proof.
  unfold unpack_from_I. intros H. apply bind_Err in H.
  destruct H as [H | (a & _ & H)]; [|discriminate].
  exact (unpack_from_raw_Err _ _ _ _ H).
Qed.

Lemma unpack_from_i_Err (b : bytes) (off : Z) (e : error) :
  unpack_from_i b off = Err e -> e = StructError.
Proof.
  unfold unpack_from_i. intros H. apply bind_Err in H.
  destruct H as [H | (a & _ & H)]; [|discriminate].
  exact (unpack_from_raw_Err _ _ _ _ H).
Qed.

Lemma unpack_from_H_Err (b : bytes) (off : Z) (e : error) :
  unpack_from_H b off = Err e -> e = StructError.
Proof.
  unfold unpack_from_H. intros H. apply bind_Err in H.
  destruct H as [H | (a & _ & H)]; [|discriminate].
  exact (unpack_from_raw_Err _ _ _ _ H).
Qed.

Lemma unpack_header_kinds (b : bytes) (ac : bool) (e : error) :
  unpack_header b ac = Err e ->
  e = IncompleteSotESResourceError \/ e = SotESResourceValidationError
  \/ e = InvalidBitmapError \/ e = StructError.
Proof.
  unfold unpack_header. intros H.
  repeat first
    [ apply bind_Err in H;
      destruct H as [H | (? & _ & H)];
      [ first [ apply unpack_from_I_Err in H
              | apply unpack_from_i_Err in H
              | apply unpack_from_H_Err in H
              | apply pack_unsigned_Err in H
              | apply pack_signed_Err in H ];
        subst; auto 10 | ]
    | match type of H with
      | (if ?c then _ else _) = Err _ =>
          destruct c; [ injection H as <-; auto 10 | ]
      end ].
  discriminate.
Qed.

Lemma unpack_build_kinds (h : header) (T : bytes) (n : Z) (P : bytes)
    (e : error) :
  unpack_build h T n P = Err e -> e = StructError.
Proof.
  unfold unpack_build, pack_I, pack_i, pack_H. intros H.
  repeat first
    [ apply bind_Err in H;
      destruct H as [H | (? & _ & H)];
      [ first [ apply unpack_from_I_Err in H
              | apply unpack_from_i_Err in H
              | apply unpack_from_H_Err in H
              | apply pack_unsigned_Err in H
              | apply pack_signed_Err in H ];
        subst; auto 10 | ]
    | match type of H with
      | (if ?c then _ else _) = Err _ =>
          destruct c; [ injection H as <-; auto 10 | ]
      end ].
  discriminate.
Qed.

Lemma unpack_kinds (b : bytes) (ac aip : bool) (e : error) :
  unpack b ac aip = Err e ->
  e = IncompleteSotESResourceError \/ e = SotESResourceValidationError
  \/ e = InvalidBitmapError \/ e = UnsupportedBitmapError
  \/ e = StructError.
Proof.
  unfold unpack. intros H.
  apply bind_Err in H. destruct H as [H | (h & _ & H)].
  { apply unpack_header_kinds in H. intuition. }
  apply bind_Err in H. destruct H as [H | ([T n] & _ & H)].
  { apply unpack_color_table_errors in H. intuition. }
  apply bind_Err in H. destruct H as [H | (P & _ & H)].
  { apply unpack_pixel_array_errors in H. intuition. }
  apply unpack_build_kinds in H. intuition.
Qed.

(** X20. Whatever the input and the flags, a failure of [unpack] is one of
    five kinds: the four the module documents, or [struct.error]; it is an
    error the driver does not catch exactly when it is [struct.error]. *)
Theorem unpack_error_kinds (resource_data : bytes)
    (additional_checks always_include_palette : bool) (e : error) :
  unpack resource_data additional_checks always_include_palette = Err e ->
  (e = IncompleteSotESResourceError \/ e = SotESResourceValidationError
   \/ e = InvalidBitmapError \/ e = UnsupportedBitmapError
   \/ e = StructError)
  /\ (is_UnpackerError e = false <-> e = StructError).
Proof.
  intros H. pose proof (unpack_kinds _ _ _ _ H) as K. split; [exact K|].
  destruct K as [-> | [-> | [-> | [-> | ->]]]]; cbn;
    split; intros E; (reflexivity || discriminate).
Qed.

Lemma unpack_error_kinds_witness :
  unpack sample_low_width_index true false = Err StructError
  /\ (is_UnpackerError StructError = false <-> StructError = StructError).
Proof.
  split; [vm_compute; reflexivity|].
  apply (unpack_error_kinds sample_low_width_index true false StructError).
  vm_compute. reflexivity.
Defined.

(** ** The main loop *)

Lemma progress_single (input_index : Z) : progress input_index 1 = None.
Proof. reflexivity. Qed.

Lemma progress_Some (input_index queue_len : Z) :
  queue_len <> 1 ->
  progress input_index queue_len
  = Some (30 * input_index / (queue_len - 1)).
Proof.
  intros Hn. unfold progress.
  destruct (queue_len - 1 =? 0) eqn:E; [lia | reflexivity].
Qed.

Lemma progress_inv (input_index queue_len p : Z) :
  progress input_index queue_len = Some p ->
  queue_len <> 1 /\ p = 30 * input_index / (queue_len - 1).
Proof.
  unfold progress. destruct (queue_len - 1 =? 0) eqn:E; [discriminate|].
  intros Hp. injection Hp as <-. split; [lia | reflexivity].
Qed.

Lemma progress_bounds (input_index queue_len : Z) :
  2 <= queue_len -> 0 <= input_index < queue_len ->
  0 <= 30 * input_index / (queue_len - 1) <= 30.
Proof.
  intros Hn Hi. split.
  - apply Z.div_pos; lia.
  - apply Z.div_le_upper_bound; nia.
Qed.

Lemma progress_mono (i j queue_len : Z) :
  2 <= queue_len -> i <= j ->
  30 * i / (queue_len - 1) <= 30 * j / (queue_len - 1).
Proof. intros Hn Hij. apply Z.div_le_mono; lia. Qed.

Lemma progress_last (queue_len : Z) :
  2 <= queue_len -> 30 * (queue_len - 1) / (queue_len - 1) = 30.
Proof. intros Hn. apply Z.div_mul. lia. Qed.

Lemma len_progress_bar (p : Z) : 0 <= p <= 30 -> len (progress_bar p) = 30.
Proof.
  intros Hp. unfold progress_bar. apply len_ljust.
  unfold len. rewrite repeat_length. lia.
Qed.

(** X21. With two files or more in the queue, the progress value of every
    turn is defined and lies between 0 and 30, it never decreases from one
    turn to a later one, it is 0 at the first turn and 30 at the last, and
    the bar drawn for it is 30 characters wide. *)
Theorem progress_spec (queue_len i j : Z) :
  2 <= queue_len -> 0 <= i <= j -> j < queue_len ->
  exists p q,
    progress i queue_len = Some p /\ progress j queue_len = Some q
    /\ 0 <= p <= q /\ q <= 30
    /\ progress 0 queue_len = Some 0
    /\ progress (queue_len - 1) queue_len = Some 30
    /\ len (progress_bar p) = 30.
Proof.
  intros Hn Hij Hj.
  exists (30 * i / (queue_len - 1)), (30 * j / (queue_len - 1)).
  rewrite !progress_Some by lia.
  pose proof (progress_bounds i queue_len Hn ltac:(lia)) as Bi.
  pose proof (progress_bounds j queue_len Hn ltac:(lia)) as Bj.
  pose proof (progress_mono i j queue_len Hn ltac:(lia)) as M.
  repeat split; try lia.
  - rewrite progress_last by lia. reflexivity.
  - apply len_progress_bar. lia.
Qed.

Lemma progress_spec_witness :
  exists p q,
    progress 3 8 = Some p /\ progress 5 8 = Some q
    /\ 0 <= p <= q /\ q <= 30
    /\ progress 0 8 = Some 0
    /\ progress (8 - 1) 8 = Some 30
    /\ len (progress_bar p) = 30.
Proof. apply (progress_spec 8 3 5); lia. Defined.

Lemma process_file_exit (H : host) (action : Action) (PIL_AVAILABLE : bool)
    (image_open : bytes -> option pil_image) (ow : bool)
    (st : run_state H) (i o : path H) (x : loop_exit) :
  process_file H action PIL_AVAILABLE image_open ow st i o = inl x ->
  exists data e,
    x = Uncaught e /\ is_UnpackerError e = false
    /\ (ow = true \/ path_exists H (run_fs st) o = inr false)
    /\ read_bytes H (run_fs st) i = inr data
    /\ convert action PIL_AVAILABLE image_open data = Err e.
Proof.
  unfold process_file. intros Hx.
  assert (Hgo : ow = true \/ path_exists H (run_fs st) o = inr false).
  { destruct ow; [left; reflexivity | right].
    destruct (path_exists H (run_fs st) o) as [e|[|]];
      [discriminate | discriminate | reflexivity]. }
  destruct (if ow then _ else _) as [e|[|]]; [discriminate| |discriminate].
  destruct (read_bytes H (run_fs st) i) as [e|data]; [discriminate|].
  destruct (convert action PIL_AVAILABLE image_open data) as [out|e] eqn:Ec.
  - destruct (write_bytes H (run_fs st) o out); discriminate.
  - destruct (is_UnpackerError e) eqn:Eu; [discriminate|].
    injection Hx as <-. exists data, e. repeat split; auto.
Qed.

Lemma process_file_done (H : host) (action : Action) (PIL_AVAILABLE : bool)
    (image_open : bytes -> option pil_image) (ow : bool)
    (st st1 : run_state H) (i o : path H) :
  process_file H action PIL_AVAILABLE image_open ow st i o = inr st1 ->
  last_update st1 = last_update st /\ printed st1 = printed st
  /\ ((parsed_files st1 = set_add (pair_eq_dec H) (i, o) (parsed_files st)
       /\ parse_errors st1 = parse_errors st)
      \/ (parsed_files st1 = parsed_files st
          /\ exists m,
              parse_errors st1
              = dict_add (parse_message_eq_dec H) (pair_eq_dec H) m (i, o)
                  (parse_errors st))).
Proof.
  unfold process_file. intros Hx.
  repeat match type of Hx with
         | match ?c with _ => _ end = _ => destruct c
         | (if ?c then _ else _) = _ => destruct c
         end;
    try discriminate; injection Hx as <-; cbn;
    (split; [reflexivity|]); (split; [reflexivity|]);
    first [ left; split; reflexivity
          | right; split; [reflexivity | eexists; reflexivity] ].
Qed.

Lemma print_status_inv (H : host) (input_index queue_len : Z)
    (st : run_state H) :
  match print_status H input_index queue_len st with
  | inl x => x = ZeroDivisionError /\ queue_len = 1
  | inr st2 =>
      queue_len <> 1
      /\ run_fs st2 = run_fs st
      /\ parsed_files st2 = parsed_files st
      /\ parse_errors st2 = parse_errors st
      /\ let p := 30 * input_index / (queue_len - 1) in
         if p >? last_update st
         then last_update st2 = p /\ printed st2 = printed st ++ [p]
         else last_update st2 = last_update st /\ printed st2 = printed st
  end.
Proof.
  unfold print_status, progress.
  destruct (queue_len - 1 =? 0) eqn:E.
  - split; [reflexivity | lia].
  - cbv zeta. destruct (_ >? _); cbn; repeat split; lia.
Qed.

(** The main loop with its final state ends as the main loop does. *)
Lemma run_from_state_exit (H : host) (action : Action) (PIL_AVAILABLE : bool)
    (image_open : bytes -> option pil_image) (ow : bool) (queue_len : Z)
    (rest : list (path H * path H)) :
  forall (input_index : Z) (st : run_state H),
  run_from H action PIL_AVAILABLE image_open ow queue_len rest input_index st
  = match run_from_state H action PIL_AVAILABLE image_open ow queue_len rest
            input_index st with
    | (Some x, _) => inl x
    | (None, st') => inr st'
    end.
Proof.
  induction rest as [|[i o] rest IH]; intros idx st;
    cbn [run_from run_from_state].
  - reflexivity.
  - destruct (process_file _ _ _ _ _ _ _ _) as [x|st1]; [reflexivity|].
    destruct (print_status _ _ _ _) as [x|st2]; [reflexivity|].
    apply IH.
Qed.

(** What the [try] statement of a turn did when it ended without an
    exception: the output was written and the pair added to [parsed_files],
    or nothing was written and the pair was recorded under one message. *)
Lemma process_file_effect (H : host) (action : Action) (PIL_AVAILABLE : bool)
    (image_open : bytes -> option pil_image) (ow : bool)
    (st st1 : run_state H) (i o : path H) :
  process_file H action PIL_AVAILABLE image_open ow st i o = inr st1 ->
  (exists data out,
      read_bytes H (run_fs st) i = inr data
      /\ convert action PIL_AVAILABLE image_open data = Ok out
      /\ write_bytes H (run_fs st) o out = inr (run_fs st1)
      /\ parsed_files st1 = set_add (pair_eq_dec H) (i, o) (parsed_files st)
      /\ parse_errors st1 = parse_errors st)
  \/ (run_fs st1 = run_fs st
      /\ parsed_files st1 = parsed_files st
      /\ exists m,
          parse_errors st1
          = dict_add (parse_message_eq_dec H) (pair_eq_dec H) m (i, o)
              (parse_errors st)).
Proof.
  unfold process_file. intros Hx.
  destruct (if ow then _ else _) as [e|[|]].
  - injection Hx as <-. right. cbn. eauto.
  - destruct (read_bytes H (run_fs st) i) as [e|data] eqn:Er.
    { injection Hx as <-. right. cbn. eauto. }
    destruct (convert action PIL_AVAILABLE image_open data) as [out|e] eqn:Ec.
    + destruct (write_bytes H (run_fs st) o out) as [e|s'] eqn:Ew.
      * injection Hx as <-. right. cbn. eauto.
      * injection Hx as <-. left. exists data, out. cbn. auto.
    + destruct (is_UnpackerError e); [|discriminate].
      injection Hx as <-. right. cbn. eauto.
  - injection Hx as <-. right. cbn. eauto.
Qed.

(** X22. A queue of exactly one file never runs to the end. Either the
    conversion leaves the loop with an exception that is no
    [UnpackerError], and then nothing was written or recorded; or the file
    is processed first, its output written and the pair put in
    [parsed_files], or nothing written and the pair recorded under one
    message of [parse_errors], and then the progress computation divides by
    zero, before any progress line is printed. *)
Theorem run_queue_single_file (H : host) (action : Action)
    (PIL_AVAILABLE : bool) (image_open : bytes -> option pil_image)
    (opt_overwrite : bool) (s : fs H) (input_file output_file : path H) :
  exists (x : loop_exit) (st : run_state H),
    run_queue_state H action PIL_AVAILABLE image_open opt_overwrite s
      [(input_file, output_file)] = (Some x, st)
    /\ run_queue H action PIL_AVAILABLE image_open opt_overwrite s
         [(input_file, output_file)] = inl x
    /\ last_update st = -1 /\ printed st = []
    /\ ((exists data e,
            x = Uncaught e /\ is_UnpackerError e = false
            /\ read_bytes H s input_file = inr data
            /\ convert action PIL_AVAILABLE image_open data = Err e
            /\ st = mk_run_state s [] [] (-1) [])
        \/ (x = ZeroDivisionError
            /\ ((exists data out,
                    read_bytes H s input_file = inr data
                    /\ convert action PIL_AVAILABLE image_open data = Ok out
                    /\ write_bytes H s output_file out = inr (run_fs st)
                    /\ parsed_files st = [(input_file, output_file)]
                    /\ parse_errors st = [])
                \/ (run_fs st = s /\ parsed_files st = []
                    /\ exists m,
                        parse_errors st
                        = [(m, [(input_file, output_file)])])))).
Proof.
  unfold run_queue, run_queue_state. rewrite run_from_state_exit.
  cbn [run_from_state].
  destruct (process_file H action PIL_AVAILABLE image_open opt_overwrite
              (mk_run_state s [] [] (-1) []) input_file output_file)
    as [x|st1] eqn:Ep.
  - exists x, (mk_run_state s [] [] (-1) []).
    split; [reflexivity|]. split; [reflexivity|].
    split; [reflexivity|]. split; [reflexivity|].
    left. apply process_file_exit in Ep.
    destruct Ep as (data & e & -> & Hu & _ & Hr & Hc).
    exists data, e. cbn [run_fs] in Hr. auto.
  - exists ZeroDivisionError, st1.
    split; [reflexivity|]. split; [reflexivity|].
    destruct (process_file_done _ _ _ _ _ _ _ _ _ Ep) as (El & Epr & _).
    split; [exact El|]. split; [exact Epr|].
    right. split; [reflexivity|].
    apply process_file_effect in Ep. cbn [run_fs parsed_files parse_errors] in Ep.
    destruct Ep as [(data & out & Hr & Hc & Hw & Hp & He)
                   | (Hfs & Hp & m & He)].
    + left. exists data, out. auto.
    + right. split; [exact Hfs|]. split; [exact Hp|]. exists m. exact He.
Qed.

Lemma run_from_exit (H : host) (action : Action) (PIL_AVAILABLE : bool)
    (image_open : bytes -> option pil_image) (ow : bool) (queue_len : Z)
    (rest : list (path H * path H)) :
  forall (input_index : Z) (st : run_state H) (x : loop_exit),
  run_from H action PIL_AVAILABLE image_open ow queue_len rest input_index st
  = inl x ->
  (x = ZeroDivisionError /\ queue_len = 1)
  \/ exists data e,
       x = Uncaught e /\ is_UnpackerError e = false
       /\ convert action PIL_AVAILABLE image_open data = Err e.
Proof.
  induction rest as [|[i o] rest IH]; intros idx st x; cbn [run_from].
  - discriminate.
  - destruct (process_file _ _ _ _ _ _ _ _) as [y|st1] eqn:Ep.
    + intros E. injection E as <-. right. apply process_file_exit in Ep.
      destruct Ep as (data & e & -> & Hu & _ & _ & Hc).
      exists data, e. repeat split; assumption.
    + pose proof (print_status_inv H idx queue_len st1) as Hs.
      destruct (print_status H idx queue_len st1) as [y|st2].
      * intros E. injection E as <-. left. exact Hs.
      * apply IH.
Qed.

(** X23. The main loop is left early in two ways only: by the division by
    zero of a one-file queue, or by an exception of the codec that is no
    [UnpackerError]; when unpacking, that exception is [struct.error]. An
    [UnpackerError] or an [OSError] of one file never ends the batch. *)
Theorem run_queue_exits (H : host) (action : Action) (PIL_AVAILABLE : bool)
    (image_open : bytes -> option pil_image) (opt_overwrite : bool)
    (s : fs H) (queue : list (path H * path H)) (x : loop_exit) :
  run_queue H action PIL_AVAILABLE image_open opt_overwrite s queue = inl x ->
  (x = ZeroDivisionError /\ length queue = 1%nat)
  \/ exists e,
       x = Uncaught e /\ is_UnpackerError e = false
       /\ (action = UNPACK -> e = StructError).
Proof.
  unfold run_queue. intros Hx. apply run_from_exit in Hx.
  destruct Hx as [[-> Hn] | (data & e & -> & Hu & Hc)].
  - left. split; [reflexivity | unfold len in Hn; lia].
  - right. exists e. split; [reflexivity|]. split; [exact Hu|].
    intros ->. cbn [convert] in Hc. apply unpack_kinds in Hc.
    destruct Hc as [-> | [-> | [-> | [-> | ->]]]];
      first [discriminate | reflexivity].
Qed.

Lemma run_queue_exits_witness :
  (ZeroDivisionError = ZeroDivisionError /\ length [(0, 100)]%nat = 1%nat)
  \/ exists e,
       ZeroDivisionError = Uncaught e /\ is_UnpackerError e = false
       /\ (UNPACK = UNPACK -> e = StructError).
Proof.
  apply (run_queue_exits sample_host UNPACK true (fun _ => None) false
           sample_fs [(0, 100)]%nat ZeroDivisionError).
  vm_compute. reflexivity.
Defined.


Lemma accounted_step (H : host) (action : Action) (PIL_AVAILABLE : bool)
    (image_open : bytes -> option pil_image) (ow : bool)
    (done : list (path H * path H)) (st st1 : run_state H) (i o : path H) :
  ~ In (i, o) done ->
  accounted done st ->
  process_file H action PIL_AVAILABLE image_open ow st i o = inr st1 ->
  accounted (done ++ [(i, o)]) st1.
Proof.
  intros Hnew (Hc & Hp & He & Hd) Hs.
  apply process_file_done in Hs.
  destruct Hs as (_ & _ & [[Ep Ee] | [Ep (m & Ee)]]);
    unfold accounted; rewrite Ep, Ee, length_app; cbn [length].
  - rewrite length_set_add by (intros Hi; apply Hnew; auto).
    split; [lia|]. split.
    { intros p Hi. apply set_add_iff in Hi. apply in_or_app.
      destruct Hi as [-> | Hi]; [right; left; reflexivity | left; auto]. }
    split.
    { intros p Hi. apply in_or_app. left. auto. }
    intros p Hi. apply set_add_iff in Hi.
    destruct Hi as [-> | Hi]; [intros Hi; apply Hnew; auto | auto].
  - rewrite dict_count_add by (intros Hi; apply Hnew; auto).
    split; [lia|]. split.
    { intros p Hi. apply in_or_app. left. auto. }
    split.
    { intros p Hi. apply in_dict_values_add in Hi. apply in_or_app.
      destruct Hi as [-> | Hi]; [right; left; reflexivity | left; auto]. }
    intros p Hi Hi'. apply in_dict_values_add in Hi'.
    destruct Hi' as [-> | Hi']; [apply Hnew; auto | exact (Hd p Hi Hi')].
Qed.

Lemma accounted_print (H : host) (input_index queue_len : Z)
    (done : list (path H * path H)) (st st2 : run_state H) :
  accounted done st ->
  print_status H input_index queue_len st = inr st2 ->
  accounted done st2.
Proof.
  intros Ha Hs. pose proof (print_status_inv H input_index queue_len st) as P.
  rewrite Hs in P. destruct P as (_ & _ & Ep & Ee & _).
  unfold accounted in *. rewrite Ep, Ee. exact Ha.
Qed.

Lemma run_from_accounted (H : host) (action : Action) (PIL_AVAILABLE : bool)
    (image_open : bytes -> option pil_image) (ow : bool) (queue_len : Z)
    (rest : list (path H * path H)) :
  forall (done : list (path H * path H)) (input_index : Z)
         (st st' : run_state H),
  NoDup (done ++ rest) ->
  accounted done st ->
  run_from H action PIL_AVAILABLE image_open ow queue_len rest input_index st
  = inr st' ->
  accounted (done ++ rest) st'.
Proof.
  induction rest as [|[i o] rest IH]; intros done idx st st' Hnd Ha;
    cbn [run_from].
  - intros E. injection E as <-. rewrite app_nil_r. exact Ha.
  - destruct (process_file _ _ _ _ _ _ _ _) as [x|st1] eqn:Ep; [discriminate|].
    destruct (print_status _ _ _ _) as [x|st2] eqn:Es; [discriminate|].
    intros Hr.
    assert (Hnew : ~ In (i, o) done).
    { intros Hi. apply NoDup_remove_2 in Hnd. apply Hnd.
      apply in_or_app. left. exact Hi. }
    replace (done ++ (i, o) :: rest) with ((done ++ [(i, o)]) ++ rest) in *
      by (rewrite <- app_assoc; reflexivity).
    apply (IH _ _ _ _ Hnd) in Hr; [exact Hr|].
    eapply accounted_print; [|exact Es].
    eapply accounted_step; eassumption.
Qed.

(** X24. When the main loop runs to the end over a queue without repeated
    entries, every queued file is either in [parsed_files] or under one
    message of [parse_errors], never both: the two counts of the final
    summary add up to the length of the queue. *)
Theorem run_queue_accounting (H : host) (action : Action)
    (PIL_AVAILABLE : bool) (image_open : bytes -> option pil_image)
    (opt_overwrite : bool) (s : fs H) (queue : list (path H * path H))
    (st : run_state H) :
  NoDup queue ->
  run_queue H action PIL_AVAILABLE image_open opt_overwrite s queue = inr st ->
  (length (parsed_files st) + dict_count (parse_errors st) = length queue)%nat
  /\ (forall p, In p (parsed_files st) -> In p queue)
  /\ (forall p, In p (dict_values (parse_errors st)) -> In p queue)
  /\ (forall p, In p (parsed_files st) ->
                ~ In p (dict_values (parse_errors st))).
Proof.
  intros Hnd Hr. unfold run_queue in Hr.
  apply (run_from_accounted H _ _ _ _ _ queue [] 0 _ st Hnd) in Hr;
    [exact Hr|].
  unfold accounted. cbn. repeat split; intros p [].
Qed.

Lemma run_queue_accounting_witness :
  (length (parsed_files sample_final_state)
   + dict_count (parse_errors sample_final_state)
   = length [(0, 100); (2, 102)]%nat)%nat
  /\ (forall p, In p (parsed_files sample_final_state) ->
                In p [(0, 100); (2, 102)]%nat)
  /\ (forall p, In p (dict_values (parse_errors sample_final_state)) ->
                In p [(0, 100); (2, 102)]%nat)
  /\ (forall p, In p (parsed_files sample_final_state) ->
                ~ In p (dict_values (parse_errors sample_final_state))).
Proof.
  apply (run_queue_accounting sample_host UNPACK true (fun _ => None) false
           sample_fs [(0, 100); (2, 102)]%nat sample_final_state).
  - repeat constructor; cbn; intuition congruence.
  - vm_compute. reflexivity.
Defined.

Lemma StronglySorted_snoc (l : list Z) (p : Z) :
  StronglySorted Z.lt l -> Forall (fun q => q < p) l ->
  StronglySorted Z.lt (l ++ [p]).
Proof.
  induction 1 as [|a l Hs IH Ha]; intros Hf; cbn.
  - repeat constructor.
  - inversion Hf as [|? ? Hap Hf']; subst. constructor; [auto|].
    apply Forall_app. split; [exact Ha | repeat constructor; exact Hap].
Qed.

Lemma drawn_step (H : host) (queue_len input_index : Z)
    (st st2 : run_state H) :
  2 <= queue_len -> 0 <= input_index < queue_len ->
  drawn queue_len input_index st ->
  print_status H input_index queue_len st = inr st2 ->
  drawn queue_len (input_index + 1) st2.
Proof.
  intros Hn Hi (Hl & Hs & Hf & H0 & H1) Hp.
  pose proof (print_status_inv H input_index queue_len st) as P.
  rewrite Hp in P. destruct P as (_ & _ & _ & _ & P). cbv zeta in P.
  pose proof (progress_bounds input_index queue_len Hn Hi) as B.
  unfold drawn.
  replace (input_index + 1 =? 0) with false by lia.
  replace (input_index + 1 - 1) with input_index by lia.
  destruct (_ >? _) eqn:E; destruct P as [Pl Pp]; rewrite Pl, Pp.
  - apply Z.gtb_lt in E.
    split; [reflexivity|]. split.
    { apply StronglySorted_snoc; [exact Hs|].
      eapply Forall_impl; [|exact Hf]. cbv beta. lia. }
    split.
    { apply Forall_app. split; [|repeat constructor; lia].
      eapply Forall_impl; [|exact Hf]. cbv beta. lia. }
    split; [lia|]. intros _.
    rewrite last_last. split; [|reflexivity].
    destruct (Z.eq_dec input_index 0) as [-> | Hne].
    + rewrite (H0 eq_refl). cbn. reflexivity.
    + destruct (H1 ltac:(lia)) as [Hh _].
      destruct (printed st); [discriminate | exact Hh].
  - rewrite Z.gtb_ltb in E. apply Z.ltb_ge in E.
    assert (Hpos : 0 < input_index).
    { destruct (Z.eq_dec input_index 0) as [-> | Hne]; [|lia].
      cbn in Hl. rewrite Hl in E. cbn in E. lia. }
    replace (input_index =? 0) with false in Hl by lia.
    pose proof (progress_mono (input_index - 1) input_index queue_len Hn
                  ltac:(lia)) as M.
    split; [lia|]. split; [exact Hs|]. split; [exact Hf|].
    split; [lia|]. intros _. exact (H1 Hpos).
Qed.

Lemma run_from_drawn (H : host) (action : Action) (PIL_AVAILABLE : bool)
    (image_open : bytes -> option pil_image) (ow : bool) (queue_len : Z)
    (rest : list (path H * path H)) :
  forall (input_index : Z) (st st' : run_state H),
  2 <= queue_len -> 0 <= input_index ->
  input_index + len rest = queue_len ->
  drawn queue_len input_index st ->
  run_from H action PIL_AVAILABLE image_open ow queue_len rest input_index st
  = inr st' ->
  drawn queue_len queue_len st'.
Proof.
  induction rest as [|[i o] rest IH]; intros idx st st' Hn Hi Hlen Hd;
    cbn [run_from].
  - intros E. injection E as <-. unfold len in Hlen. cbn in Hlen.
    replace idx with queue_len in Hd by lia. exact Hd.
  - destruct (process_file _ _ _ _ _ _ _ _) as [x|st1] eqn:Ep; [discriminate|].
    destruct (print_status _ _ _ _) as [x|st2] eqn:Es; [discriminate|].
    unfold len in Hlen. cbn [length] in Hlen.
    apply IH; [exact Hn | lia | unfold len; lia |].
    apply (drawn_step H queue_len idx st1 st2 Hn); [lia | | exact Es].
    apply process_file_done in Ep. destruct Ep as (El & Epr & _).
    unfold drawn in *. rewrite El, Epr. exact Hd.
Qed.

(** X25. When the main loop runs to the end over a non-empty queue, the
    progress values it printed start at 0, increase strictly, end at 30,
    and each bar is 30 characters wide. *)
Theorem run_queue_progress (H : host) (action : Action)
    (PIL_AVAILABLE : bool) (image_open : bytes -> option pil_image)
    (opt_overwrite : bool) (s : fs H) (queue : list (path H * path H))
    (st : run_state H) :
  queue <> [] ->
  run_queue H action PIL_AVAILABLE image_open opt_overwrite s queue = inr st ->
  StronglySorted Z.lt (printed st)
  /\ hd_error (printed st) = Some 0
  /\ last (printed st) 0 = 30
  /\ Forall (fun p => len (progress_bar p) = 30) (printed st).
Proof.
  intros Hne Hr. unfold run_queue in Hr.
  assert (Hn : 2 <= len queue).
  { destruct queue as [|[i o] [|q queue]]; [congruence | | unfold len; cbn; lia].
    exfalso. cbn [run_from] in Hr.
    destruct (process_file _ _ _ _ _ _ _ _); discriminate. }
  apply run_from_drawn in Hr; [| exact Hn | lia | lia |].
  - destruct Hr as (Hl & Hs & Hf & _ & H1).
    replace (len queue =? 0) with false in Hl by lia.
    rewrite progress_last in Hl by exact Hn.
    destruct (H1 ltac:(lia)) as [Hh Hla].
    split; [exact Hs|]. split; [exact Hh|]. split; [lia|].
    eapply Forall_impl; [|exact Hf]. cbv beta. intros p Hp.
    apply len_progress_bar. lia.
  - unfold drawn. cbn.
    repeat split; (constructor || lia || discriminate || idtac).
Qed.

Lemma run_queue_progress_witness :
  StronglySorted Z.lt (printed sample_final_state)
  /\ hd_error (printed sample_final_state) = Some 0
  /\ last (printed sample_final_state) 0 = 30
  /\ Forall (fun p => len (progress_bar p) = 30) (printed sample_final_state).
Proof.
  apply (run_queue_progress sample_host UNPACK true (fun _ => None) false
           sample_fs [(0, 100); (2, 102)]%nat sample_final_state).
  - discriminate.
  - vm_compute. reflexivity.
Defined.



(** ** The sprite script: guessing a dimension *)

Lemma guess_deltas_found (base main_delta : Z) (additional_deltas : list Z)
    (pixels_size d : Z) :
  guess_deltas base main_delta additional_deltas pixels_size = Some (inr d) ->
  0 < d /\ pixels_size mod d = 0
  /\ exists delta, In delta additional_deltas /\ d = base + delta + main_delta.
Proof.
  induction additional_deltas as [|delta ds IH]; cbn [guess_deltas];
    [discriminate|]. cbv zeta.
  destruct (_ <? 0) eqn:E1; [|destruct (_ =? 0) eqn:E2;
                               [|destruct (_ mod _ =? 0) eqn:E3]];
    intros H; try discriminate.
  - destruct (IH H) as (Hp & Hm & delta' & Hi & E). eauto 8 using in_cons.
  - injection H as <-. split; [lia|]. split; [lia|].
    exists delta. split; [left; reflexivity | reflexivity].
  - destruct (IH H) as (Hp & Hm & delta' & Hi & E). eauto 8 using in_cons.
Qed.

Lemma guess_deltas_raised (base main_delta : Z) (additional_deltas : list Z)
    (pixels_size : Z) (e : sprite_error) :
  guess_deltas base main_delta additional_deltas pixels_size = Some (inl e) ->
  e = DivisionByZero
  /\ exists delta, In delta additional_deltas /\ base + delta + main_delta = 0.
Proof.
  induction additional_deltas as [|delta ds IH]; cbn [guess_deltas];
    [discriminate|]. cbv zeta.
  destruct (_ <? 0) eqn:E1; [|destruct (_ =? 0) eqn:E2;
                               [|destruct (_ mod _ =? 0) eqn:E3]];
    intros H; try discriminate.
  - destruct (IH H) as (He & delta' & Hi & E). eauto 8 using in_cons.
  - injection H as <-. split; [reflexivity|].
    exists delta. split; [left; reflexivity | lia].
  - destruct (IH H) as (He & delta' & Hi & E). eauto 8 using in_cons.
Qed.

Lemma guess_deltas_none (base main_delta : Z) (additional_deltas : list Z)
    (pixels_size : Z) :
  guess_deltas base main_delta additional_deltas pixels_size = None ->
  forall delta, In delta additional_deltas ->
    base + delta + main_delta < 0
    \/ (0 < base + delta + main_delta
        /\ pixels_size mod (base + delta + main_delta) <> 0).
Proof.
  induction additional_deltas as [|delta ds IH]; cbn [guess_deltas];
    [intros _ delta []|]. cbv zeta.
  destruct (_ <? 0) eqn:E1; [|destruct (_ =? 0) eqn:E2;
                               [|destruct (_ mod _ =? 0) eqn:E3]];
    intros H; try discriminate;
    (intros delta' [<- | Hi]; [lia | exact (IH H delta' Hi)]).
Qed.

(** X27. [guess_image_dimension] returns a positive divisor of the pixel
    count of the form base + delta + main_delta; it raises
    [ZeroDivisionError] only when such a sum is 0, and the exception of
    line 23 only when every sum is negative or fails to divide the count. *)
Theorem guess_image_dimension_spec (dimension_candidates : list Z)
    (main_delta : Z) (additional_deltas : list Z) (pixels_size : Z) :
  match guess_image_dimension dimension_candidates main_delta
          additional_deltas pixels_size with
  | inr d =>
      0 < d /\ pixels_size mod d = 0
      /\ exists base delta,
           In base dimension_candidates /\ In delta additional_deltas
           /\ d = base + delta + main_delta
  | inl DivisionByZero =>
      exists base delta,
        In base dimension_candidates /\ In delta additional_deltas
        /\ base + delta + main_delta = 0
  | inl CannotFigureOut =>
      forall base delta,
        In base dimension_candidates -> In delta additional_deltas ->
        base + delta + main_delta < 0
        \/ (0 < base + delta + main_delta
            /\ pixels_size mod (base + delta + main_delta) <> 0)
  | inl (Raised _) => False
  end.
Proof.
  induction dimension_candidates as [|base cs IH];
    cbn [guess_image_dimension].
  - intros base delta [].
  - destruct (guess_deltas base main_delta additional_deltas pixels_size)
      as [[e|d]|] eqn:G.
    + destruct (guess_deltas_raised _ _ _ _ _ G) as (-> & delta & Hi & E0).
      exists base, delta. split; [left; reflexivity | split; assumption].
    + destruct (guess_deltas_found _ _ _ _ _ G) as (Hp & Hm & delta & Hi & E0).
      split; [exact Hp|]. split; [exact Hm|].
      exists base, delta. split; [left; reflexivity | split; assumption].
    + pose proof (guess_deltas_none _ _ _ _ G) as N.
      destruct (guess_image_dimension cs main_delta additional_deltas
                  pixels_size) as [[| |e]|d].
      * intros b delta [<- | Hb] Hd;
          [exact (N delta Hd) | exact (IH b delta Hb Hd)].
      * destruct IH as (b & delta & Hb & Hd & E0).
        exists b, delta. split; [right; exact Hb | split; assumption].
      * exact IH.
      * destruct IH as (Hp & Hm & b & delta & Hb & Hd & E0).
        split; [exact Hp|]. split; [exact Hm|].
        exists b, delta. split; [right; exact Hb | split; assumption].
Qed.

Lemma guess_first (base main_delta delta pixels_size : Z)
    (cs ds : list Z) :
  0 < base + delta + main_delta ->
  pixels_size mod (base + delta + main_delta) = 0 ->
  guess_image_dimension (base :: cs) main_delta (delta :: ds) pixels_size
  = inr (base + delta + main_delta).
Proof.
  intros Hp Hm. cbn [guess_image_dimension guess_deltas]. cbv zeta.
  destruct (_ <? 0) eqn:E1; [lia|].
  destruct (_ =? 0) eqn:E2; [lia|].
  rewrite Hm. reflexivity.
Qed.

(** ** The sprite script: reading the container *)

Lemma unpack_fields_ok (size count : nat) (data : bytes) :
  len data = Z.of_nat (size * count) ->
  unpack_fields size count data
  = inr (map (fun k => le_decode (field size data (Z.of_nat (size * k))))
           (seq 0 count)).
Proof. intros H. unfold unpack_fields. rewrite H, Z.eqb_refl. reflexivity. Qed.

Lemma unpack_fields_short (size count : nat) (data : bytes) :
  len data <> Z.of_nat (size * count) ->
  unpack_fields size count data = inl (Raised StructError).
Proof.
  intros H. unfold unpack_fields.
  destruct (len data =? _) eqn:E; [apply Z.eqb_eq in E; lia | reflexivity].
Qed.

Lemma field_skipn (n m : nat) (b : bytes) (off : Z) :
  0 <= off -> field n (skipn m b) off = field n b (Z.of_nat m + off).
Proof.
  intros H. unfold field. rewrite skipn_skipn.
  replace (Z.to_nat (Z.of_nat m + off)) with (Z.to_nat off + m)%nat by lia.
  reflexivity.
Qed.

Lemma slice_from {A : Type} (l : list A) (i : Z) :
  0 <= i <= len l -> slice l i (len l) = skipn (Z.to_nat i) l.
Proof.
  intros H. rewrite slice_inside by lia.
  apply firstn_all2. rewrite length_skipn. unfold len. lia.
Qed.

Lemma slice_1_5 {A : Type} (a0 a1 a2 a3 a4 a5 a6 a7 : A) :
  slice [a0; a1; a2; a3; a4; a5; a6; a7] 1 5 = [a1; a2; a3; a4].
Proof. reflexivity. Qed.

Lemma slice_0_5 {A : Type} (a0 a1 a2 a3 a4 a5 a6 a7 a8 a9 a10 a11 a12 a13 : A) :
  slice [a0; a1; a2; a3; a4; a5; a6; a7; a8; a9; a10; a11; a12; a13] 0 5
  = [a0; a1; a2; a3; a4].
Proof. reflexivity. Qed.

(** The two tuples of [extract_image] are fields of the container as
    [unpack] reads them. *)
Lemma weird_data_fields (file_data : bytes) :
  32 <= len file_data ->
  unpack_fields 4 8 (slice file_data 0 32)
  = inr (map (fun k => u32le file_data (4 * Z.of_nat k)) (seq 0 8)).
Proof.
  intros H. rewrite slice_inside by lia.
  change (Z.to_nat (32 - 0)) with 32%nat. change (Z.to_nat 0) with 0%nat.
  cbn [skipn].
  rewrite unpack_fields_ok by (apply len_firstn; unfold len in H; lia).
  f_equal. apply map_ext_in. intros k Hk. apply in_seq in Hk.
  unfold u32le. rewrite field_firstn by lia. f_equal. f_equal. lia.
Qed.

Lemma weird_data2_fields (file_data : bytes) :
  1112 <= len file_data ->
  unpack_fields 4 14 (slice file_data (32 + 256 * 4) (32 + 256 * 4 + 56))
  = inr (map (fun k => u32le file_data (0x420 + 4 * Z.of_nat k)) (seq 0 14)).
Proof.
  intros H. rewrite slice_inside by lia.
  change (Z.to_nat (32 + 256 * 4 + 56 - (32 + 256 * 4))) with 56%nat.
  change (Z.to_nat (32 + 256 * 4)) with 1056%nat.
  rewrite unpack_fields_ok
    by (apply len_firstn; rewrite length_skipn; unfold len in H; lia).
  f_equal. apply map_ext_in. intros k Hk. apply in_seq in Hk.
  unfold u32le. rewrite field_firstn, field_skipn by lia.
  f_equal. f_equal. lia.
Qed.

(** X28. A file of fewer than 1112 bytes is refused with [struct.error]
    by the first or the second [unpack]. *)
Theorem extract_image_short (file_data : bytes) :
  len file_data < 1112 ->
  extract_image file_data = inl (Raised StructError).
Proof.
  intros H. unfold extract_image.
  destruct (Z.lt_ge_cases (len file_data) 32) as [H32|H32].
  - rewrite unpack_fields_short; [reflexivity|].
    pose proof (len_nonneg file_data). unfold slice, clamp_index. cbn [Z.ltb].
    unfold len in *. rewrite length_firstn, length_skipn. lia.
  - rewrite weird_data_fields by lia. cbn [sprite_bind].
    rewrite unpack_fields_short; [reflexivity|].
    unfold slice, clamp_index.
    change (32 + 256 * 4 <? 0) with false.
    change (32 + 256 * 4 + 56 <? 0) with false. cbv iota.
    unfold len in *. rewrite length_firstn, length_skipn. lia.
Qed.

Lemma extract_image_short_witness :
  extract_image (zeros 100) = inl (Raised StructError).
Proof. apply (extract_image_short (zeros 100)). vm_compute. reflexivity. Defined.

Lemma for_each_collect {A B : Type} (f : A -> sprite_error + B) (g : A -> B)
    (l : list A) :
  (forall a, In a l -> f a = inr (g a)) ->
  forall acc : list B,
  for_each (fun acc a => e <~ f a ;; inr (acc ++ [e])) l acc
  = inr (acc ++ map g l).
Proof.
  induction l as [|a l IH]; intros Hf acc; cbn [for_each map].
  - rewrite app_nil_r. reflexivity.
  - rewrite (Hf a) by (left; reflexivity). cbn [sprite_bind].
    rewrite IH by (intros a' Ha'; apply Hf; right; exact Ha').
    rewrite <- app_assoc. reflexivity.
Qed.

Lemma le_decode_byte (b : bytes) (off : Z) :
  0 <= off < len b ->
  le_decode (field 1 b off) = byte_val (nth (Z.to_nat off) b x00).
Proof.
  intros H. unfold field.
  assert (Hn : (Z.to_nat off < length b)%nat) by (unfold len in H; lia).
  revert Hn. generalize (Z.to_nat off). clear H. intros n.
  revert b. induction n as [|n IH]; intros [|x b] Hn; cbn in Hn; try lia.
  - cbn. lia.
  - cbn [skipn nth]. apply IH. lia.
Qed.

Lemma nth_field (n : nat) (b : bytes) (off : Z) (k : nat) :
  (k < n)%nat ->
  nth k (field n b off) x00 = nth (Z.to_nat off + k) b x00.
Proof.
  intros H. unfold field. rewrite nth_firstn.
  destruct (Nat.ltb_spec k n) as [_|Hge]; [|lia].
  apply nth_skipn.
Qed.

(** The palette [extract_image] reads: entry [i] holds the four bytes at
    offset 32 + 4 i of the file. *)
Lemma read_palette_ok (file_data : bytes) :
  1056 <= len file_data ->
  read_palette file_data
  = inr (map (fun i =>
                map (fun k =>
                       byte_val (nth (Z.to_nat (32 + i * 4) + k) file_data x00))
                    (seq 0 4))
             (range 256)).
Proof.
  intros H. unfold read_palette. cbv zeta.
  rewrite (for_each_collect _
             (fun i =>
                map (fun k =>
                       byte_val (nth (Z.to_nat (32 + i * 4) + k) file_data x00))
                    (seq 0 4))); [reflexivity|].
  intros i Hi. apply in_range in Hi.
  rewrite slice_inside by lia.
  replace (Z.to_nat (32 + i * 4 + 4 - (32 + i * 4))) with 4%nat by lia.
  change (firstn 4 (skipn (Z.to_nat (32 + i * 4)) file_data))
    with (field 4 file_data (32 + i * 4)).
  rewrite unpack_fields_ok by (rewrite len_field; lia).
  f_equal. apply map_ext_in. intros k Hk. apply in_seq in Hk.
  rewrite le_decode_byte by (rewrite len_field; lia).
  rewrite nth_field by lia. f_equal. f_equal. lia.
Qed.

Lemma palette_entry (file_data : bytes) (i : Z) (c : nat) :
  0 <= i < 256 -> (c < 4)%nat ->
  nth c
    (nth (Z.to_nat i)
       (map (fun i =>
               map (fun k =>
                      byte_val (nth (Z.to_nat (32 + i * 4) + k) file_data x00))
                   (seq 0 4))
            (range 256)) []) 0
  = byte_val (nth (Z.to_nat (32 + i * 4) + c) file_data x00).
Proof.
  intros Hi Hc.
  rewrite (nth_error_nth _ _ []
             (x := map (fun k =>
                          byte_val (nth (Z.to_nat (32 + i * 4) + k) file_data x00))
                       (seq 0 4))).
  - destruct c as [|[|[|[|c]]]]; try lia; reflexivity.
  - rewrite nth_error_map.
    replace (nth_error (range 256) (Z.to_nat i)) with (Some i).
    + reflexivity.
    + rewrite nth_error_range by lia. f_equal. lia.
Qed.

Lemma existsb_range (n x : Z) :
  existsb (Z.eqb x) (range n) = (0 <=? x) && (x <? n).
Proof.
  destruct ((0 <=? x) && (x <? n)) eqn:E.
  - apply existsb_exists. exists x. split; [apply in_range; lia | lia].
  - destruct (existsb (Z.eqb x) (range n)) eqn:E'; [|reflexivity].
    apply existsb_exists in E'. destruct E' as (x' & Hi & He).
    apply in_range in Hi. lia.
Qed.

Lemma existsb_flipped_range (h y' : Z) :
  existsb (fun y => y' =? h - 1 - y) (range h) = (0 <=? y') && (y' <? h).
Proof.
  destruct ((0 <=? y') && (y' <? h)) eqn:E.
  - apply existsb_exists. exists (h - 1 - y').
    split; [apply in_range; lia | lia].
  - destruct (existsb _ (range h)) eqn:E'; [|reflexivity].
    apply existsb_exists in E'. destruct E' as (y & Hi & He).
    apply in_range in Hi. lia.
Qed.

(** One row of the drawing loop writes the colours of its pixels into row
    [height - 1 - y] and leaves the rest of the image as it was. *)
Lemma draw_row_ok (use_palette : bool) (palette : list (list Z))
    (pixel_data : bytes) (width height y : Z) (col : Z -> color)
    (l : list Z) :
  (forall x, In x l ->
     exists r g b,
       read_pixel use_palette palette pixel_data width x y = inr (r, g, b)
       /\ col x = (b, g, r)) ->
  forall pixels : canvas,
  exists pixels' : canvas,
    for_each
      (fun pixels x =>
         ' (r, g, b) <~ read_pixel use_palette palette pixel_data width x y ;;
         inr (put pixels x (height - 1 - y) (b, g, r)))
      l pixels = inr pixels'
    /\ forall x' y',
         pixels' x' y'
         = if existsb (Z.eqb x') l && (y' =? height - 1 - y)
           then col x' else pixels x' y'.
Proof.
  induction l as [|x l IH]; intros Hread pixels; cbn [for_each].
  - exists pixels. split; [reflexivity|]. intros x' y'. reflexivity.
  - destruct (Hread x (or_introl eq_refl)) as (r & g & b & Er & Ec).
    rewrite Er. cbn [sprite_bind].
    destruct (IH (fun x0 H0 => Hread x0 (or_intror H0))
                (put pixels x (height - 1 - y) (b, g, r)))
      as (pixels' & Ef & Hp).
    exists pixels'. split; [exact Ef|].
    intros x' y'. rewrite Hp. cbn [existsb]. unfold put.
    destruct (x' =? x) eqn:Ex; cbn [orb andb].
    + apply Z.eqb_eq in Ex. subst x'.
      destruct (existsb (Z.eqb x) l); cbn [andb];
        destruct (y' =? height - 1 - y); congruence.
    + reflexivity.
Qed.

Lemma draw_rows_ok (use_palette : bool) (palette : list (list Z))
    (pixel_data : bytes) (width height : Z) (col : Z -> Z -> color)
    (l : list Z) :
  (forall x y, 0 <= x < width -> In y l ->
     exists r g b,
       read_pixel use_palette palette pixel_data width x y = inr (r, g, b)
       /\ col x (height - 1 - y) = (b, g, r)) ->
  forall pixels : canvas,
  exists pixels' : canvas,
    for_each
      (fun pixels y =>
         for_each
           (fun pixels x =>
              ' (r, g, b) <~
                read_pixel use_palette palette pixel_data width x y ;;
              inr (put pixels x (height - 1 - y) (b, g, r)))
           (range width) pixels)
      l pixels = inr pixels'
    /\ forall x' y',
         pixels' x' y'
         = if (0 <=? x') && (x' <? width)
              && existsb (fun y => y' =? height - 1 - y) l
           then col x' y' else pixels x' y'.
Proof.
  induction l as [|y l IH]; intros Hread pixels; cbn [for_each].
  - exists pixels. split; [reflexivity|]. intros x' y'.
    cbn [existsb]. rewrite andb_false_r. reflexivity.
  - destruct (draw_row_ok use_palette palette pixel_data width height y
                (fun x => col x (height - 1 - y)) (range width)
                (fun x Hx => Hread x y (proj1 (in_range width x) Hx)
                               (or_introl eq_refl))
                pixels) as (pixels1 & E1 & H1).
    rewrite E1. cbn [sprite_bind].
    destruct (IH (fun x y0 Hx Hy => Hread x y0 Hx (or_intror Hy)) pixels1)
      as (pixels' & Ef & Hp).
    exists pixels'. split; [exact Ef|].
    intros x' y'. rewrite Hp, H1, existsb_range. cbn [existsb].
    destruct ((0 <=? x') && (x' <? width)); cbn [andb]; [|reflexivity].
    destruct (y' =? height - 1 - y) eqn:Ey; cbn [orb].
    + apply Z.eqb_eq in Ey. subst y'.
      destruct (existsb _ l); reflexivity.
    + reflexivity.
Qed.

Lemma draw_pixels_ok (use_palette : bool) (palette : list (list Z))
    (pixel_data : bytes) (width height : Z) (col : Z -> Z -> color) :
  (forall x y, 0 <= x < width -> 0 <= y < height ->
     exists r g b,
       read_pixel use_palette palette pixel_data width x y = inr (r, g, b)
       /\ col x (height - 1 - y) = (b, g, r)) ->
  exists pixels : canvas,
    draw_pixels use_palette palette pixel_data width height = inr pixels
    /\ forall x y,
         pixels x y
         = if (0 <=? x) && (x <? width) && ((0 <=? y) && (y <? height))
           then col x y else (0, 0, 0).
Proof.
  intros Hread. unfold draw_pixels.
  destruct (draw_rows_ok use_palette palette pixel_data width height col
              (range height)
              (fun x y Hx Hy => Hread x y Hx (proj1 (in_range height y) Hy))
              black) as (pixels & E & Hp).
  exists pixels. split; [exact E|].
  intros x y. rewrite Hp, existsb_flipped_range. reflexivity.
Qed.

Lemma extract_image_unfold (file_data : bytes) :
  1112 <= len file_data ->
  extract_image file_data
  = let pixel_data :=
      slice file_data
        (32 + 256 * 4 + (56 + u32le file_data 0x450 - u32le file_data 0x448))
        (len file_data) in
    width <~
      guess_image_dimension
        [u32le file_data 0x004; u32le file_data 0x008; u32le file_data 0x00C;
         u32le file_data 0x010]
        (- u32le file_data 0x018) [0; 1; 2; 3] (len pixel_data) ;;
    height <~
      guess_image_dimension
        [u32le file_data 0x420; u32le file_data 0x424; u32le file_data 0x428;
         u32le file_data 0x42C; u32le file_data 0x430]
        (- u32le file_data 0x448) [0] (len pixel_data) ;;
    let use_palette := negb (width * height * 3 =? len pixel_data) in
    palette <~ (if use_palette then read_palette file_data else inr []) ;;
    pixels <~ draw_pixels use_palette palette pixel_data width height ;;
    inr (width, height, pixels).
Proof.
  intros H. unfold extract_image.
  rewrite weird_data_fields, weird_data2_fields by lia.
  cbn [sprite_bind]. reflexivity.
Qed.

Lemma read_pixel_ok (file_data pixel_data : bytes) (use_palette : bool)
    (width height x y : Z) :
  1056 <= len file_data ->
  0 <= x < width -> 0 <= y < height ->
  len pixel_data = (if use_palette then 1 else 3) * width * height ->
  exists r g b,
    read_pixel use_palette
      (if use_palette
       then map (fun i =>
                   map (fun k =>
                          byte_val
                            (nth (Z.to_nat (32 + i * 4) + k) file_data x00))
                       (seq 0 4))
                (range 256)
       else [])
      pixel_data width x y = inr (r, g, b)
    /\ stored_color file_data pixel_data use_palette width x y = (b, g, r).
Proof.
  intros Hlen Hx Hy Hp. unfold read_pixel, stored_color.
  assert (Hi : 0 <= y * width + x < width * height) by nia.
  destruct use_palette.
  - rewrite (index_inside _ _ x00) by lia. cbn [lift sprite_bind].
    rewrite Z.mul_1_r.
    set (i := byte_val (nth (Z.to_nat (y * width + x)) pixel_data x00)).
    pose proof (byte_val_range (nth (Z.to_nat (y * width + x)) pixel_data x00))
      as Hb. fold i in Hb.
    do 3 eexists. split; [reflexivity|].
    rewrite !palette_entry by lia.
    rewrite Nat.add_0_r. reflexivity.
  - rewrite !(index_inside _ _ x00) by lia. cbn [lift sprite_bind].
    do 3 eexists. split; reflexivity.
Qed.

Lemma extract_image_fields (file_data : bytes) (use_palette : bool)
    (w h po : Z) :
  1112 <= len file_data ->
  w = u32le file_data 0x004 - u32le file_data 0x018 ->
  h = u32le file_data 0x420 - u32le file_data 0x448 ->
  po = u32le file_data 0x450 - u32le file_data 0x448 ->
  0 < w -> 0 < h -> 0 <= po ->
  len (skipn (Z.to_nat (1112 + po)) file_data)
  = (if use_palette then 1 else 3) * w * h ->
  exists pixels : canvas,
    extract_image file_data = inr (w, h, pixels)
    /\ forall x y,
         pixels x y
         = if (0 <=? x) && (x <? w) && ((0 <=? y) && (y <? h))
           then stored_color file_data
                  (skipn (Z.to_nat (1112 + po)) file_data) use_palette
                  w x (h - 1 - y)
           else (0, 0, 0).
Proof.
  intros Hlen Ew Eh Epo Hw Hh Hpo HP.
  rewrite extract_image_unfold by exact Hlen. cbv zeta.
  set (P := skipn (Z.to_nat (1112 + po)) file_data) in *.
  assert (Hwh : 0 < w * h) by nia.
  assert (Hin : 1112 + po <= len file_data).
  { destruct (Z.le_gt_cases (1112 + po) (len file_data)) as [Hle|Hgt];
      [exact Hle|].
    exfalso. unfold P, len in HP. rewrite length_skipn in HP.
    unfold len in Hgt. destruct use_palette; lia. }
  replace (slice file_data _ (len file_data)) with P.
  2:{ unfold P. rewrite slice_from by lia. f_equal. lia. }
  rewrite guess_first.
  2:{ lia. }
  2:{ replace (u32le file_data 4 + 0 + - u32le file_data 24) with w by lia.
      rewrite HP. replace (_ * w * h) with ((if use_palette then 1 else 3) * h * w)
        by ring.
      apply Z.mod_mul. lia. }
  replace (u32le file_data 4 + 0 + - u32le file_data 24) with w by lia.
  cbn [sprite_bind].
  rewrite guess_first.
  2:{ lia. }
  2:{ replace (u32le file_data 1056 + 0 + - u32le file_data 1096) with h by lia.
      rewrite HP. apply Z.mod_mul. lia. }
  replace (u32le file_data 1056 + 0 + - u32le file_data 1096) with h by lia.
  cbn [sprite_bind].
  assert (Eup : negb (w * h * 3 =? len P) = use_palette).
  { rewrite HP. destruct use_palette.
    - destruct (w * h * 3 =? 1 * w * h) eqn:E; [lia | reflexivity].
    - destruct (w * h * 3 =? 3 * w * h) eqn:E; [reflexivity | lia]. }
  rewrite Eup.
  assert (Epal : (if use_palette then read_palette file_data else inr [])
                 = inr (if use_palette
                        then map (fun i =>
                                    map (fun k =>
                                           byte_val
                                             (nth (Z.to_nat (32 + i * 4) + k)
                                                file_data x00))
                                        (seq 0 4))
                                 (range 256)
                        else [])).
  { destruct use_palette; [apply read_palette_ok; lia | reflexivity]. }
  rewrite Epal. cbn [sprite_bind].
  destruct (draw_pixels_ok use_palette
              (if use_palette
               then map (fun i =>
                           map (fun k =>
                                  byte_val
                                    (nth (Z.to_nat (32 + i * 4) + k)
                                       file_data x00))
                               (seq 0 4))
                        (range 256)
               else [])
              P w h
              (fun x y => stored_color file_data P use_palette w x (h - 1 - y)))
    as (pixels & Ed & Hpx).
  { intros x y Hx Hy.
    replace (h - 1 - (h - 1 - y)) with y by lia.
    apply (read_pixel_ok file_data P use_palette w h x y); (lia || assumption). }
  rewrite Ed. cbn [sprite_bind].
  exists pixels. split; [reflexivity | exact Hpx].
Qed.

(** X29. On a file of at least 1112 bytes whose first width candidate less
    the field at 0x018 and whose first height candidate less the field at
    0x448 are positive, and whose pixel data, from offset 1112 plus the
    pixel-offset field less the field at 0x448 to the end of the file, has
    one or three bytes per pixel, [extract_image] finds this width and
    height and draws the rows in reverse order, with the palette of the
    file when there is one byte per pixel. *)
Theorem extract_image_decode (file_data : bytes) (use_palette : bool)
    (w h po : Z) :
  1112 <= len file_data ->
  w = u32le file_data 0x004 - u32le file_data 0x018 ->
  h = u32le file_data 0x420 - u32le file_data 0x448 ->
  po = u32le file_data 0x450 - u32le file_data 0x448 ->
  0 < w -> 0 < h -> 0 <= po ->
  len (skipn (Z.to_nat (1112 + po)) file_data)
  = (if use_palette then 1 else 3) * w * h ->
  exists pixels : canvas,
    extract_image file_data = inr (w, h, pixels)
    /\ forall x y,
         pixels x y
         = if (0 <=? x) && (x <? w) && ((0 <=? y) && (y <? h))
           then stored_color file_data
                  (skipn (Z.to_nat (1112 + po)) file_data) use_palette
                  w x (h - 1 - y)
           else (0, 0, 0).
Proof. exact (extract_image_fields file_data use_palette w h po). Qed.

Lemma extract_image_decode_witness :
  exists pixels : canvas,
    extract_image sample_keyed = inr (4, 4, pixels)
    /\ forall x y,
         pixels x y
         = if (0 <=? x) && (x <? 4) && ((0 <=? y) && (y <? 4))
           then stored_color sample_keyed
                  (skipn (Z.to_nat (1112 + 0)) sample_keyed) true
                  4 x (4 - 1 - y)
           else (0, 0, 0).
Proof.
  apply (extract_image_decode sample_keyed true 4 4 0);
    vm_compute; congruence.
Defined.

Lemma nth_of_nth_error {A : Type} (l : list A) (n : nat) (d : A) :
  nth n l d = match nth_error l n with Some a => a | None => d end.
Proof.
  revert n. induction l as [|a l IH]; intros [|n]; cbn; auto.
Qed.

Lemma u32le_canonical (w h d : Z) (T P : bytes) :
  len T = 0x400 -> 0 <= w < 2 ^ 31 -> 0 <= h < 2 ^ 31 ->
  u32le (canonical_layout w h d T P) 0x004 = w
  /\ u32le (canonical_layout w h d T P) 0x420 = h.
Proof.
  intros HT Hw Hh.
  destruct (canonical_layout_fields w h d T P HT)
    as (_ & F1 & _ & _ & F4 & _).
  unfold u32le. rewrite F1, F4, !le_decode_encode.
  change (8 * Z.of_nat 4) with 32.
  rewrite !Z.mod_small by lia. split; reflexivity.
Qed.

(** X30. [extract_image] undoes [pack]: on the container [pack] returns for
    an image of positive width and height it finds the width and the height
    of the image and gives every pixel its colour, the palette colour of
    its index for mode P; outside the image the canvas stays black. *)
Theorem extract_image_pack (img : pil_image) :
  well_formed_image img ->
  0 < fst (image_size img) -> 0 < snd (image_size img) ->
  exists (out : bytes) (pixels : canvas),
    pack_image img = Ok out
    /\ extract_image out
       = inr (fst (image_size img), snd (image_size img), pixels)
    /\ forall x y,
         pixels x y
         = if (0 <=? x) && (x <? fst (image_size img))
              && ((0 <=? y) && (y <? snd (image_size img)))
           then pixel_color img x y else (0, 0, 0).
Proof.
  intros Hwf Hw0 Hh0.
  pose proof (pack_image_well_formed img Hwf) as Hpack.
  pose proof (len_image_table img Hwf) as HT.
  pose proof (len_image_pixels img Hwf) as HP.
  set (w := fst (image_size img)) in *. set (h := snd (image_size img)) in *.
  set (T := image_table img) in *. set (P := image_pixels img) in *.
  set (out := canonical_layout w h (image_depth img) T P) in *.
  assert (Hwr : 0 <= w < 2 ^ 31 /\ 0 <= h < 2 ^ 31).
  { destruct img as [[w' h'] prgb pal pix | [w' h'] pix | sz];
      cbn in Hwf; unfold w, h; cbn [image_size fst snd];
      [destruct Hwf as (_ & _ & _ & A & B & _) | destruct Hwf as (A & B & _)
      | destruct Hwf]; split; assumption. }
  assert (Hd : image_depth img = 8 \/ image_depth img = 24).
  { destruct img; cbn in Hwf |- *; auto. destruct Hwf. }
  destruct (canonical_layout_fields w h (image_depth img) T P HT)
    as (_ & _ & _ & F3 & _ & _ & _ & _ & _ & _ & F10).
  fold out in F3, F10. change (Z.to_nat 0x458) with 1112%nat in F10.
  destruct (canonical_layout_values w h (image_depth img) T P HT
              ltac:(lia) ltac:(lia) ltac:(destruct Hd as [-> | ->]; lia))
    as (_ & _ & _ & _ & V448 & _ & V018 & V450).
  fold out in V448, V018, V450.
  destruct (u32le_canonical w h (image_depth img) T P HT
              ltac:(lia) ltac:(lia)) as [V004 V420].
  fold out in V004, V420.
  assert (Hlen : len out = 0x458 + len P)
    by (apply len_canonical_layout; exact HT).
  pose proof (len_nonneg P) as HPn.
  destruct (extract_image_fields out
              (match img with ImageP _ _ _ _ => true | _ => false end)
              w h 0) as (pixels & Ex & Hpx).
  - lia.
  - rewrite V004, V018. lia.
  - rewrite V420, V448. lia.
  - rewrite V450, V448. lia.
  - lia.
  - lia.
  - lia.
  - change (Z.to_nat (1112 + 0)) with 1112%nat. rewrite F10, HP.
    destruct img; cbn in Hwf |- *; [reflexivity | reflexivity | destruct Hwf].
  - exists out, pixels. split; [exact Hpack|]. split; [exact Ex|].
    intros x y. rewrite Hpx.
    destruct ((0 <=? x) && (x <? w) && ((0 <=? y) && (y <? h))) eqn:Erect;
      [|reflexivity].
    assert (Hx : 0 <= x < w) by lia. assert (Hy : 0 <= y < h) by lia.
    change (Z.to_nat (1112 + 0)) with 1112%nat. rewrite F10.
    clear Hpx Ex Erect.
    destruct img as [[w' h'] prgb pal pix | [w' h'] pix | sz];
      [| |destruct Hwf].
    + cbn [image_size fst snd] in w, h. subst w h.
      destruct Hwf as (_ & Hm & Hl & Hw & Hh & Hpix).
      unfold stored_color, pixel_color. cbv zeta.
      assert (Epix : nth (Z.to_nat ((h' - 1 - y) * w' + x)) P x00
                     = nth (Z.to_nat (y * w' + x)) pix x00).
      { rewrite !nth_of_nth_error. unfold P. cbn [image_pixels].
        replace (Z.to_nat ((h' - 1 - y) * w' + x))
          with ((Z.to_nat h' - 1 - Z.to_nat y) * Z.to_nat w' + Z.to_nat x)%nat
          by nia.
        rewrite nth_error_index_pixels by lia.
        replace (Z.to_nat y * Z.to_nat w' + Z.to_nat x)%nat
          with (Z.to_nat (y * w' + x)) by nia.
        reflexivity. }
      rewrite Epix.
      set (i := byte_val (nth (Z.to_nat (y * w' + x)) pix x00)).
      pose proof (byte_val_range (nth (Z.to_nat (y * w' + x)) pix x00)) as Hi.
      fold i in Hi.
      assert (Etab : forall c, (c < 4)%nat ->
                nth (Z.to_nat (32 + i * 4) + c) out x00
                = match (if Z.of_nat (Z.to_nat i) <? len pal / 3
                         then nth_error [nth (3 * Z.to_nat i + 2) pal x00;
                                         nth (3 * Z.to_nat i + 1) pal x00;
                                         nth (3 * Z.to_nat i) pal x00; x00] c
                         else Some x20) with
                  | Some a => a
                  | None => x00
                  end).
      { intros c Hc. rewrite nth_of_nth_error.
        replace (Z.to_nat (32 + i * 4) + c)%nat
          with (32 + (4 * Z.to_nat i + c))%nat by lia.
        rewrite (nth_error_table _ _ _ F3) by lia.
        unfold T. cbn [image_table].
        rewrite nth_error_palette_table by (assumption || lia).
        reflexivity. }
      rewrite (Etab 2%nat), (Etab 1%nat), (Etab 0%nat) by lia.
      destruct (Z.of_nat (Z.to_nat i) <? len pal / 3); reflexivity.
    + cbn [image_size fst snd] in w, h. subst w h.
      destruct Hwf as (Hw & Hh & Hpix).
      unfold stored_color, pixel_color. cbv zeta.
      destruct (nth (Z.to_nat (y * w' + x)) pix (x00, x00, x00))
        as [[r g] b] eqn:Epx.
      assert (Hnth : nth_error pix (Z.to_nat y * Z.to_nat w' + Z.to_nat x)
                     = Some (r, g, b)).
      { replace (Z.to_nat y * Z.to_nat w' + Z.to_nat x)%nat
          with (Z.to_nat (y * w' + x)) by nia.
        rewrite <- Epx. apply nth_error_nth'. unfold len in Hpix. nia. }
      assert (Ergb : forall c, 0 <= c < 3 ->
                nth (Z.to_nat (((h' - 1 - y) * w' + x) * 3 + c)) P x00
                = nth (Z.to_nat c) [b; g; r] x00).
      { intros c Hc. rewrite !nth_of_nth_error. unfold P. cbn [image_pixels].
        replace (Z.to_nat (((h' - 1 - y) * w' + x) * 3 + c))
          with ((Z.to_nat h' - 1 - Z.to_nat y) * (3 * Z.to_nat w')
                + (Z.to_nat x * 3 + Z.to_nat c))%nat by nia.
        rewrite (nth_error_rgb_pixels w' h' pix (Z.to_nat x) (Z.to_nat y)
                   (Z.to_nat c) r g b) by (assumption || lia).
        reflexivity. }
      rewrite (Ergb 2), (Ergb 1) by lia.
      rewrite <- (Z.add_0_r (((h' - 1 - y) * w' + x) * 3)) at 1.
      rewrite (Ergb 0) by lia.
      reflexivity.
Qed.

Lemma extract_image_pack_witness :
  exists (out : bytes) (pixels : canvas),
    pack_image sample_short_palette_image = Ok out
    /\ extract_image out = inr (4, 4, pixels)
    /\ forall x y,
         pixels x y
         = if (0 <=? x) && (x <? 4) && ((0 <=? y) && (y <? 4))
           then pixel_color sample_short_palette_image x y else (0, 0, 0).
Proof.
  apply (extract_image_pack sample_short_palette_image).
  - vm_compute. repeat split; congruence.
  - reflexivity.
  - reflexivity.
Defined.
